(** * x-research-skill: the bookmark monitor and the PKCE authorizer

    A shallow embedding of [scripts/bookmarks.ts] and of
    [scripts/auth/get-bookmark-token.ts], and the properties of the
    specification proved (or refuted) on it.

    Conventions of the embedding.
    - A JavaScript string is embedded as a [string], the sequence of the
      bytes of its UTF-8 encoding.  Substring search, slicing and
      concatenation on well-formed text agree on both representations.
    - The built-ins [String.prototype.toLowerCase] and
      [String.prototype.trim] depend on Unicode tables; the functions of
      the monitor take them as parameters ([toLowerCase], [trim]) and the
      theorems hold for every choice.  [ascii_toLowerCase] and
      [ascii_trim] are what the built-ins compute on ASCII text; they are
      used on the concrete examples.
    - Code that may throw lives in the monad [M]: a computation reads the
      world (arguments, environment, network, clock), updates the files and
      appends to the trace of observable events, and ends in a value, a
      thrown exception or [process.exit].
    - Values typed [any] that come from local JSON files are embedded as
      [json] values and used dynamically; payloads of the remote API are
      typed as the functions that fetch them declare.
    - The four files of the monitor are distinct and [HOME] is set (the
      source asserts it).  [mkdirSync] and [writeFileSync] throw when the
      file system refuses them; a refused write leaves the file as it is.
    - Of the numbers of a JSON document, the integers that a double holds
      exactly are embedded; on them [JSON.parse] and [JSON.stringify] are
      inverse to each other.  The theorems on the seen-set speak of its
      string members, the ids. *)

From Stdlib Require Import String Ascii List ZArith Lia DecimalString.
From stdpp Require Import gmap strings list.

Open Scope string_scope.
Open Scope list_scope.

(** ** JavaScript strings *)

Module Js.

(** [s.includes(pat)] *)
Fixpoint includes (s pat : string) : bool :=
  String.prefix pat s ||
  match s with
  | EmptyString => false
  | String _ s' => includes s' pat
  end.

(** Index of the first occurrence of [pat] in [s]; [None] is JavaScript's -1. *)
Fixpoint search (s pat : string) : option nat :=
  if String.prefix pat s then Some 0
  else match s with
       | EmptyString => None
       | String _ s' => option_map S (search s' pat)
       end.

Fixpoint drop (n : nat) (s : string) : string :=
  match n, s with
  | S n', String _ s' => drop n' s'
  | _, _ => s
  end.

Fixpoint take (n : nat) (s : string) : string :=
  match n, s with
  | S n', String c s' => String c (take n' s')
  | _, _ => EmptyString
  end.

(** [s.indexOf(pat, from)]: [from] is clamped to [0 .. s.length], the
    result is -1 when there is no occurrence at or after it. *)
Definition indexOf (s pat : string) (from : Z) : Z :=
  let k := Z.to_nat (Z.min (Z.max from 0) (Z.of_nat (String.length s))) in
  match search (drop k s) pat with
  | Some i => Z.of_nat (k + i)
  | None => (-1)%Z
  end.

(** A relative index of [slice]: negative counts from the end, and the
    result is clamped to [0 .. len]. *)
Definition relative_index (len : nat) (k : Z) : nat :=
  if (k <? 0)%Z then Z.to_nat (Z.max (Z.of_nat len + k) 0)
  else Nat.min (Z.to_nat k) len.

(** [s.slice(start, stop)]; [None] is [undefined]. *)
Definition slice (s : string) (start : Z) (stop : option Z) : string :=
  let len := String.length s in
  let a := relative_index len start in
  let b := match stop with
           | Some e => relative_index len e
           | None => len
           end in
  take (b - a) (drop a s).

(** [s.replace(pat, rep)] with a string pattern: the first occurrence only. *)
Definition replace (s pat rep : string) : string :=
  match search s pat with
  | Some i => take i s +:+ rep +:+ drop (i + String.length pat) s
  | None => s
  end.

(** [String(n)] for a non-negative integer *)
Definition of_nat (n : nat) : string := NilEmpty.string_of_uint (Nat.to_uint n).

(** [xs.join(sep)] *)
Fixpoint join (sep : string) (xs : list string) : string :=
  match xs with
  | [] => ""
  | [x] => x
  | x :: rest => x +:+ sep +:+ join sep rest
  end.

(** [xs.slice(0, n)] on an array *)
Definition array_slice0 {A} (n : nat) (xs : list A) : list A := firstn n xs.

(** A [Set] keeps its members in insertion order; [same] is the
    comparison of members (SameValueZero). *)
Section JsSet.
Context {A : Type} (same : A -> A -> bool).

Definition set_has (s : list A) (x : A) : bool := existsb (same x) s.

Definition set_add (s : list A) (x : A) : list A :=
  if set_has s x then s else s ++ [x].

(** [new Set(xs)] *)
Definition set_from (xs : list A) : list A := fold_left set_add xs [].
End JsSet.

(** [xs.includes(x)] on an array of strings *)
Definition array_includes (xs : list string) (x : string) : bool :=
  existsb (String.eqb x) xs.

Definition is_upper (c : ascii) : bool :=
  let n := nat_of_ascii c in ((65 <=? n) && (n <=? 90))%nat.

Definition is_lower (c : ascii) : bool :=
  let n := nat_of_ascii c in ((97 <=? n) && (n <=? 122))%nat.

Definition is_digit (c : ascii) : bool :=
  let n := nat_of_ascii c in ((48 <=? n) && (n <=? 57))%nat.

(** The class [\w] of regular expressions *)
Definition is_word (c : ascii) : bool :=
  is_upper c || is_lower c || is_digit c || (nat_of_ascii c =? 95)%nat.

Definition lower_char (c : ascii) : ascii :=
  if is_upper c then ascii_of_nat (nat_of_ascii c + 32) else c.

(** [toLowerCase] on ASCII text *)
Fixpoint ascii_toLowerCase (s : string) : string :=
  match s with
  | EmptyString => EmptyString
  | String c s' => String (lower_char c) (ascii_toLowerCase s')
  end.

(** White space of ASCII text: tab, line feed, vertical tab, form feed,
    carriage return, space. *)
Definition is_space (c : ascii) : bool :=
  let n := nat_of_ascii c in (((9 <=? n) && (n <=? 13)) || (n =? 32))%nat.

Fixpoint trim_start (s : string) : string :=
  match s with
  | String c s' => if is_space c then trim_start s' else s
  | EmptyString => EmptyString
  end.

Fixpoint trim_end (s : string) : string :=
  match s with
  | EmptyString => EmptyString
  | String c s' =>
      match trim_end s' with
      | EmptyString => if is_space c then EmptyString else String c EmptyString
      | t => String c t
      end
  end.

(** [trim] on ASCII text *)
Definition ascii_trim (s : string) : string := trim_end (trim_start s).

End Js.

(** ** The regular expressions of the monitor *)

Module Regex.

Definition LF : ascii := ascii_of_nat 10.
Definition CR : ascii := ascii_of_nat 13.

Definition string_of_rev (cur : list ascii) : string :=
  string_of_list_ascii (rev cur).

(** The lines of a text.  A line ends at a line terminator of the
    regular-expression dialect: line feed, carriage return, U+2028 or
    U+2029 (the bytes E2 80 A8 and E2 80 A9). *)
Fixpoint lines_from (cur : list ascii) (s : string) : list string :=
  match s with
  | EmptyString => [string_of_rev cur]
  | String c s' =>
      if (Ascii.eqb c LF || Ascii.eqb c CR)%bool
      then string_of_rev cur :: lines_from [] s'
      else
        match s' with
        | String c1 (String c2 s'') =>
            if ((nat_of_ascii c =? 226) && (nat_of_ascii c1 =? 128) &&
                ((nat_of_ascii c2 =? 168) || (nat_of_ascii c2 =? 169)))%nat
            then string_of_rev cur :: lines_from [] s''
            else lines_from (c :: cur) s'
        | _ => lines_from (c :: cur) s'
        end
  end.

Definition lines (s : string) : list string := lines_from [] s.

(** [content.match(/^## (.+)$/gm) || []]: with the flag [m], [^] and [$]
    match at the ends of a line and [.] matches no line terminator, so a
    match is a whole line that starts with the header mark and has at least one
    more character. *)
Definition header_lines (content : string) : list string :=
  List.filter
    (fun l => String.prefix "## " l && (4 <=? String.length l)%nat)
    (lines content).

(** The maximal runs of word characters ([\w]) of a text, in order. *)
Fixpoint word_runs_from (cur : list ascii) (s : string) : list string :=
  match s with
  | EmptyString =>
      match cur with [] => [] | _ => [string_of_rev cur] end
  | String c s' =>
      if Js.is_word c then word_runs_from (c :: cur) s'
      else match cur with
           | [] => word_runs_from [] s'
           | _ => string_of_rev cur :: word_runs_from [] s'
           end
  end.

Definition word_runs (s : string) : list string := word_runs_from [] s.

Fixpoint all_chars (p : ascii -> bool) (s : string) : bool :=
  match s with
  | EmptyString => true
  | String c s' => p c && all_chars p s'
  end.

(** The matches of [/\b[a-z]{4,}\b/g].  A match starts and ends at a
    word boundary and consists of letters a-z, which are word characters:
    it is a maximal run of word characters, all of them in a-z, of length
    at least 4; matches are found from left to right. *)
Definition lower_words (s : string) : list string :=
  List.filter
    (fun w => all_chars Js.is_lower w && (4 <=? String.length w)%nat)
    (word_runs s).

(** [s.match(/\b[a-z]{4,}\b/g)]: [None] is [null], when nothing matches. *)
Definition match_lower_words (s : string) : option (list string) :=
  match lower_words s with
  | [] => None
  | ws => Some ws
  end.

Definition is_quote (c : ascii) : bool :=
  ((nat_of_ascii c =? 34) || (nat_of_ascii c =? 39))%nat.

(** The longest prefix without a quote character or a line feed: what the
    class of group 1 matches, repeated. *)
Fixpoint value_chars (s : string) : string :=
  match s with
  | EmptyString => EmptyString
  | String c s' =>
      if (is_quote c || Ascii.eqb c LF)%bool then EmptyString
      else String c (value_chars s')
  end.

(** An optional quote character, then group 1: one or more characters
    that are neither a quote nor a line feed.  When the quote is taken
    and group 1 then fails, it fails without the quote too. *)
Definition quoted_value (s : string) : option string :=
  let body := match s with
              | String c s' => if is_quote c then s' else s
              | EmptyString => s
              end in
  match value_chars body with
  | EmptyString => None
  | v => Some v
  end.

(** [s.match(/KEY=.../)] for the pattern of the environment file, KEY=
    followed by the optionally quoted value: group 1 of the leftmost
    match, [None] when there is none. *)
Fixpoint match_assignment (key : string) (s : string) : option string :=
  let here :=
    if String.prefix (key +:+ "=") s
    then quoted_value (Js.drop (String.length key + 1) s)
    else None in
  match here with
  | Some v => Some v
  | None =>
      match s with
      | EmptyString => None
      | String _ s' => match_assignment key s'
      end
  end.

End Regex.

(** ** JSON values and the files of the monitor *)

(** A JSON value as [JSON.parse] yields it.  Of the numbers, only the
    integers that a double holds exactly are represented, [JNum n] for such
    an [n]: a document with another number (a fraction, an integer beyond
    2^53, 1e400, which is read as Infinity and written back as null) is
    outside the embedding.  The ids of the seen-set and the fields of an
    alert, but for its score (0, 2 or 3), are strings. *)
#[warnings="-register-all"] Inductive json :=
| JNull
| JBool (b : bool)
| JNum (n : Z)
| JStr (s : string)
| JArr (items : list json)
| JObj (fields : list (string * json)).

(** SameValueZero on values that [JSON.parse] made: primitives are compared
    by value; every array or object of a parsed document is an object of
    its own, equal to no other member. *)
Definition same_value_zero (x y : json) : bool :=
  match x, y with
  | JNull, JNull => true
  | JBool a, JBool b => Bool.eqb a b
  | JNum a, JNum b => (a =? b)%Z
  | JStr a, JStr b => String.eqb a b
  | _, _ => false
  end.

(** The state of a file: missing, present but not readable ([readFileSync]
    throws), or holding [a].  A write that succeeds replaces the file, which
    then holds what was written; a file that takes a write and stays
    unreadable (write permission only) is not represented. *)
Inductive file (A : Type) :=
| Absent
| Unreadable
| Holds (a : A).
Arguments Absent {A}.
Arguments Unreadable {A}.
Arguments Holds {A} a.

(** The text of a file that the monitor reads with [JSON.parse]: either no
    JSON document, or the text of the document [v]. *)
Inductive json_text :=
| Malformed
| Encodes (v : json).

Inductive Path := SEEN_FILE | ALERTS_FILE | ACTIVE_PROJECTS_FILE | GLOBAL_ENV_FILE.

(** The files of the monitor, and what the file system refuses:
    [data_dir_blocked] when [mkdirSync] cannot make the data directory, and
    [read_only p] when [writeFileSync] cannot create or open the file [p]
    for writing (a directory in its place, no permission, a read-only
    file system).  A file that cannot be read may or may not be writable. *)
Record Files := {
  seen_file : file json_text;
  alerts_file : file json_text;
  active_projects_file : file string;
  global_env_file : file string;
  data_dir_blocked : bool;
  read_only : Path -> bool
}.

(** ** The world and the monad of computations *)

Record Bookmark := {
  id : string;
  text : string;
  created_at : string
}.

Record Request := {
  url : string;
  authorization : string
}.

Record Response (J : Type) := {
  status : nat;
  body : string;
  json_body : option J
}.
Arguments status {J} r.
Arguments body {J} r.
Arguments json_body {J} r.

(** Exceptions raised by the runtime rather than by a [throw] of the script. *)
Inductive Fault :=
| FileError (p : Path)
| DirectoryError
| JsonSyntaxError
| NetworkError
| PropertyOfNull
| NotAFunction.

Inductive Exn :=
| Error (message : string)
| Engine (f : Fault).

Inductive Event :=
| Log (line : string)
| LogError (line : string)
| Fetched (r : Request)
| MadeDataDir
| WroteFile (p : Path)
| Scored (bm : Bookmark).

(** What the script reads and cannot change.
    - [user_api] and [bookmarks_api] answer a [fetch]; [None] is a rejected
      promise; [json_body] is what [res.json()] yields, [None] when it
      rejects.
    - [clock k] is the [k]-th reading of [new Date().toISOString()].
    - [fault_message] is the text of [err.message] of a runtime exception.
    - [render] is the console output of [--show] for a list of alerts that
      is not empty, or the exception it ends in. *)
Record World := {
  argv : list string;
  env : string -> option string;
  user_api : Request -> option (Response string);
  bookmarks_api : Request -> option (Response (option (list Bookmark)));
  clock : nat -> string;
  fault_message : Fault -> string;
  render : json -> list string * option Exn
}.

Record State := {
  files : Files;
  trace : list Event;
  clock_reads : nat
}.

Inductive Outcome (A : Type) :=
| Return (a : A)
| Throw (e : Exn)
| Exit (code : nat).
Arguments Return {A} a.
Arguments Throw {A} e.
Arguments Exit {A} code.

Definition M (A : Type) : Type := State -> Outcome A * State.

Definition ret {A} (a : A) : M A := fun st => (Return a, st).

Definition bind {A B} (m : M A) (k : A -> M B) : M B :=
  fun st =>
    match m st with
    | (Return a, st') => k a st'
    | (Throw e, st') => (Throw e, st')
    | (Exit c, st') => (Exit c, st')
    end.

Notation "'do' x <- m ; k" := (bind m (fun x => k))
  (at level 10, x name, m at level 100, k at level 200).
Notation "'run' m ; k" := (bind m (fun _ => k))
  (at level 10, m at level 100, k at level 200).

Definition throw {A} (e : Exn) : M A := fun st => (Throw e, st).

(** [process.exit(code)]: no handler catches it. *)
Definition process_exit {A} (code : nat) : M A := fun st => (Exit code, st).

(** [try { m } catch (e) { h e }] *)
Definition try_catch {A} (m : M A) (h : Exn -> M A) : M A :=
  fun st =>
    match m st with
    | (Throw e, st') => h e st'
    | r => r
    end.

Definition emit (e : Event) : M unit :=
  fun st => (Return tt,
             {| files := files st; trace := trace st ++ [e];
                clock_reads := clock_reads st |}).

Definition console_log (line : string) : M unit := emit (Log line).
Definition console_error (line : string) : M unit := emit (LogError line).

Definition get_files : M Files := fun st => (Return (files st), st).

Definition put_files (fs : Files) : M unit :=
  fun st => (Return tt,
             {| files := fs; trace := trace st; clock_reads := clock_reads st |}).

(** [new Date().toISOString()] *)
Definition toISOString_now (w : World) : M string :=
  fun st => (Return (clock w (clock_reads st)),
             {| files := files st; trace := trace st;
                clock_reads := S (clock_reads st) |}).

Definition file_exists {A} (f : file A) : bool :=
  match f with Absent => false | _ => true end.

(** [existsSync(p)] *)
Definition existsSync (p : Path) : M bool :=
  do fs <- get_files;
  ret match p with
      | SEEN_FILE => file_exists (seen_file fs)
      | ALERTS_FILE => file_exists (alerts_file fs)
      | ACTIVE_PROJECTS_FILE => file_exists (active_projects_file fs)
      | GLOBAL_ENV_FILE => file_exists (global_env_file fs)
      end.

Definition read_file {A} (p : Path) (f : file A) : M A :=
  match f with
  | Holds a => ret a
  | _ => throw (Engine (FileError p))
  end.

(** [readFileSync(p, "utf-8")] on the files read as text *)
Definition readFileSync_text (p : Path) : M string :=
  do fs <- get_files;
  match p with
  | ACTIVE_PROJECTS_FILE => read_file p (active_projects_file fs)
  | GLOBAL_ENV_FILE => read_file p (global_env_file fs)
  | _ => throw (Engine (FileError p))
  end.

(** [readFileSync(p, "utf-8")] on the files read as JSON *)
Definition readFileSync_json (p : Path) : M json_text :=
  do fs <- get_files;
  match p with
  | SEEN_FILE => read_file p (seen_file fs)
  | ALERTS_FILE => read_file p (alerts_file fs)
  | _ => throw (Engine (FileError p))
  end.

(** [JSON.parse(t)]: the value that the text encodes, or a syntax error. *)
Definition JSON_parse (t : json_text) : M json :=
  match t with
  | Encodes v => ret v
  | Malformed => throw (Engine JsonSyntaxError)
  end.

(** [JSON.stringify(v, null, 2)]: on the values represented (strings,
    booleans, null, integers that a double holds exactly, arrays and
    objects of these) the text is one that [JSON.parse] reads back as [v]. *)
Definition JSON_stringify (v : json) : json_text := Encodes v.

(** [mkdirSync(DATA_DIR, { recursive: true })]: it throws when the
    directory is missing and cannot be made. *)
Definition mkdirSync_data : M unit :=
  do fs <- get_files;
  if data_dir_blocked fs then throw (Engine DirectoryError)
  else emit MadeDataDir.

(** [writeFileSync(p, t)] on the two files the monitor writes.  It throws,
    and leaves the file as it is, when the file cannot be opened for
    writing; otherwise the write replaces the whole file. *)
Definition writeFileSync (p : Path) (t : json_text) : M unit :=
  do fs <- get_files;
  if read_only fs p then throw (Engine (FileError p))
  else
    match p with
    | SEEN_FILE =>
        run put_files {| seen_file := Holds t; alerts_file := alerts_file fs;
                     active_projects_file := active_projects_file fs;
                     global_env_file := global_env_file fs;
                     data_dir_blocked := data_dir_blocked fs;
                     read_only := read_only fs |};
        emit (WroteFile p)
    | ALERTS_FILE =>
        run put_files {| seen_file := seen_file fs; alerts_file := Holds t;
                     active_projects_file := active_projects_file fs;
                     global_env_file := global_env_file fs;
                     data_dir_blocked := data_dir_blocked fs;
                     read_only := read_only fs |};
        emit (WroteFile p)
    | _ => throw (Engine (FileError p))
    end.

(** [for (const x of xs) { acc = f acc x }] with effects *)
Fixpoint for_of {A S} (f : S -> A -> M S) (xs : list A) (acc : S) : M S :=
  match xs with
  | [] => ret acc
  | x :: rest => do acc' <- f acc x; for_of f rest acc'
  end.

(** [if (c) { m }] *)
Definition when (c : bool) (m : M unit) : M unit := if c then m else ret tt.

(** The exit code of the process for a top-level computation: 0 when the
    script runs to its end, 1 for an uncaught exception. *)
Definition exit_code {A} (o : Outcome A) : nat :=
  match o with
  | Return _ => 0
  | Throw _ => 1
  | Exit c => c
  end.

(** ** The bookmark monitor, [scripts/bookmarks.ts] *)

Module Bookmarks.

Record ProjectKeywords := {
  project : string;
  keywords : list string
}.

(** The result of [scoreRelevance]; its field [project] is [rproject] here. *)
Record Relevance := {
  score : nat;
  reason : string;
  rproject : string
}.

(** [!s] for a value of type [string | null] *)
Definition falsy (s : option string) : bool :=
  match s with
  | Some v => String.eqb v ""
  | None => true
  end.

(** [res.ok] *)
Definition ok {J} (r : Response J) : bool :=
  ((200 <=? status r) && (status r <=? 299))%nat.

Definition USER_LOOKUP_URL : string :=
  "https://api.x.com/2/users/by/username/frankdegods?user.fields=id".

(** [new URLSearchParams({ max_results: "100", "tweet.fields":
    "created_at,text" })] in a template: the form encoding of the two
    pairs. *)
Definition BOOKMARK_PARAMS : string :=
  "max_results=100&tweet.fields=created_at%2Ctext".

Definition bearer (token : string) : string := "Bearer " +:+ token.

Definition defaults : list ProjectKeywords :=
  [ {| project := "BNKR/Bankr";
       keywords := ["bankr"; "bnkr"; "clanker"; "token launch"; "onchain";
                    "launchpad"; "vesting"; "earnings mechanism"] |};
    {| project := "belief-router";
       keywords := ["trade thesis"; "belief router"; "market thesis";
                    "investment thesis"; "options"; "perp"; "kalshi"] |};
    {| project := "x-research";
       keywords := ["x api"; "twitter api"; "bookmarks"; "tweet search";
                    "social media research"] |};
    {| project := "sell-radar";
       keywords := ["sell signal"; "ladder"; "mcap"; "dexscreener";
                    "portfolio management"] |};
    {| project := "Anthropic";
       keywords := ["anthropic"; "claude"; "llm"; "ai agent";
                    "solutions architect"; "applied ai"] |};
    {| project := "trading";
       keywords := ["solana"; "base"; "memecoin"; "fomo"; "dex"; "wallet";
                    "defi"; "pnl"] |} ].

Definition stopWords : list string :=
  ["with"; "this"; "that"; "from"; "have"; "will"; "been"; "they"; "their";
   "status"; "next"; "action"; "last"; "worked"].

Definition HEADER_MARK : string := "## ".
Definition NEXT_HEADER : string := String Regex.LF "## ".

Section Monitor.

Variable toLowerCase : string -> string.
Variable trim : string -> string.

(** *** Auth *)

Definition env_file_value (key : string) : M (option string) :=
  try_catch
    (do envFile <- readFileSync_text GLOBAL_ENV_FILE;
     match Regex.match_assignment key envFile with
     | Some v => ret (Some (trim v))
     | None => ret None
     end)
    (fun _ => ret None).

Definition getOAuth2Token (w : World) : M (option string) :=
  if negb (falsy (env w "X_OAUTH2_ACCESS_TOKEN"))
  then ret (env w "X_OAUTH2_ACCESS_TOKEN")
  else env_file_value "X_OAUTH2_ACCESS_TOKEN".

Definition getUserId (w : World) : M (option string) :=
  if negb (falsy (env w "X_USER_ID"))
  then ret (env w "X_USER_ID")
  else env_file_value "X_USER_ID".

(** *** Bookmarks API *)

(** [await fetch(url, { headers: { Authorization } })] *)
Definition fetch {J} (api : Request -> option (Response J)) (req : Request)
  : M (Response J) :=
  run emit (Fetched req);
  match api req with
  | Some res => ret res
  | None => throw (Engine NetworkError)
  end.

(** [await res.json()] *)
Definition res_json {J} (res : Response J) : M J :=
  match json_body res with
  | Some j => ret j
  | None => throw (Engine JsonSyntaxError)
  end.

(** The request of [lookupUserId]. *)
Definition lookup_request (token : string) : Request :=
  {| url := USER_LOOKUP_URL; authorization := bearer token |}.

Definition lookupUserId (w : World) (token : string) : M string :=
  do res <- fetch (user_api w) (lookup_request token);
  if negb (ok res)
  then throw (Error ("User lookup failed: " +:+ Js.of_nat (status res)
                     +:+ " " +:+ body res))
  else res_json res.

(** The request of [fetchBookmarks]. *)
Definition bookmarks_request (token userId : string) : Request :=
  {| url := "https://api.x.com/2/users/" +:+ userId
            +:+ "/bookmarks?" +:+ BOOKMARK_PARAMS;
     authorization := bearer token |}.

Definition fetchBookmarks (w : World) (token userId : string)
  : M (list Bookmark) :=
  do res <- fetch (bookmarks_api w) (bookmarks_request token userId);
  if negb (ok res)
  then
    let body := body res in
    if (status res =? 401)%nat
    then throw (Error ("Auth failed (" +:+ Js.of_nat (status res)
                       +:+ "). Your OAuth2 token may be expired."
                       +:+ String Regex.LF ""
                       +:+ "Run: bun run scripts/auth/get-bookmark-token.ts to refresh."))
    else throw (Error ("Bookmarks API error: " +:+ Js.of_nat (status res)
                       +:+ " " +:+ body))
  else
    do data <- res_json res;
    ret match data with
        | Some items => items
        | None => []
        end.

(** *** Relevance scoring *)

(** The body of the [map] of [extractProjectKeywords] for a header [m]. *)
Definition section_of (content m : string) : string :=
  let sectionStart := Js.indexOf content m 0 in
  let nextSection := Js.indexOf content NEXT_HEADER (sectionStart + 1) in
  Js.slice content sectionStart
    (if (nextSection >? -1)%Z then Some nextSection else None).

Definition section_words (section : string) : list string :=
  match Regex.match_lower_words (toLowerCase section) with
  | Some ws =>
      Js.array_slice0 10
        (List.filter (fun w => negb (Js.array_includes stopWords w)) ws)
  | None => []
  end.

Definition section_keywords (section : string) : list string :=
  Js.set_from String.eqb (section_words section).

Definition extract_project (content m : string) : ProjectKeywords :=
  {| project := trim (Js.replace m HEADER_MARK "");
     keywords := section_keywords (section_of content m) |}.

Definition extracted_projects (content : string) : list ProjectKeywords :=
  List.map (extract_project content) (Regex.header_lines content).

Definition extractProjectKeywords : M (list ProjectKeywords) :=
  try_catch
    (do there <- existsSync ACTIVE_PROJECTS_FILE;
     if negb there then ret defaults
     else
       do content <- readFileSync_text ACTIVE_PROJECTS_FILE;
       let extracted := extracted_projects content in
       ret (if (0 <? length extracted)%nat then extracted else defaults))
    (fun _ => ret defaults).

(** [keywords.filter((kw) => text.includes(kw.toLowerCase()))] *)
Definition matched_keywords (text : string) (kws : list string) : list string :=
  List.filter (fun kw => Js.includes text (toLowerCase kw)) kws.

(** [matched.length >= 3 ? 3 : matched.length >= 1 ? 2 : 1] *)
Definition match_score (n : nat) : nat :=
  if (3 <=? n)%nat then 3 else if (1 <=? n)%nat then 2 else 1.

(** One iteration of the loop of [scoreRelevance] on the running best. *)
Definition score_step (text : string) (best : Relevance) (p : ProjectKeywords)
  : Relevance :=
  let matched := matched_keywords text (keywords p) in
  if (length matched =? 0)%nat then best
  else
    let s := match_score (length matched) in
    if (score best <? s)%nat
    then {| score := s;
            reason := "Matches " +:+ project p +:+ ": "
                      +:+ Js.join ", " (Js.array_slice0 3 matched);
            rproject := project p |}
    else best.

Definition scoreRelevance (tweetText : string) (projects : list ProjectKeywords)
  : Relevance :=
  let text := toLowerCase tweetText in
  fold_left (score_step text) projects
    {| score := 0; reason := ""; rproject := "" |}.

(** *** State management *)

(** The members of the array of a parsed document, none for another value:
    [Array.isArray(data) ? data : []] *)
Definition array_or_empty (data : json) : list json :=
  match data with
  | JArr items => items
  | _ => []
  end.

(** The set of seen ids is a [Set] in insertion order. *)
Definition loadSeen : M (list json) :=
  try_catch
    (do there <- existsSync SEEN_FILE;
     if negb there then ret (Js.set_from same_value_zero [])
     else
       do t <- readFileSync_json SEEN_FILE;
       do data <- JSON_parse t;
       ret (Js.set_from same_value_zero (array_or_empty data)))
    (fun _ => ret (Js.set_from same_value_zero [])).

Definition saveSeen (seen : list json) : M unit :=
  run mkdirSync_data;
  writeFileSync SEEN_FILE (JSON_stringify (JArr seen)).

Definition loadAlerts : M json :=
  try_catch
    (do there <- existsSync ALERTS_FILE;
     if negb there then ret (JArr [])
     else
       do t <- readFileSync_json ALERTS_FILE;
       JSON_parse t)
    (fun _ => ret (JArr [])).

Definition saveAlerts (alerts : json) : M unit :=
  run mkdirSync_data;
  writeFileSync ALERTS_FILE (JSON_stringify alerts).

(** *** Main *)

(** [seen.has(b.id)] *)
Definition seen_has (seen : list json) (b : Bookmark) : bool :=
  Js.set_has same_value_zero seen (JStr (id b)).

(** The value of the field [key] of a parsed object: of its last
    occurrence, as [JSON.parse] keeps it. *)
Fixpoint field (fields : list (string * json)) (key : string) : option json :=
  match fields with
  | [] => None
  | (k, v) :: rest =>
      match field rest key with
      | Some later => Some later
      | None => if String.eqb k key then Some v else None
      end
  end.

(** Reading a property of a value of type [any]: it throws on [null]. *)
Definition read_property (v : json) : M unit :=
  match v with
  | JNull => throw (Engine PropertyOfNull)
  | _ => ret tt
  end.

(** The call [alerts.push(a)] on a value of type [any]: only an array has
    the method. *)
Definition push (alerts a : json) : M json :=
  match alerts with
  | JArr items => ret (JArr (items ++ [a]))
  | JNull => throw (Engine PropertyOfNull)
  | _ => throw (Engine NotAFunction)
  end.

(** [alerts.length === 0] on a value of type [any] *)
Definition length_is_zero (alerts : json) : M bool :=
  match alerts with
  | JArr items => ret (length items =? 0)%nat
  | JStr s => ret (String.length s =? 0)%nat
  | JObj fields =>
      ret match field fields "length" with
          | Some (JNum 0) => true
          | _ => false
          end
  | JNull => throw (Engine PropertyOfNull)
  | _ => ret false
  end.

Definition alert_of (bm : Bookmark) (r : Relevance) (timestamp : string) : json :=
  JObj [ ("id", JStr (id bm));
         ("url", JStr ("https://x.com/i/web/status/" +:+ id bm));
         ("text", JStr (text bm));
         ("relevance_score", JNum (Z.of_nat (score r)));
         ("reason", JStr (reason r));
         ("project", JStr (rproject r));
         ("timestamp", JStr timestamp) ].

(** What the loop over the new bookmarks updates. *)
Record Ingest := {
  loop_seen : list json;
  loop_alerts : json;
  alertCount : nat
}.

(** The body of [for (const bm of newBookmarks)]; the event [Scored bm]
    records the call of [scoreRelevance].  In [alerts.push({ ... })] the
    method is read first, then the object is built, reading the clock, and
    then the method is called. *)
Definition ingest_step (w : World) (projects : list ProjectKeywords)
    (acc : Ingest) (bm : Bookmark) : M Ingest :=
  let seen' := Js.set_add same_value_zero (loop_seen acc) (JStr (id bm)) in
  run emit (Scored bm);
  let r := scoreRelevance (text bm) projects in
  if (2 <=? score r)%nat
  then
    run read_property (loop_alerts acc);
    do timestamp <- toISOString_now w;
    do alerts' <- push (loop_alerts acc) (alert_of bm r timestamp);
    ret {| loop_seen := seen'; loop_alerts := alerts';
           alertCount := S (alertCount acc) |}
  else ret {| loop_seen := seen'; loop_alerts := loop_alerts acc;
              alertCount := alertCount acc |}.

Definition SETUP_STEPS : string :=
  String.concat (String Regex.LF "")
    [ "";
      "❌ OAuth2 token not found. Bookmarks require user-context auth.";
      "";
      "Setup steps:";
      "1. Go to developer.twitter.com → your app → User authentication settings";
      "2. Enable OAuth 2.0";
      "3. Set callback URL: http://localhost:3000/callback";
      "4. Enable scopes: bookmark.read, tweet.read, users.read, offline.access";
      "5. Run: bun run scripts/auth/get-bookmark-token.ts";
      "6. Add X_OAUTH2_ACCESS_TOKEN to ~/.config/env/global.env";
      "" ].

(** The resolution of the user id at the head of the [try] block. *)
Definition resolveUserId (w : World) (token : string) : M string :=
  do userId <- getUserId w;
  if falsy userId
  then
    run console_log "Looking up user ID for @frankdegods...";
    do u <- lookupUserId w token;
    run console_log ("User ID: " +:+ u +:+ " (add X_USER_ID=" +:+ u
                     +:+ " to env to skip this step)");
    ret u
  else ret (default "" userId).

(** The [try] block up to the list of bookmarks. *)
Definition fetch_phase (w : World) (token : string) : M (list Bookmark) :=
  do userId <- resolveUserId w token;
  run console_log "Fetching bookmarks...";
  do bookmarks <- fetchBookmarks w token userId;
  run console_log ("Got " +:+ Js.of_nat (length bookmarks) +:+ " bookmarks.");
  ret bookmarks.

(** The [try] block after [const seen = loadSeen()]. *)
Definition store_with (w : World) (bookmarks : list Bookmark) (seen : list json)
  : M unit :=
  let newBookmarks := List.filter (fun b => negb (seen_has seen b)) bookmarks in
  run console_log (Js.of_nat (length newBookmarks) +:+ " new (unseen) bookmarks.");
  run when (length newBookmarks =? 0)%nat
        (run console_log "Nothing new."; process_exit 0);
  do projects <- extractProjectKeywords;
  do alerts <- loadAlerts;
  do final <- for_of (ingest_step w projects) newBookmarks
                {| loop_seen := seen; loop_alerts := alerts; alertCount := 0 |};
  run saveSeen (loop_seen final);
  run saveAlerts (loop_alerts final);
  console_log
    (if (0 <? alertCount final)%nat
     then "✅ " +:+ Js.of_nat (alertCount final)
          +:+ " relevant bookmark(s) added to alerts. Run --show to view."
     else "✅ " +:+ Js.of_nat (length newBookmarks)
          +:+ " bookmarks marked seen, none were relevant.").

(** The [try] block from [const seen = loadSeen()] on. *)
Definition store_phase (w : World) (bookmarks : list Bookmark) : M unit :=
  do seen <- loadSeen;
  store_with w bookmarks seen.

(** The [try] block of the default mode. *)
Definition ingest (w : World) (token : string) : M unit :=
  do bookmarks <- fetch_phase w token;
  store_phase w bookmarks.

(** The [catch] block of the default mode. *)
Definition report_error (w : World) (err : Exn) : M unit :=
  run console_error
        (String Regex.LF "" +:+ "❌ Error: " +:+
         match err with
         | Error message => message
         | Engine f => fault_message w f
         end);
  process_exit 1.

(** The script from [const args = process.argv.slice(2)] on; [argv w] is
    that slice. *)
Definition main (w : World) : M unit :=
  let args := argv w in
  run when (Js.array_includes args "--show")
        (do alerts <- loadAlerts;
         do none <- length_is_zero alerts;
         run (if none then console_log "No bookmark alerts."
              else
                run for_of (fun _ line => console_log line)
                      (fst (render w alerts)) tt;
                match snd (render w alerts) with
                | Some e => throw e
                | None => ret tt
                end);
         process_exit 0);
  run when (Js.array_includes args "--clear")
        (run saveAlerts (JArr []);
         run console_log "Bookmark alerts cleared.";
         process_exit 0);
  do token <- getOAuth2Token w;
  run when (falsy token)
        (run console_error SETUP_STEPS; process_exit 1);
  try_catch (ingest w (default "" token)) (report_error w).

End Monitor.

(** A state of the machine before the script starts. *)
Definition initial (fs : Files) : State :=
  {| files := fs; trace := []; clock_reads := 0 |}.

End Bookmarks.

(** ** The runtime library of the authorizer: SHA-256 and base64 *)

Module Crypto.

Open Scope Z_scope.

(** A byte is a [Z] in [0 .. 255]; a word is a [Z] in [0 .. 2^32 - 1]. *)
Definition bytes_of_string (s : string) : list Z :=
  List.map (fun c => Z.of_nat (nat_of_ascii c)) (list_ascii_of_string s).

Definition string_of_bytes (bs : list Z) : string :=
  string_of_list_ascii (List.map (fun b => ascii_of_nat (Z.to_nat b)) bs).

Definition MASK32 : Z := 0xFFFFFFFF.

Definition add32 (x y : Z) : Z := Z.land (x + y) MASK32.

Definition rotr (n x : Z) : Z :=
  Z.lor (Z.shiftr x n) (Z.land (Z.shiftl x (32 - n)) MASK32).

Definition not32 (x : Z) : Z := Z.lxor x MASK32.

Definition Ch (x y z : Z) : Z := Z.lxor (Z.land x y) (Z.land (not32 x) z).

Definition Maj (x y z : Z) : Z :=
  Z.lxor (Z.lxor (Z.land x y) (Z.land x z)) (Z.land y z).

Definition Sigma0 (x : Z) : Z := Z.lxor (Z.lxor (rotr 2 x) (rotr 13 x)) (rotr 22 x).
Definition Sigma1 (x : Z) : Z := Z.lxor (Z.lxor (rotr 6 x) (rotr 11 x)) (rotr 25 x).
Definition sigma0 (x : Z) : Z := Z.lxor (Z.lxor (rotr 7 x) (rotr 18 x)) (Z.shiftr x 3).
Definition sigma1 (x : Z) : Z := Z.lxor (Z.lxor (rotr 17 x) (rotr 19 x)) (Z.shiftr x 10).

(** The constants of FIPS 180-4 are fractional parts of roots of the first
    primes: [root k n] is the largest [r] with [r ^ k <= n], for [n] below
    [2 ^ (36 * k)]. *)
Fixpoint root_from (bits : nat) (k n r : Z) : Z :=
  match bits with
  | O => r
  | S b =>
      let c := r + 2 ^ Z.of_nat b in
      if c ^ k <=? n then root_from b k n c else root_from b k n r
  end.

Definition root (k n : Z) : Z := root_from 36 k n 0.

Definition is_prime (n : Z) : bool :=
  forallb (fun d => negb (n mod Z.of_nat d =? 0)) (seq 2 (Z.to_nat n - 2)).

Definition first_primes (count : nat) : list Z :=
  firstn count (List.filter is_prime (List.map Z.of_nat (seq 2 310))).

(** The first 32 bits of the fractional part of the [k]-th root of [p]. *)
Definition root_fraction (k p : Z) : Z :=
  Z.land (root k (p * 2 ^ (32 * k))) MASK32.

(** The round constants: from the cube roots of the first 64 primes. *)
Definition K256 : list Z :=
  Eval vm_compute in List.map (root_fraction 3) (first_primes 64).

Record Regs := {
  ra : Z; rb : Z; rc : Z; rd : Z; re : Z; rf : Z; rg : Z; rh : Z
}.

Definition regs_of (ws : list Z) : Regs :=
  {| ra := nth 0 ws 0; rb := nth 1 ws 0; rc := nth 2 ws 0; rd := nth 3 ws 0;
     re := nth 4 ws 0; rf := nth 5 ws 0; rg := nth 6 ws 0; rh := nth 7 ws 0 |}.

(** The initial hash value: from the square roots of the first 8 primes. *)
Definition H0 : Regs :=
  Eval vm_compute in regs_of (List.map (root_fraction 2) (first_primes 8)).

(** The padded message: the bit 1, zeros up to 56 modulo 64, and the
    length in bits as a 64-bit big-endian integer. *)
Definition be_bytes (n : nat) (x : Z) : list Z :=
  List.map (fun i => Z.land (Z.shiftr x (8 * Z.of_nat i)) 0xFF) (rev (seq 0 n)).

Definition pad (msg : list Z) : list Z :=
  let len := length msg in
  let zeros := ((64 - (len + 9) mod 64) mod 64)%nat in
  msg ++ [0x80] ++ repeat 0 zeros ++ be_bytes 8 (8 * Z.of_nat len).

Fixpoint be_words (n : nat) (bs : list Z) : list Z :=
  match n, bs with
  | S n', b0 :: b1 :: b2 :: b3 :: rest =>
      Z.lor (Z.lor (Z.lor (Z.shiftl b0 24) (Z.shiftl b1 16)) (Z.shiftl b2 8)) b3
      :: be_words n' rest
  | _, _ => []
  end.

(** The message schedule: 48 more words after the 16 of the block. *)
Fixpoint schedule (n : nat) (w : list Z) : list Z :=
  match n with
  | O => w
  | S n' =>
      let t := length w in
      let x := add32 (add32 (sigma1 (nth (t - 2) w 0)) (nth (t - 7) w 0))
                     (add32 (sigma0 (nth (t - 15) w 0)) (nth (t - 16) w 0)) in
      schedule n' (w ++ [x])
  end.

Definition round (r : Regs) (kw : Z * Z) : Regs :=
  let t1 := add32 (add32 (add32 (rh r) (Sigma1 (re r)))
                         (add32 (Ch (re r) (rf r) (rg r)) (fst kw))) (snd kw) in
  let t2 := add32 (Sigma0 (ra r)) (Maj (ra r) (rb r) (rc r)) in
  {| ra := add32 t1 t2; rb := ra r; rc := rb r; rd := rc r;
     re := add32 (rd r) t1; rf := re r; rg := rf r; rh := rg r |}.

Definition compress (h : Regs) (block : list Z) : Regs :=
  let w := schedule 48 (be_words 16 block) in
  let r := fold_left round (combine K256 w) h in
  {| ra := add32 (ra h) (ra r); rb := add32 (rb h) (rb r);
     rc := add32 (rc h) (rc r); rd := add32 (rd h) (rd r);
     re := add32 (re h) (re r); rf := add32 (rf h) (rf r);
     rg := add32 (rg h) (rg r); rh := add32 (rh h) (rh r) |}.

Fixpoint blocks (n : nat) (h : Regs) (bs : list Z) : Regs :=
  match n with
  | O => h
  | S n' => blocks n' (compress h (firstn 64 bs)) (skipn 64 bs)
  end.

Definition sha256 (msg : list Z) : list Z :=
  let p := pad msg in
  let h := blocks (length p / 64) H0 p in
  be_bytes 4 (ra h) ++ be_bytes 4 (rb h) ++ be_bytes 4 (rc h) ++ be_bytes 4 (rd h)
  ++ be_bytes 4 (re h) ++ be_bytes 4 (rf h) ++ be_bytes 4 (rg h) ++ be_bytes 4 (rh h).

(** *** Base64 *)

Definition STANDARD : string :=
  "ABCDEFGHIJKLMNOPQRSTUVWXYZabcdefghijklmnopqrstuvwxyz0123456789+/".

Definition URL_SAFE : string :=
  "ABCDEFGHIJKLMNOPQRSTUVWXYZabcdefghijklmnopqrstuvwxyz0123456789-_".

Definition digit (alphabet : string) (i : Z) : ascii :=
  match String.get (Z.to_nat (Z.land i 63)) alphabet with
  | Some c => c
  | None => "="%char
  end.

(** The four 6-bit groups of three bytes. *)
Definition sextet0 (a : Z) : Z := Z.shiftr a 2.
Definition sextet1 (a b : Z) : Z := Z.lor (Z.shiftl (Z.land a 3) 4) (Z.shiftr b 4).
Definition sextet2 (b c : Z) : Z := Z.lor (Z.shiftl (Z.land b 15) 2) (Z.shiftr c 6).
Definition sextet3 (c : Z) : Z := Z.land c 63.

(** The encoder: groups of three bytes give four digits; a rest of one or
    two bytes gives two or three digits and, when [padding] is set, the
    characters [=] that fill the group. *)
Fixpoint encode (alphabet : string) (padding : bool) (bs : list Z) : list ascii :=
  match bs with
  | [] => []
  | [a] =>
      [digit alphabet (sextet0 a); digit alphabet (sextet1 a 0)]
      ++ (if padding then ["="%char; "="%char] else [])
  | [a; b] =>
      [digit alphabet (sextet0 a); digit alphabet (sextet1 a b);
       digit alphabet (sextet2 b 0)]
      ++ (if padding then ["="%char] else [])
  | a :: b :: c :: rest =>
      digit alphabet (sextet0 a) :: digit alphabet (sextet1 a b)
      :: digit alphabet (sextet2 b c) :: digit alphabet (sextet3 c)
      :: encode alphabet padding rest
  end.

(** [buf.toString("base64")] *)
Definition base64 (bs : list Z) : string :=
  string_of_list_ascii (encode STANDARD true bs).

(** [buf.toString("base64url")] *)
Definition base64url (bs : list Z) : string :=
  string_of_list_ascii (encode URL_SAFE false bs).

Definition hex_digit (i : Z) : ascii :=
  match String.get (Z.to_nat (Z.land i 15)) "0123456789abcdef" with
  | Some c => c
  | None => "0"%char
  end.

(** [buf.toString("hex")] *)
Definition hex (bs : list Z) : string :=
  string_of_list_ascii
    (flat_map (fun b => [hex_digit (Z.shiftr b 4); hex_digit b]) bs).

(** The URL-safe base64 encoding without padding, as RFC 4648 section 5
    defines it from the standard one: [+] becomes [-], [/] becomes [_],
    and the padding is left out. *)
Definition url_safe_char (c : ascii) : ascii :=
  if Ascii.eqb c "+"%char then "-"%char
  else if Ascii.eqb c "/"%char then "_"%char
  else c.

Definition rfc4648_base64url_nopad (bs : list Z) : string :=
  string_of_list_ascii
    (List.map url_safe_char
       (List.filter (fun c => negb (Ascii.eqb c "="%char))
          (encode STANDARD true bs))).

(** A character of the URL-safe alphabet: a letter, a digit, [-] or [_]. *)
Definition base64url_char (c : ascii) : bool :=
  Js.is_upper c || Js.is_lower c || Js.is_digit c
  || Ascii.eqb c "-"%char || Ascii.eqb c "_"%char.

(** The place of a character in an alphabet. *)
Fixpoint index_in (alphabet : string) (c : ascii) : Z :=
  match alphabet with
  | EmptyString => 0
  | String d rest => if Ascii.eqb c d then 0 else 1 + index_in rest c
  end.

Definition octet0 (s0 s1 : Z) : Z := Z.lor (Z.shiftl s0 2) (Z.shiftr s1 4).
Definition octet1 (s1 s2 : Z) : Z := Z.lor (Z.shiftl (Z.land s1 15) 4) (Z.shiftr s2 2).
Definition octet2 (s2 s3 : Z) : Z := Z.lor (Z.shiftl (Z.land s2 3) 6) s3.

(** The bytes that a text without padding stands for: four digits give
    three bytes, a rest of three or two digits gives two bytes or one. *)
Fixpoint decode (alphabet : string) (cs : list ascii) : list Z :=
  match cs with
  | c0 :: c1 :: c2 :: c3 :: rest =>
      octet0 (index_in alphabet c0) (index_in alphabet c1)
      :: octet1 (index_in alphabet c1) (index_in alphabet c2)
      :: octet2 (index_in alphabet c2) (index_in alphabet c3)
      :: decode alphabet rest
  | [c0; c1; c2] =>
      [ octet0 (index_in alphabet c0) (index_in alphabet c1);
        octet1 (index_in alphabet c1) (index_in alphabet c2) ]
  | [c0; c1] => [ octet0 (index_in alphabet c0) (index_in alphabet c1) ]
  | _ => []
  end.

(** The values of a byte. *)
Definition octets : list Z := List.map Z.of_nat (seq 0 256).

End Crypto.

(** ** The authorizer, [scripts/auth/get-bookmark-token.ts] *)

Module Auth.

Import Crypto.

(** [crypto.createHash("sha256")]: the bytes passed to [update] so far. *)
Record Hash := { pending : list Z }.

Inductive Encoding := Base64url | Base64 | Hex.

Definition createHash_sha256 : Hash := {| pending := [] |}.

Definition update (h : Hash) (data : string) : Hash :=
  {| pending := pending h ++ bytes_of_string data |}.

Definition to_string (enc : Encoding) (bs : list Z) : string :=
  match enc with
  | Base64url => base64url bs
  | Base64 => base64 bs
  | Hex => hex bs
  end.

Definition digest (h : Hash) (enc : Encoding) : string :=
  to_string enc (sha256 (pending h)).

Definition REDIRECT_URI : string := "http://localhost:3000/callback".
Definition SCOPES : list string :=
  ["bookmark.read"; "tweet.read"; "users.read"; "offline.access"].
Definition TOKEN_ENDPOINT : string := "https://api.twitter.com/2/oauth2/token".

(** [crypto.randomBytes(32).toString("base64url")]; the random bytes are
    an input. *)
Definition generateCodeVerifier (random32 : list Z) : string :=
  to_string Base64url random32.

Definition generateCodeChallenge (verifier : string) : string :=
  digest (update createHash_sha256 verifier) Base64url.

(** The constants of one run of the script. *)
Record Session := {
  CLIENT_ID : string;
  CLIENT_SECRET : option string;
  codeVerifier : string;
  codeChallenge : string;
  state : string
}.

(** [a || b] on environment variables *)
Definition or_else (a b : option string) : option string :=
  match a with
  | Some v => if String.eqb v "" then b else a
  | None => b
  end.

Definition new_session (env : string -> option string)
    (random32 random16 : list Z) : Session :=
  let verifier := generateCodeVerifier random32 in
  {| CLIENT_ID := default "undefined"
                    (or_else (env "X_CLIENT_ID") (env "X_CONSUMER_KEY"));
     CLIENT_SECRET := or_else (env "X_CLIENT_SECRET") (env "X_CONSUMER_SECRET");
     codeVerifier := verifier;
     codeChallenge := generateCodeChallenge verifier;
     state := to_string Hex random16 |}.

(** The parameters set on the authorization URL, in order. *)
Definition authUrl_params (s : Session) : list (string * string) :=
  [ ("response_type", "code");
    ("client_id", CLIENT_ID s);
    ("redirect_uri", REDIRECT_URI);
    ("scope", Js.join " " SCOPES);
    ("state", state s);
    ("code_challenge", codeChallenge s);
    ("code_challenge_method", "S256") ].

(** [url.searchParams.get(name)]: the first value of [name], or null. *)
Fixpoint searchParams_get (params : list (string * string)) (name : string)
  : option string :=
  match params with
  | [] => None
  | (k, v) :: rest => if String.eqb k name then Some v else searchParams_get rest name
  end.

Record TokenRequest := {
  endpoint : string;
  method : string;
  content_type : string;
  basic_authorization : string;
  form : list (string * string)
}.

(** The JSON document of the token endpoint, as the script reads it. *)
Record Tokens := {
  error : bool;
  access_token : string;
  refresh_token : option string;
  expires_in : Z
}.

Inductive AuthEvent :=
| Respond (status : nat) (body : string)
| PostToken (r : TokenRequest)
| Print (line : string)
| PrintFailure (tokens : Tokens)
| ServerClose
| ProcessExit (code : nat)
| UnhandledRejection.

(** [token_api r] answers the POST: [None] is a rejected [fetch],
    [Some None] a body that is no JSON document.  [date_now] is
    [Date.now()]. *)
Record AuthWorld := {
  token_api : TokenRequest -> option (option Tokens);
  date_now : Z
}.

Definition token_request (s : Session) (code : string) : TokenRequest :=
  {| endpoint := TOKEN_ENDPOINT;
     method := "POST";
     content_type := "application/x-www-form-urlencoded";
     basic_authorization :=
       "Basic " +:+ to_string Base64
                      (bytes_of_string
                         (CLIENT_ID s +:+ ":" +:+ default "undefined" (CLIENT_SECRET s)));
     form := [ ("grant_type", "authorization_code");
               ("code", code);
               ("redirect_uri", REDIRECT_URI);
               ("code_verifier", codeVerifier s);
               ("client_id", CLIENT_ID s) ] |}.

Definition string_of_Z (z : Z) : string := NilEmpty.string_of_int (Z.to_int z).

(** What the handler does after the token endpoint answered. *)
Definition after_exchange (w : AuthWorld) (tokens : Tokens) : list AuthEvent :=
  if error tokens
  then [PrintFailure tokens; ServerClose; ProcessExit 1]
  else
    [ Print ("✅ Success! Add these to ~/.config/env/global.env:" +:+ String Regex.LF "");
      Print ("export X_OAUTH2_ACCESS_TOKEN=" +:+ String (ascii_of_nat 34) ""
             +:+ access_token tokens +:+ String (ascii_of_nat 34) "") ]
    ++ match refresh_token tokens with
       | Some r =>
           if String.eqb r "" then []
           else [ Print ("export X_OAUTH2_REFRESH_TOKEN=" +:+ String (ascii_of_nat 34) ""
                         +:+ r +:+ String (ascii_of_nat 34) "") ]
       | None => []
       end
    ++ [ Print ("export X_OAUTH2_TOKEN_EXPIRY=" +:+ String (ascii_of_nat 34) ""
                +:+ string_of_Z (date_now w + expires_in tokens * 1000)%Z
                +:+ String (ascii_of_nat 34) "");
         Print (String Regex.LF "" +:+ "📋 Copy those lines into your env file and you're set.");
         ServerClose;
         ProcessExit 0 ].

(** The request handler of [http.createServer], on the search parameters
    of the URL of the request. *)
Definition handler (s : Session) (w : AuthWorld) (params : list (string * string))
  : list AuthEvent :=
  let code := searchParams_get params "code" in
  let returnedState := searchParams_get params "state" in
  match code with
  | None => [Respond 400 "No code received"]
  | Some code =>
      if String.eqb code "" then [Respond 400 "No code received"]
      else
        if negb (bool_decide (returnedState = Some (state s)))
        then [Respond 400 "State mismatch — possible CSRF"]
        else
          let req := token_request s code in
          Respond 200 "<h1>✅ Auth successful! You can close this tab.</h1>"
          :: PostToken req
          :: match token_api w req with
             | Some (Some tokens) => after_exchange w tokens
             | _ => [UnhandledRejection]
             end
  end.

Definition ends_process (e : AuthEvent) : bool :=
  match e with
  | ProcessExit _ | UnhandledRejection => true
  | _ => false
  end.

(** The listener: the requests are handled in the order of arrival until
    the process ends. *)
Fixpoint serve (s : Session) (w : AuthWorld) (requests : list (list (string * string)))
  : list AuthEvent :=
  match requests with
  | [] => []
  | r :: rest =>
      let events := handler s w r in
      if existsb ends_process events then events
      else events ++ serve s w rest
  end.

End Auth.


(** * The statements of the specification

    Definitions that follow the words of the specification, to be compared
    with the definitions above, and the concrete inputs of the examples. *)

Module Spec.

Import Bookmarks.

(** The relevance of one project: 3 for at least three matching keywords,
    2 for one or two, 0 for none. *)
Definition project_score (n : nat) : nat :=
  if (3 <=? n)%nat then 3 else if (1 <=? n)%nat then 2 else 0.

(** The maximum score over the projects of a table, for a way [count] of
    counting the matching keywords of a project. *)
Definition best_score (count : ProjectKeywords -> nat)
    (projects : list ProjectKeywords) : nat :=
  list_max (List.map (fun p => project_score (count p)) projects).

(** The first project of the table that reaches the maximum; the empty label
    when the maximum is 0. *)
Definition first_best (count : ProjectKeywords -> nat)
    (projects : list ProjectKeywords) : string :=
  let best := best_score count projects in
  if (best =? 0)%nat then ""
  else match List.find (fun p => (project_score (count p) =? best)%nat) projects with
       | Some p => project p
       | None => ""
       end.

(** A word that may become a keyword: letters a-z only, at least 4 of them,
    and not a stop word. *)
Definition eligible_word (w : string) : bool :=
  Regex.all_chars Js.is_lower w && (4 <=? String.length w)%nat
  && negb (Js.array_includes stopWords w).

Section Words.

Variable toLowerCase : string -> string.

(** The keywords of a project that occur as substrings of the lowercased
    text, counted as the specification words it. *)
Definition stated_count (text : string) (p : ProjectKeywords) : nat :=
  length (List.filter (fun kw => Js.includes (toLowerCase text) kw) (keywords p)).

(** The keywords of a project that occur, once lowercased themselves, as
    substrings of the lowercased text. *)
Definition lowered_count (text : string) (p : ProjectKeywords) : nat :=
  length (List.filter
            (fun kw => Js.includes (toLowerCase text) (toLowerCase kw))
            (keywords p)).

(** The eligible words of a section, in the order of their occurrences and
    with repetitions. *)
Definition eligible (section : string) : list string :=
  List.filter (fun w => negb (Js.array_includes stopWords w))
    (Regex.lower_words (toLowerCase section)).


End Words.

(** A table whose keyword has a capital letter. *)
Definition capital_table : list ProjectKeywords :=
  [ {| project := "P"; keywords := ["Widget"] |} ].

(** A project document with twelve distinct eligible words in its section,
    the first of them repeated. *)
Definition repeated_word_document : string :=
  String.concat (String Regex.LF "")
    [ "## p";
      "alpha alpha beta gamma delta epsilon zeta theta iota kappa lambda omega sigma" ].


(** *** The monitor *)

(** The bookmarks passed to [scoreRelevance], in order. *)
Definition scored (tr : list Event) : list Bookmark :=
  flat_map (fun e => match e with Scored bm => [bm] | _ => [] end) tr.

(** The files written, in order. *)
Definition wrote (tr : list Event) : list Path :=
  flat_map (fun e => match e with WroteFile p => [p] | _ => [] end) tr.

(** The requests sent to the remote API, in order. *)
Definition requests (tr : list Event) : list Request :=
  flat_map (fun e => match e with Fetched r => [r] | _ => [] end) tr.

(** The seen-set that a state of the seen-file stands for: the members of
    its array; empty for a file that is missing, unreadable, no JSON
    document or no array. *)
Definition seen_of (f : file json_text) : list json :=
  match f with
  | Holds (Encodes data) => Js.set_from same_value_zero (array_or_empty data)
  | _ => []
  end.

Definition loaded_seen (fs : Files) : list json := seen_of (seen_file fs).

(** The alert list that a state of the alert file stands for. *)
Definition alerts_of (f : file json_text) : json :=
  match f with
  | Holds (Encodes v) => v
  | _ => JArr []
  end.

Definition loaded_alerts (fs : Files) : json := alerts_of (alerts_file fs).

Definition is_array (v : json) : Prop := exists items, v = JArr items.

(** The ids of a seen-set, as a set. *)
Definition seen_ids (seen : list json) : gset string :=
  list_to_set (flat_map (fun v => match v with JStr x => [x] | _ => [] end) seen).

Definition persisted_ids (fs : Files) : gset string := seen_ids (loaded_seen fs).

Definition fetched_ids (bookmarks : list Bookmark) : gset string :=
  list_to_set (List.map id bookmarks).

(** A bookmark whose id is in the seen-set. *)
Definition already_seen (fs : Files) (b : Bookmark) : bool :=
  seen_has (loaded_seen fs) b.

(** A seen-file that is missing, unreadable or malformed. *)
Definition corrupt (f : file json_text) : Prop :=
  f = Absent \/ f = Unreadable \/ f = Holds Malformed.

(** The messages of a failed listing of the bookmarks. *)
Definition AUTH_FAILURE : string :=
  "Auth failed (401). Your OAuth2 token may be expired."
  +:+ String Regex.LF ""
  +:+ "Run: bun run scripts/auth/get-bookmark-token.ts to refresh.".

Definition api_failure (status : nat) (body : string) : string :=
  "Bookmarks API error: " +:+ Js.of_nat status +:+ " " +:+ body.

Definition listing_failure {J} (res : Response J) : string :=
  if (status res =? 401)%nat then AUTH_FAILURE
  else api_failure (status res) (body res).

(** The bookmarks of a list that a seen-set does not hold. *)
Definition unseen (seen : list json) (bookmarks : list Bookmark) : list Bookmark :=
  List.filter (fun b => negb (seen_has seen b)) bookmarks.

(** The files after [saveSeen] and [saveAlerts]. *)
Definition written (fs : Files) (seen : list json) (alerts : json) : Files :=
  {| seen_file := Holds (Encodes (JArr seen));
     alerts_file := Holds (Encodes alerts);
     active_projects_file := active_projects_file fs;
     global_env_file := global_env_file fs;
     data_dir_blocked := data_dir_blocked fs;
     read_only := read_only fs |}.

(** The files after [saveSeen] alone. *)
Definition seen_written (fs : Files) (seen : list json) : Files :=
  {| seen_file := Holds (Encodes (JArr seen));
     alerts_file := alerts_file fs;
     active_projects_file := active_projects_file fs;
     global_env_file := global_env_file fs;
     data_dir_blocked := data_dir_blocked fs;
     read_only := read_only fs |}.

(** The file system lets [saveSeen] or [saveAlerts] store the file [p]:
    the data directory is there or can be made, and [p] can be written. *)
Definition can_save (fs : Files) (p : Path) : bool :=
  negb (data_dir_blocked fs) && negb (read_only fs p).

(** A console line or a request: the events of the run before the files
    are read. *)
Definition quiet (e : Event) : Prop :=
  match e with
  | Log _ | LogError _ | Fetched _ => True
  | _ => False
  end.

(** [st'] is [st] with the events [ev] appended to its trace. *)
Definition extends (st st' : State) (ev : list Event) : Prop :=
  files st' = files st /\ clock_reads st' = clock_reads st
  /\ trace st' = trace st ++ ev.

(** The state after the loop scored the bookmarks [bms]. *)
Definition step_state (st : State) (bms : list Bookmark) (k : nat) : State :=
  {| files := files st; trace := trace st ++ List.map Scored bms; clock_reads := k |}.

(** A computation that only appends to the trace. *)
Definition grows {A} (m : M A) : Prop :=
  forall st, exists ev, trace (snd (m st)) = trace st ++ ev.

Section Runs.

Variable trim : string -> string.

(** The default mode with a token: neither [--show] nor [--clear], and a
    token that is not empty. *)
Definition ingest_mode (w : World) (fs : Files) (token : string) : Prop :=
  Js.array_includes (argv w) "--show" = false
  /\ Js.array_includes (argv w) "--clear" = false
  /\ fst (getOAuth2Token trim w (initial fs)) = Return (Some token)
  /\ token <> "".

(** An ingest run that fetched the list [bookmarks] and reached the state
    [st1] with it. *)
Definition fetched (w : World) (fs : Files) (bookmarks : list Bookmark)
    (st1 : State) : Prop :=
  exists token,
    ingest_mode w fs token
    /\ fetch_phase trim w token (initial fs) = (Return bookmarks, st1).

End Runs.

(** *** Concrete runs *)

Definition bm1 : Bookmark :=
  {| id := "1"; text := "Solana memecoin on base";
     created_at := "2026-01-01T00:00:00.000Z" |}.

Definition bm2 : Bookmark :=
  {| id := "2"; text := "nothing to see"; created_at := "2026-01-02T00:00:00.000Z" |}.

(** A world with the token tok in the environment, the user id [uid] there
    or not, and the answer [listing] to every listing of bookmarks; the
    lookup of the user name answers 77. *)
Definition world_with (args : list string) (uid : option string)
    (listing : Response (option (list Bookmark))) : World :=
  {| argv := args;
     env := fun k =>
              if String.eqb k "X_OAUTH2_ACCESS_TOKEN" then Some "tok"
              else if String.eqb k "X_USER_ID" then uid
              else None;
     user_api := fun _ => Some {| status := 200; body := ""; json_body := Some "77" |};
     bookmarks_api := fun _ => Some listing;
     clock := fun _ => "2026-01-03T00:00:00.000Z";
     fault_message := fun _ => "fault";
     render := fun _ => ([], None) |}.

Definition two_bookmarks : Response (option (list Bookmark)) :=
  {| status := 200; body := ""; json_body := Some (Some [bm1; bm2]) |}.

Definition unauthorized : Response (option (list Bookmark)) :=
  {| status := 401; body := "Unauthorized"; json_body := None |}.

Definition files_with (seen alerts : file json_text) : Files :=
  {| seen_file := seen; alerts_file := alerts;
     active_projects_file := Absent; global_env_file := Absent;
     data_dir_blocked := false; read_only := fun _ => false |}.

(** The seen-file lists bookmark 2. *)
Definition files_seen_2 : Files :=
  files_with (Holds (Encodes (JArr [JStr "2"]))) Absent.

(** The seen-file lists both bookmarks. *)
Definition files_seen_both : Files :=
  files_with (Holds (Encodes (JArr [JStr "1"; JStr "2"]))) Absent.

(** The seen-file is no JSON document. *)
Definition files_seen_malformed : Files := files_with (Holds Malformed) Absent.

(** The alert file holds the JSON object without fields, not an array. *)
Definition files_alerts_object : Files :=
  files_with Absent (Holds (Encodes (JObj []))).

(** A directory stands where the seen-file should be: it exists, cannot be
    read and cannot be written. *)
Definition files_seen_directory : Files :=
  {| seen_file := Unreadable; alerts_file := Absent;
     active_projects_file := Absent; global_env_file := Absent;
     data_dir_blocked := false;
     read_only := fun p => match p with SEEN_FILE => true | _ => false end |}.

(** One alert on file, for bookmark 1. *)
Definition one_alert : json :=
  JArr [ alert_of bm1
           {| score := 3; reason := "Matches trading: solana, base, memecoin";
              rproject := "trading" |}
           "2026-01-02T00:00:00.000Z" ].

(** The alert file holds one alert and every file can be written. *)
Definition files_one_alert : Files := files_with Absent (Holds (Encodes one_alert)).

(** The alert file holds one alert and cannot be written. *)
Definition files_alerts_locked : Files :=
  {| seen_file := Absent; alerts_file := Holds (Encodes one_alert);
     active_projects_file := Absent; global_env_file := Absent;
     data_dir_blocked := false;
     read_only := fun p => match p with ALERTS_FILE => true | _ => false end |}.

(** The default mode with the user id 12 in the environment; the listing
    answers the two bookmarks. *)
Definition world_ingest : World := world_with [] (Some "12") two_bookmarks.

(** The default mode without a user id in the environment. *)
Definition world_lookup : World := world_with [] None two_bookmarks.

(** The default mode; the listing answers 401. *)
Definition world_unauthorized : World := world_with [] (Some "12") unauthorized.

(** A run with [--clear]. *)
Definition world_clear : World := world_with ["--clear"] (Some "12") two_bookmarks.

(** A run with [--show] and [--clear] together. *)
Definition world_show_clear : World :=
  world_with ["--show"; "--clear"] (Some "12") two_bookmarks.

(** *** The authorizer *)

(** A session with the nonce abc, and a token endpoint that answers every
    request with an access token. *)
Definition demo_session : Auth.Session :=
  {| Auth.CLIENT_ID := "client"; Auth.CLIENT_SECRET := Some "secret";
     Auth.codeVerifier := "verifier";
     Auth.codeChallenge := Auth.generateCodeChallenge "verifier";
     Auth.state := "abc" |}.

Definition demo_auth_world : Auth.AuthWorld :=
  {| Auth.token_api := fun _ =>
       Some (Some {| Auth.error := false; Auth.access_token := "at";
                     Auth.refresh_token := None; Auth.expires_in := 7200 |});
     Auth.date_now := 1000 |}.

(** A request that the handler refuses: no code, an empty code, or a state
    that is not the nonce of the session. *)
Definition refused (s : Auth.Session) (params : list (string * string)) : Prop :=
  Auth.searchParams_get params "code" = None
  \/ Auth.searchParams_get params "code" = Some ""
  \/ Auth.searchParams_get params "state" <> Some (Auth.state s).

(** A request that carries the code [code] and the nonce of the session. *)
Definition accepted (s : Auth.Session) (params : list (string * string))
    (code : string) : Prop :=
  Auth.searchParams_get params "code" = Some code
  /\ code <> ""
  /\ Auth.searchParams_get params "state" = Some (Auth.state s).

End Spec.

(** * Notions for the properties of whole runs

    What a run leaves behind and what it sends, and the values that the
    further properties compare the results of the code with. *)

Module Behaviour.

Import Bookmarks Spec.

(** A computation that leaves the observation [obs] of the state as it
    found it, whatever its outcome. *)
Definition preserves {A B} (obs : State -> B) (m : M A) : Prop :=
  forall st, obs (snd (m st)) = obs st.

(** The files and the list of the files written so far. *)
Definition persisted (st : State) : Files * list Path :=
  (files st, wrote (trace st)).

(** The requests sent so far. *)
Definition sent_requests (st : State) : list Request := requests (trace st).

(** A computation that ends by an exception or by [process.exit]. *)
Definition never_returns {A} (m : M A) : Prop :=
  forall st a, fst (m st) <> Return a.

(** A computation whose exit code is 0 or 1, from every state. *)
Definition ends_0_or_1 {A} (m : M A) : Prop :=
  forall st, exit_code (fst (m st)) <= 1.

(** An alert list that kept its members, in place, and may have more at
    its end; a value that is no array is kept as it is. *)
Definition appended (before after : json) : Prop :=
  after = before
  \/ exists items added, before = JArr items /\ after = JArr (items ++ added).

(** The seen-set after the ids of the bookmarks [new] were added in order. *)
Definition mark_seen (seen : list json) (new : list Bookmark) : list json :=
  fold_left (Js.set_add same_value_zero) (List.map (fun b => JStr (id b)) new) seen.


(** The exception of [alerts.push] on a value that is no array. *)
Definition push_failure (alerts : json) : Exn :=
  match alerts with
  | JNull => Engine PropertyOfNull
  | _ => Engine NotAFunction
  end.

(** The alert list after [added] was pushed to it, one by one. *)
Definition alerts_after (alerts : json) (added : list json) : json :=
  match added with
  | [] => alerts
  | _ => JArr (array_or_empty alerts ++ added)
  end.

(** The files after [saveAlerts([])]. *)
Definition cleared (fs : Files) : Files :=
  {| seen_file := seen_file fs;
     alerts_file := Holds (Encodes (JArr []));
     active_projects_file := active_projects_file fs;
     global_env_file := global_env_file fs;
     data_dir_blocked := data_dir_blocked fs;
     read_only := read_only fs |}.

(** The line that the [catch] block of the default mode prints. *)
Definition error_line (w : World) (e : Exn) : string :=
  String Regex.LF "" +:+ "❌ Error: " +:+
  match e with
  | Error message => message
  | Engine f => fault_message w f
  end.

(** The block of [main] under [--show], on its own. *)
Definition show_alerts (w : World) : M unit :=
  do alerts <- loadAlerts;
  do none <- length_is_zero alerts;
  run (if none then console_log "No bookmark alerts."
       else
         run for_of (fun _ line => console_log line) (fst (render w alerts)) tt;
         match snd (render w alerts) with
         | Some e => throw e
         | None => ret tt
         end);
  process_exit 0.

Section Outcomes.

Variable toLowerCase : string -> string.
Variable trim : string -> string.

(** The table that [extractProjectKeywords] returns for a state of the
    project document. *)
Definition project_table (f : file string) : list ProjectKeywords :=
  match f with
  | Holds content =>
      let extracted := extracted_projects toLowerCase trim content in
      if (0 <? length extracted)%nat then extracted else defaults
  | _ => defaults
  end.

(** A bookmark that the loop of the default mode turns into an alert. *)
Definition relevant (projects : list ProjectKeywords) (bm : Bookmark) : bool :=
  (2 <=? score (scoreRelevance toLowerCase (text bm) projects))%nat.

(** One alert for each relevant bookmark of [new], in order; the alert
    number [i] carries the reading number [k + i] of the clock. *)
Definition alerts_for (w : World) (projects : list ProjectKeywords) (k : nat)
    (new : list Bookmark) : list json :=
  imap (fun i bm =>
          alert_of bm (scoreRelevance toLowerCase (text bm) projects) (clock w (k + i)))
    (List.filter (relevant projects) new).

(** The alerts of a run that fetched [bookmarks] over the files [fs]. *)
Definition new_alerts (w : World) (fs : Files) (bookmarks : list Bookmark)
  : list json :=
  alerts_for w (project_table (active_projects_file fs)) 0
    (unseen (loaded_seen fs) bookmarks).

(** The files after such a run stored its results. *)
Definition stored (w : World) (fs : Files) (bookmarks : list Bookmark) : Files :=
  written fs (mark_seen (loaded_seen fs) (unseen (loaded_seen fs) bookmarks))
    (alerts_after (loaded_alerts fs) (new_alerts w fs bookmarks)).

(** The files after such a run stored the seen-set and could not store the
    alerts. *)
Definition seen_stored (fs : Files) (bookmarks : list Bookmark) : Files :=
  seen_written fs (mark_seen (loaded_seen fs) (unseen (loaded_seen fs) bookmarks)).

End Outcomes.

(** A character that group 1 of the pattern of the environment file
    takes: no quote and no line feed. *)
Definition plain_char (c : ascii) : bool :=
  negb (Regex.is_quote c || Ascii.eqb c Regex.LF).


(** What the pattern of the environment file may take between the equals
    sign and the value: nothing, or one quote character. *)
Definition opening (q : string) : Prop :=
  q = "" \/ exists c, Regex.is_quote c = true /\ q = String c "".

(** A text at which a value ends: the end of the file, or a character that
    is a quote or a line feed. *)
Definition value_stops (rest : string) : Prop :=
  rest = "" \/ exists c rest', rest = String c rest' /\ plain_char c = false.

(** A text after KEY= with no value: after the optional quote comes no
    character that a value may have. *)
Definition no_value (tail : string) : Prop :=
  forall q c tail',
    tail = q +:+ String c tail' -> opening q -> plain_char c = false.

(** The characters that RFC 7636 allows in a code verifier. *)
Definition unreserved (c : ascii) : bool :=
  Js.is_upper c || Js.is_lower c || Js.is_digit c
  || Js.array_includes ["-"; "."; "_"; "~"] (String c "").

Definition lower_hex (c : ascii) : bool :=
  Js.is_digit c || ((97 <=? nat_of_ascii c) && (nat_of_ascii c <=? 102))%nat.

(** The last line of an ingest run that stored its results, for the number
    of alerts it added and the number of bookmarks that were new. *)
Definition summary_line (alerts new : nat) : string :=
  if (0 <? alerts)%nat
  then "✅ " +:+ Js.of_nat alerts
       +:+ " relevant bookmark(s) added to alerts. Run --show to view."
  else "✅ " +:+ Js.of_nat new +:+ " bookmarks marked seen, none were relevant.".

(** A line [export NAME=value] with the value in double quotes. *)
Definition export_line (name value : string) : string :=
  "export " +:+ name +:+ "=" +:+ String (ascii_of_nat 34) ""
  +:+ value +:+ String (ascii_of_nat 34) "".

(** *** More concrete runs *)

(** A run with [--show] and [--clear] together. *)
Definition world_show : World := world_show_clear.

(** The default mode with an empty environment. *)
Definition world_no_token : World :=
  {| argv := []; env := fun _ => None;
     user_api := user_api world_ingest; bookmarks_api := bookmarks_api world_ingest;
     clock := clock world_ingest; fault_message := fault_message world_ingest;
     render := render world_ingest |}.

Definition not_found : Response string :=
  {| status := 404; body := "Not Found"; json_body := None |}.

(** The default mode without a user id; the lookup answers 404. *)
Definition world_lookup_fails : World :=
  {| argv := []; env := env world_lookup;
     user_api := fun _ => Some not_found; bookmarks_api := bookmarks_api world_lookup;
     clock := clock world_lookup; fault_message := fault_message world_lookup;
     render := render world_lookup |}.

(** An environment file with the user id inside a longer name, in a
    comment line. *)
Definition env_document : string :=
  String.concat (String Regex.LF "") ["A=1"; "# OLD_X_USER_ID=42 "; "B=2"].

Definition files_env : Files :=
  {| seen_file := Absent; alerts_file := Absent; active_projects_file := Absent;
     global_env_file := Holds env_document;
     data_dir_blocked := false; read_only := fun _ => false |}.


(** Bytes in place of the random ones. *)
Definition sample_bytes (n : nat) : list Z := List.map Z.of_nat (seq 0 n).

End Behaviour.

(** * Properties *)

Import Bookmarks Spec.

(** ** The definitions on examples *)

Example header_lines_ex :
  Regex.header_lines
    (String.concat (String Regex.LF "")
       ["# Projects"; "## alpha"; "text"; "### not this"; "## "; "## beta gamma"])
  = ["## alpha"; "## beta gamma"].
Proof. reflexivity. Qed.

Example lower_words_ex :
  Regex.lower_words "the quick-brown fox_trot jumped over2 lazy dogs."
  = ["quick"; "brown"; "jumped"; "lazy"; "dogs"].
Proof. reflexivity. Qed.

Example match_assignment_ex :
  Regex.match_assignment "X_USER_ID"
    (String.concat (String Regex.LF "") ["A=1"; "export X_USER_ID='42 '"; "B=2"])
  = Some "42 ".
Proof. reflexivity. Qed.

Example sha256_abc :
  Crypto.hex (Crypto.sha256 (Crypto.bytes_of_string "abc"))
  = "ba7816bf8f01cfea414140de5dae2223b00361a396177a9cb410ff61f20015ad".
Proof. vm_compute. reflexivity. Qed.

Example sha256_two_blocks :
  Crypto.hex (Crypto.sha256 (Crypto.bytes_of_string
    "abcdbcdecdefdefgefghfghighijhijkijkljklmklmnlmnomnopnopq"))
  = "248d6a61d20638b8e5c026930c3e6039a33ce45964ff2167f6ecedd419db06c1".
Proof. vm_compute. reflexivity. Qed.

Example base64_foobar :
  Crypto.base64 (Crypto.bytes_of_string "fooba") = "Zm9vYmE=".
Proof. vm_compute. reflexivity. Qed.

Example rfc7636_appendix_b :
  Auth.generateCodeChallenge "dBjftJeZ4CVP-mB92K27uhbUJU1p1r_wW1gFWFOEjXk"
  = "E9Melhoa2OwvFrEMTJguCHaoeK1t8URWbuGJSstw-cM".
Proof. vm_compute. reflexivity. Qed.

Example score_two :
  scoreRelevance Js.ascii_toLowerCase "new Widget and gadget launch"
    [ {| project := "proj"; keywords := ["widget"; "gadget"; "gizmo"] |} ]
  = {| score := 2; reason := "Matches proj: widget, gadget"; rproject := "proj" |}.
Proof. reflexivity. Qed.

Example score_one :
  score (scoreRelevance Js.ascii_toLowerCase "just a widget"
           [ {| project := "proj"; keywords := ["widget"; "gadget"; "gizmo"] |} ]) = 2.
Proof. reflexivity. Qed.

Example extracted_example :
  extracted_projects Js.ascii_toLowerCase Js.ascii_trim repeated_word_document
  = [ {| project := "p";
         keywords := ["alpha"; "beta"; "gamma"; "delta"; "epsilon"; "zeta";
                      "theta"; "iota"; "kappa"] |} ].
Proof. vm_compute. reflexivity. Qed.

(** ** Lists and sets *)

Lemma list_max_ge (l : list nat) x : In x l -> x <= list_max l.
Proof.
  induction l as [|a l IH]; simpl; [tauto|].
  intros [->|H]; [lia|]. specialize (IH H). lia.
Qed.

Lemma find_app_found {A} (f : A -> bool) l1 l2 x :
  List.find f l1 = Some x -> List.find f (l1 ++ l2) = Some x.
Proof. induction l1 as [|a l1 IH]; simpl; [discriminate|]. destruct (f a); auto. Qed.

Lemma find_app_missing {A} (f : A -> bool) l1 l2 :
  List.find f l1 = None -> List.find f (l1 ++ l2) = List.find f l2.
Proof.
  induction l1 as [|a l1 IH]; simpl; [auto|]. destruct (f a); [discriminate|auto].
Qed.

Lemma list_max_below (l : list nat) m :
  (forall x, In x l -> x <= m) -> (forall x, In x l -> x <> m) -> 0 < m ->
  list_max l < m.
Proof.
  induction l as [|a l IH]; simpl; intros H1 H2 H3; [lia|].
  assert (a <= m) by (apply H1; auto).
  assert (a <> m) by (apply H2; auto).
  assert (list_max l < m) by (apply IH; auto).
  lia.
Qed.

Lemma list_max_attained {A} (f : A -> nat) l :
  0 < list_max (List.map f l) ->
  exists p, List.find (fun p => (f p =? list_max (List.map f l))%nat) l = Some p.
Proof.
  intros H.
  destruct (List.find _ l) eqn:E; [eauto|].
  exfalso.
  assert (list_max (List.map f l) < list_max (List.map f l)); [|lia].
  apply list_max_below; auto.
  - intros x Hx. apply list_max_ge, Hx.
  - intros x Hx Heq. apply in_map_iff in Hx. destruct Hx as [y [Hy Hin]].
    pose proof (find_none _ _ E y Hin) as Hn. simpl in Hn.
    apply Nat.eqb_neq in Hn. congruence.
Qed.

Lemma In_firstn {A} (n : nat) (l : list A) x : In x (firstn n l) -> In x l.
Proof.
  intros H. rewrite <- (firstn_skipn n l). apply in_or_app. left. exact H.
Qed.

(** A [Set] whose comparison decides equality. *)
Section SetFacts.

Context {A : Type} (same : A -> A -> bool).
Hypothesis same_spec : forall x y, same x y = true <-> x = y.

Lemma set_has_In s x : Js.set_has same s x = true <-> In x s.
Proof.
  unfold Js.set_has. rewrite existsb_exists. split.
  - intros [y [Hy Hs]]. apply same_spec in Hs. subst. exact Hy.
  - intros H. exists x. split; [exact H|]. apply same_spec. reflexivity.
Qed.

Lemma set_add_In s x y : In y (Js.set_add same s x) <-> In y s \/ y = x.
Proof.
  unfold Js.set_add. destruct (Js.set_has same s x) eqn:E.
  - apply set_has_In in E. split; [auto|]. intros [H| ->]; auto.
  - rewrite in_app_iff. simpl. intuition.
Qed.


Lemma fold_set_add_In l s y :
  In y (fold_left (Js.set_add same) l s) <-> In y s \/ In y l.
Proof.
  revert s. induction l as [|x l IH]; simpl; intros s; [tauto|].
  rewrite IH, set_add_In. intuition.
Qed.




Lemma set_from_In l y : In y (Js.set_from same l) <-> In y l.
Proof. unfold Js.set_from. rewrite fold_set_add_In. simpl. tauto. Qed.




End SetFacts.

Lemma string_eqb_spec' (x y : string) : String.eqb x y = true <-> x = y.
Proof. apply String.eqb_eq. Qed.

(** ** Relevance scoring *)

Section ScoringFacts.

Variable toLowerCase : string -> string.

Lemma match_score_project_score n :
  n <> 0 -> match_score n = project_score n.
Proof.
  intros Hn. unfold match_score, project_score.
  destruct (Nat.leb_spec 3 n); [reflexivity|].
  destruct (Nat.leb_spec 1 n); [reflexivity|lia].
Qed.

Lemma project_score_positive n : n <> 0 -> 0 < project_score n.
Proof.
  intros Hn. unfold project_score.
  destruct (Nat.leb_spec 3 n); [lia|].
  destruct (Nat.leb_spec 1 n); lia.
Qed.

Lemma matched_length text p :
  length (matched_keywords toLowerCase (toLowerCase text) (keywords p))
  = lowered_count toLowerCase text p.
Proof. reflexivity. Qed.

(** The loop keeps the larger of the running best and the score of the project. *)
Lemma score_step_score text best p :
  score (score_step toLowerCase (toLowerCase text) best p)
  = Nat.max (score best) (project_score (lowered_count toLowerCase text p)).
Proof.
  unfold score_step. rewrite matched_length.
  destruct (Nat.eqb_spec (lowered_count toLowerCase text p) 0) as [E|E].
  - rewrite E. change (project_score 0) with 0. rewrite Nat.max_0_r. reflexivity.
  - rewrite (match_score_project_score _ E).
    pose proof (project_score_positive _ E).
    cbv beta iota zeta.
    match goal with |- context [(?a <? ?b)%nat] => destruct (Nat.ltb_spec a b) end;
      cbn [score]; lia.
Qed.

(** The label changes only when the project improves on the running best. *)
Lemma score_step_project text best p :
  rproject (score_step toLowerCase (toLowerCase text) best p)
  = if (score best <? project_score (lowered_count toLowerCase text p))%nat
    then project p else rproject best.
Proof.
  unfold score_step. rewrite matched_length.
  destruct (Nat.eqb_spec (lowered_count toLowerCase text p) 0) as [E|E].
  - rewrite E. reflexivity.
  - rewrite (match_score_project_score _ E). cbv beta iota zeta.
    destruct (_ <? _)%nat; reflexivity.
Qed.

Lemma best_score_snoc count l p :
  best_score count (l ++ [p])
  = Nat.max (best_score count l) (project_score (count p)).
Proof.
  unfold best_score. rewrite List.map_app, list_max_app. simpl. lia.
Qed.

Lemma first_best_snoc count l p :
  first_best count (l ++ [p])
  = if (best_score count l <? project_score (count p))%nat
    then project p else first_best count l.
Proof.
  unfold first_best. rewrite best_score_snoc.
  set (bl := best_score count l). set (sp := project_score (count p)).
  destruct (Nat.ltb_spec bl sp) as [Hlt|Hge].
  - replace (Nat.max bl sp) with sp by lia.
    destruct (Nat.eqb_spec sp 0); [lia|].
    rewrite find_app_missing.
    + simpl. fold sp. rewrite Nat.eqb_refl. reflexivity.
    + destruct (List.find _ l) eqn:E; [|reflexivity]. exfalso.
      apply find_some in E. destruct E as [Hin Heq].
      apply Nat.eqb_eq in Heq.
      pose proof (list_max_ge _ _
                    (in_map (fun q => project_score (count q)) _ _ Hin)) as Hle.
      fold (best_score count l) in Hle. fold bl in Hle. simpl in Hle. lia.
  - replace (Nat.max bl sp) with bl by lia.
    destruct (Nat.eqb_spec bl 0); [reflexivity|].
    destruct (list_max_attained (fun q => project_score (count q)) l) as [q Hq].
    { fold (best_score count l). fold bl. lia. }
    fold (best_score count l) in Hq. fold bl in Hq.
    rewrite Hq. erewrite find_app_found; eauto.
Qed.

(** C1, as amended: for every text and every ordered table, the score
    returned by [scoreRelevance] is the maximum over the projects of 3 (three
    or more matching keywords), 2 (one or two) or 0 (none), where a keyword
    matches when its lowercased form is a substring of the lowercased text,
    and the project returned is the first of the table that reaches this
    maximum, the empty label when the maximum is 0. *)
Theorem C1_scoreRelevance_lowered_keywords :
  forall (text : string) (projects : list ProjectKeywords),
    score (scoreRelevance toLowerCase text projects)
    = best_score (lowered_count toLowerCase text) projects
    /\ rproject (scoreRelevance toLowerCase text projects)
       = first_best (lowered_count toLowerCase text) projects.
Proof.
  intros text projects. unfold scoreRelevance.
  induction projects as [|p l [IHs IHp]] using rev_ind.
  - split; reflexivity.
  - rewrite fold_left_app. simpl. split.
    + rewrite score_step_score, best_score_snoc, IHs. reflexivity.
    + rewrite score_step_project, first_best_snoc, IHs, IHp. reflexivity.
Qed.

(** On a table whose keywords are their own lowercase form, the count of the
    specification is the count of the code. *)
Lemma stated_count_lowercase_table text p :
  Forall (fun kw => toLowerCase kw = kw) (keywords p) ->
  stated_count toLowerCase text p = lowered_count toLowerCase text p.
Proof.
  unfold stated_count, lowered_count. intros H. f_equal.
  induction H as [|kw kws Hkw _ IH]; [reflexivity|].
  simpl. rewrite Hkw, IH. reflexivity.
Qed.

End ScoringFacts.

(** A word of letters a-z is its own lowercase form. *)
Lemma lower_word_fixed (w : string) :
  Regex.all_chars Js.is_lower w = true -> Js.ascii_toLowerCase w = w.
Proof.
  induction w as [|c w IH]; [reflexivity|].
  cbn [Regex.all_chars Js.ascii_toLowerCase]. intros H.
  apply andb_true_iff in H. destruct H as [Hc Hw]. rewrite (IH Hw). f_equal.
  unfold Js.lower_char.
  assert (Hup : Js.is_upper c = false); [|rewrite Hup; reflexivity].
  unfold Js.is_lower in Hc. unfold Js.is_upper.
  apply andb_true_iff in Hc. destruct Hc as [H1 _]. apply Nat.leb_le in H1.
  apply andb_false_iff. right. apply Nat.leb_gt. lia.
Qed.

(** The keywords of the default table are lowercase. *)
Lemma defaults_lowercase :
  Forall (fun p => Forall (fun kw => Js.ascii_toLowerCase kw = kw) (keywords p))
    defaults.
Proof. repeat constructor. Qed.

(** C1, as stated, fails: the keyword Widget is no substring of the
    lowercased text widget, so the stated count gives score 0 and no
    project, while the code lowercases the keyword and returns score 2 for
    project P. *)
Lemma C1_counterexample :
  ~ (forall (text : string) (projects : list ProjectKeywords),
       score (scoreRelevance Js.ascii_toLowerCase text projects)
       = best_score (stated_count Js.ascii_toLowerCase text) projects
       /\ rproject (scoreRelevance Js.ascii_toLowerCase text projects)
          = first_best (stated_count Js.ascii_toLowerCase text) projects).
Proof.
  intros H. destruct (H "widget" capital_table) as [Hs _].
  vm_compute in Hs. discriminate.
Qed.

(** ** Keyword extraction *)

Section KeywordFacts.

Variable toLowerCase : string -> string.
Variable trim : string -> string.

(** The words kept for a section are the first ten eligible occurrences. *)
Lemma section_words_eligible section :
  section_words toLowerCase section = firstn 10 (eligible toLowerCase section).
Proof.
  unfold section_words, eligible, Regex.match_lower_words, Js.array_slice0.
  destruct (Regex.lower_words (toLowerCase section)); reflexivity.
Qed.

Lemma eligible_words section w :
  In w (eligible toLowerCase section) -> eligible_word w = true.
Proof.
  unfold eligible, Regex.lower_words, eligible_word.
  rewrite !filter_In. intros [[_ Hw] Hstop].
  rewrite Hw, Hstop. reflexivity.
Qed.

Lemma section_keywords_In section k :
  In k (section_keywords toLowerCase section)
  <-> In k (firstn 10 (eligible toLowerCase section)).
Proof.
  unfold section_keywords. rewrite section_words_eligible.
  apply set_from_In, string_eqb_spec'.
Qed.



End KeywordFacts.

(** The keywords extracted from a project document are lowercase, so that
    [scoreRelevance] on an extracted table counts the keywords that are
    substrings of the lowercased text. *)
Lemma extracted_lowercase (trim : string -> string) (content : string)
    (pk : ProjectKeywords) :
  In pk (extracted_projects Js.ascii_toLowerCase trim content) ->
  Forall (fun kw => Js.ascii_toLowerCase kw = kw) (keywords pk).
Proof.
  unfold extracted_projects. intros Hpk.
  apply in_map_iff in Hpk. destruct Hpk as [m [<- _]].
  cbn [extract_project keywords]. apply List.Forall_forall. intros kw Hkw.
  apply section_keywords_In, In_firstn, eligible_words in Hkw.
  unfold eligible_word in Hkw.
  apply andb_true_iff in Hkw. destruct Hkw as [Hkw _].
  apply andb_true_iff in Hkw. destruct Hkw as [Hkw _].
  apply lower_word_fixed, Hkw.
Qed.



(** ** The PKCE challenge *)

Section Base64Facts.

Import Crypto.

(** Induction on a list of bytes, three at a time. *)
Lemma list_ind3 {A} (P : list A -> Prop) :
  P [] -> (forall a, P [a]) -> (forall a b, P [a; b]) ->
  (forall a b c l, P l -> P (a :: b :: c :: l)) ->
  forall l, P l.
Proof.
  intros H0 H1 H2 H3.
  assert (H : forall l, P l /\ (forall a, P (a :: l)) /\ (forall a b, P (a :: b :: l))).
  { induction l as [|x l [IH0 [IH1 IH2]]]; [auto|].
    split; [apply IH1|]. split; [intros a; apply IH2|]. intros a b. apply H3, IH0. }
  intros l. apply H.
Qed.

Lemma digit_index_bound (i : Z) : (Z.to_nat (Z.land i 63) < 64)%nat.
Proof.
  change 63%Z with (Z.ones 6). rewrite Z.land_ones by lia.
  pose proof (Z.mod_pos_bound i (2 ^ 6) ltac:(lia)). lia.
Qed.

(** A digit of the URL-safe alphabet is the digit of the standard alphabet
    with [+] and [/] replaced, and no digit is the padding character. *)
Lemma digit_url_safe (i : Z) :
  digit URL_SAFE i = url_safe_char (digit STANDARD i)
  /\ Ascii.eqb (digit STANDARD i) "="%char = false.
Proof.
  unfold digit. pose proof (digit_index_bound i) as Hn.
  set (n := Z.to_nat (Z.land i 63)) in *. clearbody n.
  do 64 (destruct n as [|n]; [split; reflexivity|]).
  lia.
Qed.

Lemma encode_url_safe (bs : list Z) :
  encode URL_SAFE false bs
  = List.map url_safe_char
      (List.filter (fun c => negb (Ascii.eqb c "="%char)) (encode STANDARD true bs)).
Proof.
  induction bs as [|a|a b|a b c l IH] using list_ind3;
    cbn [encode app List.filter List.map];
    repeat match goal with
           | |- context [Ascii.eqb (digit STANDARD ?i) "="%char] =>
               rewrite (proj2 (digit_url_safe i))
           end;
    cbn [negb List.filter List.map Ascii.eqb Bool.eqb];
    rewrite <- ?(fun i => proj1 (digit_url_safe i)), <- ?IH;
    reflexivity.
Qed.

Lemma encode_nopad_length alphabet (bs : list Z) :
  length (encode alphabet false bs) = ((4 * length bs + 2) / 3)%nat.
Proof.
  induction bs as [|a|a b|a b c l IH] using list_ind3; try reflexivity.
  cbn [encode length]. rewrite IH.
  replace (4 * S (S (S (length l))) + 2)%nat with ((4 * length l + 2) + 4 * 3)%nat by lia.
  rewrite Nat.div_add by lia. lia.
Qed.

Lemma sha256_length (msg : list Z) : length (sha256 msg) = 32%nat.
Proof.
  unfold sha256. cbv zeta. rewrite !length_app. unfold be_bytes.
  rewrite !length_map. reflexivity.
Qed.

Lemma string_of_list_ascii_length (l : list ascii) :
  String.length (string_of_list_ascii l) = length l.
Proof. induction l as [|c l IH]; simpl; [reflexivity | rewrite IH; reflexivity]. Qed.

(** The encoding [base64url] of the runtime is the URL-safe base64 of
    RFC 4648 without padding. *)
Lemma base64url_rfc4648 (bs : list Z) : base64url bs = rfc4648_base64url_nopad bs.
Proof. unfold base64url, rfc4648_base64url_nopad. rewrite encode_url_safe. reflexivity. Qed.

End Base64Facts.

(** *** The encoding loses nothing *)

Section DecodeFacts.

Import Crypto.

Lemma octet_listed (b : Z) : (0 <= b < 256)%Z -> In b octets.
Proof.
  intros Hb. unfold octets. apply in_map_iff. exists (Z.to_nat b).
  split; [lia|]. apply in_seq. lia.
Qed.

Lemma for_all_octets (P : Z -> Z -> bool) :
  forallb (fun a => forallb (P a) octets) octets = true ->
  forall a b, (0 <= a < 256)%Z -> (0 <= b < 256)%Z -> P a b = true.
Proof.
  intros H a b Ha Hb.
  pose proof (proj1 (forallb_forall _ _) H a (octet_listed a Ha)) as H1.
  exact (proj1 (forallb_forall _ _) H1 b (octet_listed b Hb)).
Qed.

Lemma index_of_digit (i : Z) : index_in URL_SAFE (digit URL_SAFE i) = Z.land i 63.
Proof.
  unfold digit. pose proof (digit_index_bound i) as Hn.
  assert (Hi : Z.land i 63 = Z.of_nat (Z.to_nat (Z.land i 63))).
  { rewrite Z2Nat.id; [reflexivity|]. apply Z.land_nonneg. right. lia. }
  rewrite Hi at 2.
  set (n := Z.to_nat (Z.land i 63)) in *. clearbody n. clear Hi.
  do 64 (destruct n as [|n]; [reflexivity|]).
  lia.
Qed.

Lemma first_octet (a b : Z) :
  (0 <= a < 256)%Z -> (0 <= b < 256)%Z ->
  octet0 (Z.land (sextet0 a) 63) (Z.land (sextet1 a b) 63) = a.
Proof.
  intros Ha Hb. apply Z.eqb_eq.
  apply (for_all_octets
           (fun a b => octet0 (Z.land (sextet0 a) 63) (Z.land (sextet1 a b) 63) =? a)%Z);
    [vm_compute; reflexivity|exact Ha|exact Hb].
Qed.

Lemma second_octet_high (a b : Z) :
  (0 <= a < 256)%Z -> (0 <= b < 256)%Z ->
  Z.shiftl (Z.land (Z.land (sextet1 a b) 63) 15) 4 = Z.shiftl (Z.shiftr b 4) 4.
Proof.
  intros Ha Hb. apply Z.eqb_eq.
  apply (for_all_octets
           (fun a b => Z.shiftl (Z.land (Z.land (sextet1 a b) 63) 15) 4
                       =? Z.shiftl (Z.shiftr b 4) 4)%Z);
    [vm_compute; reflexivity|exact Ha|exact Hb].
Qed.

Lemma second_octet_low (b c : Z) :
  (0 <= b < 256)%Z -> (0 <= c < 256)%Z ->
  Z.lor (Z.shiftl (Z.shiftr b 4) 4) (Z.shiftr (Z.land (sextet2 b c) 63) 2) = b.
Proof.
  intros Hb Hc. apply Z.eqb_eq.
  apply (for_all_octets
           (fun b c => Z.lor (Z.shiftl (Z.shiftr b 4) 4)
                         (Z.shiftr (Z.land (sextet2 b c) 63) 2) =? b)%Z);
    [vm_compute; reflexivity|exact Hb|exact Hc].
Qed.

Lemma second_octet (a b c : Z) :
  (0 <= a < 256)%Z -> (0 <= b < 256)%Z -> (0 <= c < 256)%Z ->
  octet1 (Z.land (sextet1 a b) 63) (Z.land (sextet2 b c) 63) = b.
Proof.
  intros Ha Hb Hc. unfold octet1.
  rewrite (second_octet_high a b Ha Hb). apply second_octet_low; assumption.
Qed.

Lemma third_octet (b c : Z) :
  (0 <= b < 256)%Z -> (0 <= c < 256)%Z ->
  octet2 (Z.land (sextet2 b c) 63) (Z.land (sextet3 c) 63) = c.
Proof.
  intros Hb Hc. apply Z.eqb_eq.
  apply (for_all_octets
           (fun b c => octet2 (Z.land (sextet2 b c) 63) (Z.land (sextet3 c) 63) =? c)%Z);
    [vm_compute; reflexivity|exact Hb|exact Hc].
Qed.

(** Decoding the digits of a list of bytes gives the bytes back. *)
Lemma decode_encode (bs : list Z) :
  Forall (fun b => (0 <= b < 256)%Z) bs ->
  decode URL_SAFE (encode URL_SAFE false bs) = bs.
Proof.
  assert (H0 : (0 <= 0 < 256)%Z) by lia.
  induction bs as [|a|a b|a b c l IH] using list_ind3; intros Hbs.
  - reflexivity.
  - inversion Hbs as [|? ? Ha _]; subst.
    cbn [encode app decode]. rewrite !index_of_digit, first_octet by assumption.
    reflexivity.
  - inversion Hbs as [|? ? Ha Hl]; subst. inversion Hl as [|? ? Hb _]; subst.
    cbn [encode app decode].
    rewrite !index_of_digit, first_octet, second_octet by assumption.
    reflexivity.
  - inversion Hbs as [|? ? Ha Hl]; subst. inversion Hl as [|? ? Hb Hl']; subst.
    inversion Hl' as [|? ? Hc Hrest]; subst.
    cbn [encode decode].
    rewrite !index_of_digit, first_octet, (second_octet a b c), third_octet, IH
      by assumption.
    reflexivity.
Qed.

Lemma be_bytes_octets n x : Forall (fun b => (0 <= b < 256)%Z) (be_bytes n x).
Proof.
  unfold be_bytes. induction (rev (seq 0 n)) as [|i l IH]; cbn [List.map]; constructor.
  - change 255%Z with (Z.ones 8). rewrite Z.land_ones by lia.
    apply Z.mod_pos_bound. lia.
  - exact IH.
Qed.

Lemma sha256_octets (msg : list Z) : Forall (fun b => (0 <= b < 256)%Z) (sha256 msg).
Proof.
  unfold sha256. cbv zeta.
  repeat (apply Forall_app; split); apply be_bytes_octets.
Qed.

Lemma base64url_sha256_inj (m1 m2 : list Z) :
  base64url (sha256 m1) = base64url (sha256 m2) -> sha256 m1 = sha256 m2.
Proof.
  unfold base64url. intros H.
  apply (f_equal list_ascii_of_string) in H.
  rewrite !list_ascii_of_string_of_list_ascii in H.
  apply (f_equal (decode URL_SAFE)) in H.
  rewrite !decode_encode in H by apply sha256_octets. exact H.
Qed.

Lemma digit_base64url_char (i : Z) : base64url_char (digit URL_SAFE i) = true.
Proof.
  unfold digit. pose proof (digit_index_bound i) as Hn.
  set (n := Z.to_nat (Z.land i 63)) in *. clearbody n.
  do 64 (destruct n as [|n]; [reflexivity|]).
  lia.
Qed.

Lemma encode_base64url_chars (bs : list Z) :
  forallb base64url_char (encode URL_SAFE false bs) = true.
Proof.
  induction bs as [|a|a b|a b c l IH] using list_ind3;
    cbn [encode app forallb]; rewrite ?digit_base64url_char, ?IH; reflexivity.
Qed.

End DecodeFacts.

(** C5: for every verifier, the challenge is the URL-safe base64 encoding
    without padding (RFC 4648, section 5) of the SHA-256 digest of the
    bytes of the verifier: 43 characters, each a letter, a digit, [-] or
    [_].  The challenge is a function of the verifier, and the encoding
    loses nothing of the digest: two verifiers with the same challenge have
    the same digest.  The digest is SHA-256: the hash gives the digests of
    FIPS 180-4 for the empty message, for abc and for the message of two
    blocks, and the challenge of the verifier of RFC 7636, appendix B, is
    the one given there. *)
Theorem C5_challenge_is_base64url_sha256 :
  (forall verifier : string,
      Auth.generateCodeChallenge verifier
      = Crypto.rfc4648_base64url_nopad
          (Crypto.sha256 (Crypto.bytes_of_string verifier))
      /\ String.length (Auth.generateCodeChallenge verifier) = 43
      /\ forallb Crypto.base64url_char
           (list_ascii_of_string (Auth.generateCodeChallenge verifier)) = true)
  /\ (forall v1 v2 : string,
        (v1 = v2 -> Auth.generateCodeChallenge v1 = Auth.generateCodeChallenge v2)
        /\ (Auth.generateCodeChallenge v1 = Auth.generateCodeChallenge v2 ->
            Crypto.sha256 (Crypto.bytes_of_string v1)
            = Crypto.sha256 (Crypto.bytes_of_string v2)))
  /\ Crypto.hex (Crypto.sha256 (Crypto.bytes_of_string ""))
     = "e3b0c44298fc1c149afbf4c8996fb92427ae41e4649b934ca495991b7852b855"
  /\ Crypto.hex (Crypto.sha256 (Crypto.bytes_of_string "abc"))
     = "ba7816bf8f01cfea414140de5dae2223b00361a396177a9cb410ff61f20015ad"
  /\ Crypto.hex (Crypto.sha256 (Crypto.bytes_of_string
       "abcdbcdecdefdefgefghfghighijhijkijkljklmklmnlmnomnopnopq"))
     = "248d6a61d20638b8e5c026930c3e6039a33ce45964ff2167f6ecedd419db06c1"
  /\ Auth.generateCodeChallenge "dBjftJeZ4CVP-mB92K27uhbUJU1p1r_wW1gFWFOEjXk"
     = "E9Melhoa2OwvFrEMTJguCHaoeK1t8URWbuGJSstw-cM".
Proof.
  assert (E : forall verifier,
             Auth.generateCodeChallenge verifier
             = Crypto.base64url (Crypto.sha256 (Crypto.bytes_of_string verifier))).
  { reflexivity. }
  split; [|split].
  - intros verifier. split; [rewrite E; apply base64url_rfc4648|].
    rewrite E. unfold Crypto.base64url. split.
    + rewrite string_of_list_ascii_length, encode_nopad_length, sha256_length.
      reflexivity.
    + rewrite list_ascii_of_string_of_list_ascii. apply encode_base64url_chars.
  - intros v1 v2. split; [intros ->; reflexivity|].
    rewrite !E. apply base64url_sha256_inj.
  - repeat split; vm_compute; reflexivity.
Qed.

(** C5 on two verifiers: the one of RFC 7636, appendix B, and abc; their
    challenges differ, and so do their digests. *)
Lemma C5_challenge_is_base64url_sha256_witness :
  Auth.generateCodeChallenge "dBjftJeZ4CVP-mB92K27uhbUJU1p1r_wW1gFWFOEjXk"
  = Crypto.rfc4648_base64url_nopad
      (Crypto.sha256
         (Crypto.bytes_of_string "dBjftJeZ4CVP-mB92K27uhbUJU1p1r_wW1gFWFOEjXk"))
  /\ Auth.generateCodeChallenge "abc" = "ungWv48Bz-pBQUDeXa4iI7ADYaOWF3qctBD_YfIAFa0"
  /\ (Auth.generateCodeChallenge "abc" = Auth.generateCodeChallenge "abc" ->
      Crypto.sha256 (Crypto.bytes_of_string "abc")
      = Crypto.sha256 (Crypto.bytes_of_string "abc")).
Proof.
  destruct C5_challenge_is_base64url_sha256 as [Hall [Hsame _]].
  split; [apply (Hall "dBjftJeZ4CVP-mB92K27uhbUJU1p1r_wW1gFWFOEjXk")|].
  split; [vm_compute; reflexivity|].
  apply (Hsame "abc" "abc").
Defined.

(** ** The callback of the authorizer *)

Section CallbackFacts.

Import Auth.

Variable s : Session.
Variable w : AuthWorld.

Lemma after_exchange_no_post tokens r : ~ In (PostToken r) (after_exchange w tokens).
Proof.
  unfold after_exchange.
  destruct (error tokens); simpl; [intuition discriminate|].
  destruct (refresh_token tokens) as [rt|]; [destruct (String.eqb rt "")|];
    simpl; intuition discriminate.
Qed.

Lemma handler_refused params :
  refused s params ->
  (exists body, handler s w params = [Respond 400 body])
  /\ forall r, ~ In (PostToken r) (handler s w params).
Proof.
  unfold refused, handler. intros H.
  destruct (searchParams_get params "code") as [code|] eqn:Ecode.
  - destruct (String.eqb_spec code "") as [->|Hne].
    + split; [eauto|]. simpl. intuition discriminate.
    + destruct H as [H|[H|H]]; [discriminate | congruence |].
      rewrite bool_decide_eq_false_2 by exact H. simpl.
      split; [eauto|]. intuition discriminate.
  - split; [eauto|]. simpl. intuition discriminate.
Qed.

Lemma handler_post params r :
  In (PostToken r) (handler s w params) ->
  exists code, accepted s params code /\ r = token_request s code.
Proof.
  unfold accepted, handler.
  destruct (searchParams_get params "code") as [code|] eqn:Ecode;
    [|simpl; intuition discriminate].
  destruct (String.eqb_spec code "") as [->|Hne]; [simpl; intuition discriminate|].
  destruct (bool_decide_reflect (searchParams_get params "state" = Some (state s)))
    as [Hst|Hst]; simpl; [|intuition discriminate].
  intros [H|[H|H]]; [discriminate| |].
  - injection H as <-. exists code. auto.
  - exfalso. destruct (token_api w (token_request s code)) as [[tokens|]|];
      simpl in H; try (intuition discriminate).
    apply (after_exchange_no_post _ _ H).
Qed.

Lemma handler_accepted params code :
  accepted s params code ->
  exists rest,
    handler s w params
    = Respond 200 "<h1>✅ Auth successful! You can close this tab.</h1>"
      :: PostToken (token_request s code) :: rest.
Proof.
  unfold accepted, handler. intros [Hcode [Hne Hst]]. rewrite Hcode.
  destruct (String.eqb_spec code "") as [->|_]; [congruence|].
  rewrite bool_decide_eq_true_2 by exact Hst. simpl. eexists. reflexivity.
Qed.

Lemma serve_post requests r :
  In (PostToken r) (serve s w requests) ->
  exists params code,
    In params requests /\ accepted s params code /\ r = token_request s code.
Proof.
  induction requests as [|params rest IH]; simpl; [tauto|].
  intros H.
  assert (Hor : In (PostToken r) (handler s w params)
                \/ In (PostToken r) (serve s w rest)).
  { destruct (existsb ends_process (handler s w params)); [auto|].
    apply in_app_or, H. }
  destruct Hor as [Hh|Hr].
  - destruct (handler_post _ _ Hh) as [code [Ha Hr]]. exists params, code. auto.
  - destruct (IH Hr) as [p [code [Hin [Ha Hreq]]]]. exists p, code. auto.
Qed.

End CallbackFacts.

(** C2: for every callback request, when the request carries no code (or an
    empty one) or a state other than the nonce of the session, the handler
    answers with status 400 and posts nothing to the token endpoint; and a
    POST to the token endpoint, by the handler or in a whole run of the
    listener, comes from a request that carries a code and exactly the
    nonce, and exchanges this code; such a request is answered with status
    200 and then exchanged. *)
Theorem C2_exchange_only_with_code_and_state :
  forall (s : Auth.Session) (w : Auth.AuthWorld),
    (forall params,
        refused s params ->
        (exists body, Auth.handler s w params = [Auth.Respond 400 body])
        /\ forall r, ~ In (Auth.PostToken r) (Auth.handler s w params))
    /\ (forall params r,
          In (Auth.PostToken r) (Auth.handler s w params) ->
          exists code, accepted s params code /\ r = Auth.token_request s code)
    /\ (forall requests r,
          In (Auth.PostToken r) (Auth.serve s w requests) ->
          exists params code,
            In params requests /\ accepted s params code
            /\ r = Auth.token_request s code)
    /\ (forall params code,
          accepted s params code ->
          exists rest,
            Auth.handler s w params
            = Auth.Respond 200 "<h1>✅ Auth successful! You can close this tab.</h1>"
              :: Auth.PostToken (Auth.token_request s code) :: rest).
Proof.
  intros s w. split; [|split; [|split]].
  - apply handler_refused.
  - apply handler_post.
  - apply serve_post.
  - apply handler_accepted.
Qed.

Example callback_without_code :
  Auth.handler demo_session demo_auth_world [("state", "abc")]
  = [Auth.Respond 400 "No code received"].
Proof. reflexivity. Qed.

Example callback_with_other_state :
  Auth.handler demo_session demo_auth_world [("code", "c1"); ("state", "abd")]
  = [Auth.Respond 400 "State mismatch — possible CSRF"].
Proof. reflexivity. Qed.

Example callback_exchanged :
  Auth.serve demo_session demo_auth_world
    [ [("state", "abc")]; [("code", "c1"); ("state", "abc")]; [("code", "c2")] ]
  = [ Auth.Respond 400 "No code received";
      Auth.Respond 200 "<h1>✅ Auth successful! You can close this tab.</h1>";
      Auth.PostToken (Auth.token_request demo_session "c1");
      Auth.Print ("✅ Success! Add these to ~/.config/env/global.env:"
                  +:+ String Regex.LF "");
      Auth.Print ("export X_OAUTH2_ACCESS_TOKEN=" +:+ String (ascii_of_nat 34) "at"
                  +:+ String (ascii_of_nat 34) "");
      Auth.Print ("export X_OAUTH2_TOKEN_EXPIRY=" +:+ String (ascii_of_nat 34) "7201000"
                  +:+ String (ascii_of_nat 34) "");
      Auth.Print (String Regex.LF ""
                  +:+ "📋 Copy those lines into your env file and you're set.");
      Auth.ServerClose;
      Auth.ProcessExit 0 ].
Proof. vm_compute. reflexivity. Qed.

(** ** The monitor *)

(** Unfolds the operations of the monad. *)
Ltac mred :=
  unfold bind, ret, throw, try_catch, console_log, console_error, emit,
    get_files, put_files, process_exit, when in *.

(** *** The readers and the requests *)

Lemma loadSeen_eval st : loadSeen st = (Return (loaded_seen (files st)), st).
Proof.
  unfold loadSeen, loaded_seen, seen_of, existsSync, readFileSync_json, JSON_parse, read_file.
  destruct st as [[sf af pf gf] tr k].
  destruct sf as [| |[|v]]; reflexivity.
Qed.

Lemma loadAlerts_eval st : loadAlerts st = (Return (loaded_alerts (files st)), st).
Proof.
  unfold loadAlerts, loaded_alerts, alerts_of, existsSync, readFileSync_json, JSON_parse, read_file.
  destruct st as [[sf af pf gf] tr k].
  destruct af as [| |[|v]]; reflexivity.
Qed.

Lemma can_save_flags fs p :
  can_save fs p = true -> data_dir_blocked fs = false /\ read_only fs p = false.
Proof.
  unfold can_save. rewrite andb_true_iff, !negb_true_iff. tauto.
Qed.

Lemma saveSeen_eval seen st :
  saveSeen seen st
  = if data_dir_blocked (files st) then (Throw (Engine DirectoryError), st)
    else if read_only (files st) SEEN_FILE
         then (Throw (Engine (FileError SEEN_FILE)),
               {| files := files st; trace := trace st ++ [MadeDataDir];
                  clock_reads := clock_reads st |})
         else (Return tt,
               {| files := seen_written (files st) seen;
                  trace := trace st ++ [MadeDataDir; WroteFile SEEN_FILE];
                  clock_reads := clock_reads st |}).
Proof.
  destruct st as [[sf af pf gf dd ro] tr ck].
  unfold saveSeen, mkdirSync_data, writeFileSync, JSON_stringify. mred. cbn.
  destruct dd; [reflexivity|]. cbn. destruct (ro SEEN_FILE); [reflexivity|].
  cbn. rewrite <- app_assoc. reflexivity.
Qed.

Lemma saveAlerts_eval alerts st :
  saveAlerts alerts st
  = if data_dir_blocked (files st) then (Throw (Engine DirectoryError), st)
    else if read_only (files st) ALERTS_FILE
         then (Throw (Engine (FileError ALERTS_FILE)),
               {| files := files st; trace := trace st ++ [MadeDataDir];
                  clock_reads := clock_reads st |})
         else (Return tt,
               {| files := {| seen_file := seen_file (files st);
                              alerts_file := Holds (Encodes alerts);
                              active_projects_file := active_projects_file (files st);
                              global_env_file := global_env_file (files st);
                              data_dir_blocked := data_dir_blocked (files st);
                              read_only := read_only (files st) |};
                  trace := trace st ++ [MadeDataDir; WroteFile ALERTS_FILE];
                  clock_reads := clock_reads st |}).
Proof.
  destruct st as [[sf af pf gf dd ro] tr ck].
  unfold saveAlerts, mkdirSync_data, writeFileSync, JSON_stringify. mred. cbn.
  destruct dd; [reflexivity|]. cbn. destruct (ro ALERTS_FILE); [reflexivity|].
  cbn. rewrite <- app_assoc. reflexivity.
Qed.

Lemma fetch_frame {J} (api : Request -> option (Response J)) req st :
  exists o, fetch api req st
       = (o, {| files := files st; trace := trace st ++ [Fetched req];
                clock_reads := clock_reads st |}).
Proof.
  unfold fetch. mred. destruct (api req); eauto.
Qed.

Lemma lookupUserId_frame w token st :
  exists o st', lookupUserId w token st = (o, st')
    /\ extends st st' [Fetched (lookup_request token)]
    /\ (forall u, o = Return u ->
          exists res, user_api w (lookup_request token) = Some res
                      /\ json_body res = Some u).
Proof.
  unfold lookupUserId, fetch, res_json, extends. mred. destruct st as [fs tr k]. cbn.
  destruct (user_api w (lookup_request token)) as [res|]; cbn.
  - destruct (ok res); cbn.
    + destruct (json_body res) as [j|] eqn:E; cbn; do 2 eexists; (split; [reflexivity|]);
        (split; [auto|]); intros u Hu; inversion Hu; subst; eauto.
    + do 2 eexists. split; [reflexivity|]. split; [auto|]. intros u Hu. discriminate.
  - do 2 eexists. split; [reflexivity|]. split; [auto|]. intros u Hu. discriminate.
Qed.

Lemma fetchBookmarks_eval w token userId st :
  fetchBookmarks w token userId st
  = (match bookmarks_api w (bookmarks_request token userId) with
     | None => Throw (Engine NetworkError)
     | Some res =>
         if ok res
         then match json_body res with
              | Some data => Return (default [] data)
              | None => Throw (Engine JsonSyntaxError)
              end
         else Throw (Error (listing_failure res))
     end,
     {| files := files st;
        trace := trace st ++ [Fetched (bookmarks_request token userId)];
        clock_reads := clock_reads st |}).
Proof.
  unfold fetchBookmarks, fetch, res_json. mred. cbn.
  destruct (bookmarks_api w (bookmarks_request token userId)) as [res|]; cbn; [|reflexivity].
  destruct (ok res); cbn.
  - destruct (json_body res) as [[items|]|]; reflexivity.
  - unfold listing_failure. destruct (Nat.eqb_spec (status res) 401) as [E|E]; [|reflexivity].
    rewrite E. reflexivity.
Qed.

(** *** Sets of JSON values *)

Lemma same_value_zero_sound x y : same_value_zero x y = true -> x = y.
Proof.
  destruct x, y; simpl; try discriminate; intros H.
  - reflexivity.
  - apply Bool.eqb_prop in H. congruence.
  - apply Z.eqb_eq in H. congruence.
  - apply String.eqb_eq in H. congruence.
Qed.

Lemma same_value_zero_str x : same_value_zero (JStr x) (JStr x) = true.
Proof. simpl. apply String.eqb_refl. Qed.

Lemma json_set_has_str s x :
  Js.set_has same_value_zero s (JStr x) = true <-> In (JStr x) s.
Proof.
  unfold Js.set_has. rewrite existsb_exists. split.
  - intros [y [Hy Hs]]. apply same_value_zero_sound in Hs. subst. exact Hy.
  - intros H. exists (JStr x). split; [exact H|apply same_value_zero_str].
Qed.

Lemma json_set_add_In s x y :
  In y (Js.set_add same_value_zero s x) <-> In y s \/ y = x.
Proof.
  unfold Js.set_add. destruct (Js.set_has same_value_zero s x) eqn:E.
  - split; [auto|]. intros [H| ->]; [exact H|].
    unfold Js.set_has in E. apply existsb_exists in E. destruct E as [z [Hz Hs]].
    apply same_value_zero_sound in Hs. subst. exact Hz.
  - rewrite in_app_iff. simpl. intuition.
Qed.

Lemma json_fold_set_add_In l s y :
  In y (fold_left (Js.set_add same_value_zero) l s) <-> In y s \/ In y l.
Proof.
  revert s. induction l as [|x l IH]; simpl; intros s; [tauto|].
  rewrite IH, json_set_add_In. intuition.
Qed.

Lemma json_set_from_In l y : In y (Js.set_from same_value_zero l) <-> In y l.
Proof. unfold Js.set_from. rewrite json_fold_set_add_In. simpl. tauto. Qed.

Lemma elem_of_seen_ids s x : x ∈ seen_ids s <-> In (JStr x) s.
Proof.
  unfold seen_ids. rewrite elem_of_list_to_set, list_elem_of_In, in_flat_map.
  split.
  - intros [v [Hv Hx]]. destruct v; simpl in Hx; try tauto.
    destruct Hx as [->|[]]. exact Hv.
  - intros H. exists (JStr x). split; [exact H|left; reflexivity].
Qed.

(** *** Traces *)

Lemma quiet_scored ev : Forall quiet ev -> scored ev = [] /\ wrote ev = [].
Proof.
  induction 1 as [|e ev He _ [IH1 IH2]]; [auto|].
  unfold scored, wrote in *. cbn [flat_map]. rewrite IH1, IH2.
  destruct e; simpl in He; try tauto; auto.
Qed.

Lemma scored_app a b : scored (a ++ b) = scored a ++ scored b.
Proof. unfold scored. apply flat_map_app. Qed.

Lemma wrote_app a b : wrote (a ++ b) = wrote a ++ wrote b.
Proof. unfold wrote. apply flat_map_app. Qed.

Lemma scored_map_Scored bms : scored (List.map Scored bms) = bms.
Proof. induction bms as [|b l IH]; [reflexivity|]. cbn. f_equal. exact IH. Qed.

Lemma wrote_map_Scored bms : wrote (List.map Scored bms) = [].
Proof. induction bms as [|b l IH]; [reflexivity|]. cbn. exact IH. Qed.

Lemma filter_complement_length {A} (f : A -> bool) l :
  length (List.filter (fun x => negb (f x)) l)
  = length l - length (List.filter f l).
Proof.
  induction l as [|a l IH]; [reflexivity|].
  cbn [List.filter]. pose proof (filter_length_le f l).
  destruct (f a); cbn [negb length]; lia.
Qed.

Lemma unseen_nil_all_seen seen bookmarks :
  unseen seen bookmarks = [] <-> forall b, In b bookmarks -> seen_has seen b = true.
Proof.
  unfold unseen. split.
  - intros H b Hb. destruct (seen_has seen b) eqn:E; [reflexivity|].
    assert (Hin : In b (List.filter (fun b => negb (seen_has seen b)) bookmarks)).
    { apply filter_In. rewrite E. auto. }
    rewrite H in Hin. destruct Hin.
  - intros H. induction bookmarks as [|b l IH]; [reflexivity|].
    cbn [List.filter]. rewrite (H b (or_introl eq_refl)). cbn.
    apply IH. intros c Hc. apply H. right. exact Hc.
Qed.

(** The ids after the new bookmarks were added are the prior ids and all
    fetched ids. *)
Lemma seen_ids_after seen bookmarks :
  seen_ids (Js.set_from same_value_zero
              (fold_left (Js.set_add same_value_zero)
                 (List.map (fun b => JStr (id b)) (unseen seen bookmarks)) seen))
  = seen_ids seen ∪ fetched_ids bookmarks.
Proof.
  apply set_eq. intros x.
  rewrite elem_of_union, !elem_of_seen_ids, json_set_from_In, json_fold_set_add_In.
  unfold fetched_ids. rewrite elem_of_list_to_set, list_elem_of_In, !in_map_iff.
  split.
  - intros [H|[b [Hb Hin]]]; [auto|]. right. exists b.
    injection Hb as Hb. split; [exact Hb|]. apply filter_In in Hin. tauto.
  - intros [H|[b [Hb Hin]]]; [auto|]. subst x.
    destruct (seen_has seen b) eqn:E.
    + left. apply json_set_has_str. exact E.
    + right. exists b. split; [reflexivity|]. apply filter_In. rewrite E. auto.
Qed.

Lemma seen_ids_all_seen seen bookmarks :
  (forall b, In b bookmarks -> seen_has seen b = true) ->
  seen_ids seen = seen_ids seen ∪ fetched_ids bookmarks.
Proof.
  intros H. apply set_eq. intros x. rewrite elem_of_union, !elem_of_seen_ids.
  unfold fetched_ids. rewrite elem_of_list_to_set, list_elem_of_In, in_map_iff.
  split; [auto|]. intros [Hx|[b [<- Hb]]]; [exact Hx|].
  apply json_set_has_str, H, Hb.
Qed.

Lemma scored_store_trace tr l new line :
  scored (tr ++ Log l :: List.map Scored new
          ++ [MadeDataDir; WroteFile SEEN_FILE; MadeDataDir;
              WroteFile ALERTS_FILE; Log line])
  = scored tr ++ new.
Proof.
  change (Log l :: ?a ++ ?b) with ([Log l] ++ a ++ b).
  rewrite !scored_app, scored_map_Scored. cbn. rewrite app_nil_r. reflexivity.
Qed.

(** *** Computations only append to the trace *)

Lemma grows_ret {A} (a : A) : grows (ret a).
Proof. intros st. exists []. cbn. rewrite app_nil_r. reflexivity. Qed.

Lemma grows_throw {A} e : grows (@throw A e).
Proof. intros st. exists []. cbn. rewrite app_nil_r. reflexivity. Qed.

Lemma grows_exit {A} c : grows (@process_exit A c).
Proof. intros st. exists []. cbn. rewrite app_nil_r. reflexivity. Qed.

Lemma grows_emit e : grows (emit e).
Proof. intros st. exists [e]. reflexivity. Qed.

Lemma grows_get_files : grows get_files.
Proof. intros st. exists []. cbn. rewrite app_nil_r. reflexivity. Qed.

Lemma grows_put_files fs : grows (put_files fs).
Proof. intros st. exists []. cbn. rewrite app_nil_r. reflexivity. Qed.

Lemma grows_clock w : grows (toISOString_now w).
Proof. intros st. exists []. cbn. rewrite app_nil_r. reflexivity. Qed.

Lemma grows_bind {A B} (m : M A) (k : A -> M B) :
  grows m -> (forall a, grows (k a)) -> grows (bind m k).
Proof.
  intros Hm Hk st. unfold bind. destruct (Hm st) as [ev Hev].
  destruct (m st) as [[a|e|c] st']; cbn in Hev.
  - destruct (Hk a st') as [ev' Hev']. exists (ev ++ ev').
    rewrite Hev', Hev, app_assoc. reflexivity.
  - exists ev. exact Hev.
  - exists ev. exact Hev.
Qed.

Lemma grows_try_catch {A} (m : M A) (h : Exn -> M A) :
  grows m -> (forall e, grows (h e)) -> grows (try_catch m h).
Proof.
  intros Hm Hh st. unfold try_catch. destruct (Hm st) as [ev Hev].
  destruct (m st) as [[a|e|c] st']; cbn in Hev.
  - exists ev. exact Hev.
  - destruct (Hh e st') as [ev' Hev']. exists (ev ++ ev').
    rewrite Hev', Hev, app_assoc. reflexivity.
  - exists ev. exact Hev.
Qed.

Lemma grows_for_of {A S} (f : S -> A -> M S) xs :
  (forall acc x, grows (f acc x)) -> forall acc, grows (for_of f xs acc).
Proof.
  intros Hf. induction xs as [|x xs IH]; intros acc; cbn [for_of].
  - apply grows_ret.
  - apply grows_bind; [apply Hf | intros a; apply IH].
Qed.

Ltac grows_step :=
  first
    [ apply grows_ret | apply grows_throw | apply grows_exit | apply grows_emit
    | apply grows_get_files | apply grows_put_files | apply grows_clock
    | apply grows_bind; [|intros ?]
    | apply grows_try_catch; [|intros ?]
    | apply grows_for_of; intros ? ?
    | match goal with
      | |- grows (match ?x with _ => _ end) => destruct x
      | |- grows (if ?c then _ else _) => destruct c
      end ].

Lemma grows_report_error w e : grows (report_error w e).
Proof. unfold report_error, console_error. repeat grows_step. Qed.

Lemma grows_fetchBookmarks w token u : grows (fetchBookmarks w token u).
Proof. intros st. rewrite fetchBookmarks_eval. eexists. reflexivity. Qed.

Lemma requests_app a b : requests (a ++ b) = requests a ++ requests b.
Proof. unfold requests. apply flat_map_app. Qed.

Lemma try_catch_bind_bind {A B C} (m : M A) (k1 : A -> M B) (k2 : B -> M C) h st o st' :
  m st = (o, st') ->
  try_catch (bind (bind m k1) k2) h st
  = match o with
    | Return a => try_catch (bind (k1 a) k2) h st'
    | Throw e => h e st'
    | Exit c => (Exit c, st')
    end.
Proof. intros H. unfold try_catch, bind. rewrite H. destruct o; reflexivity. Qed.

Section MonitorFacts.

Variable toLowerCase : string -> string.
Variable trim : string -> string.

(** *** The phases of an ingest run *)

Lemma extractProjectKeywords_eval st :
  exists projects, extractProjectKeywords toLowerCase trim st = (Return projects, st).
Proof.
  unfold extractProjectKeywords, existsSync, readFileSync_text, read_file.
  destruct st as [[sf af pf gf] tr k].
  mred. destruct pf as [| |content]; cbn; eauto.
Qed.

Lemma env_file_value_eval key st :
  exists v, env_file_value trim key st = (Return v, st).
Proof.
  unfold env_file_value, readFileSync_text, read_file.
  destruct st as [[sf af pf gf] tr k].
  mred. destruct gf as [| |content]; cbn; eauto.
  destruct (Regex.match_assignment key content); cbn; eauto.
Qed.

Lemma getOAuth2Token_eval w st :
  exists v, getOAuth2Token trim w st = (Return v, st).
Proof.
  unfold getOAuth2Token. destruct (negb _); [eexists; reflexivity|].
  apply env_file_value_eval.
Qed.

Lemma getUserId_eval w st :
  exists v, getUserId trim w st = (Return v, st).
Proof.
  unfold getUserId. destruct (negb _); [eexists; reflexivity|].
  apply env_file_value_eval.
Qed.

Lemma resolveUserId_unresolved w token st uid0 :
  fst (getUserId trim w st) = Return uid0 -> falsy uid0 = true ->
  exists o st' ev,
    resolveUserId trim w token st = (o, st')
    /\ extends st st' (Log "Looking up user ID for @frankdegods..."
                       :: Fetched (lookup_request token) :: ev)
    /\ Forall quiet ev /\ requests ev = []
    /\ (forall u, o = Return u ->
          exists res, user_api w (lookup_request token) = Some res
                      /\ json_body res = Some u).
Proof.
  intros Hget Hfalsy. unfold resolveUserId.
  destruct (getUserId_eval w st) as [v Hv]. rewrite Hv in Hget. cbn in Hget.
  injection Hget as ->.
  unfold bind at 1. rewrite Hv, Hfalsy.
  unfold bind at 1. unfold console_log at 1, emit at 1.
  set (st0 := {| files := files st; trace := trace st ++ [Log _]; clock_reads := _ |}).
  destruct (lookupUserId_frame w token st0) as [o [st' [Hl [Hext Hres]]]].
  unfold bind at 1. rewrite Hl.
  destruct Hext as [Hf [Hc Ht]]. subst st0. cbn in Hf, Hc, Ht.
  destruct o as [u|e|c].
  - mred. cbn. do 3 eexists. split; [reflexivity|]. unfold extends. cbn.
    rewrite Hf, Hc, Ht. rewrite <- !app_assoc. cbn.
    split; [repeat split; reflexivity|]. split; [repeat constructor|].
    split; [reflexivity|]. exact Hres.
  - exists (Throw e), st', []. split; [reflexivity|]. unfold extends.
    rewrite Hf, Hc, Ht, <- app_assoc. cbn.
    split; [auto|]. split; [constructor|]. split; [reflexivity|]. intros u Hu; discriminate.
  - exists (Exit c), st', []. split; [reflexivity|]. unfold extends.
    rewrite Hf, Hc, Ht, <- app_assoc. cbn.
    split; [auto|]. split; [constructor|]. split; [reflexivity|]. intros u Hu; discriminate.
Qed.

Lemma resolveUserId_frame w token st :
  exists o st' ev,
    resolveUserId trim w token st = (o, st') /\ extends st st' ev /\ Forall quiet ev.
Proof.
  destruct (getUserId_eval w st) as [v Hv].
  destruct (falsy v) eqn:Hf.
  - destruct (resolveUserId_unresolved w token st v) as [o [st' [ev [H [He [Hq _]]]]]];
      [rewrite Hv; reflexivity | exact Hf |].
    do 3 eexists. split; [exact H|]. split; [exact He|].
    repeat constructor. exact Hq.
  - unfold resolveUserId. unfold bind. rewrite Hv, Hf.
    exists (Return (default "" v)), st, []. unfold extends. rewrite app_nil_r.
    repeat split; auto.
Qed.

Lemma fetch_phase_frame w token st :
  exists o st' ev,
    fetch_phase trim w token st = (o, st') /\ extends st st' ev /\ Forall quiet ev.
Proof.
  unfold fetch_phase.
  destruct (resolveUserId_frame w token st) as [o [st' [ev [H [[Hf [Hc Ht]] Hq]]]]].
  unfold bind at 1. rewrite H.
  destruct o as [u|e|c]; [|do 3 eexists; repeat split; eauto..].
  unfold bind at 1. unfold console_log at 1, emit at 1.
  unfold bind at 1. rewrite fetchBookmarks_eval. cbn [files trace clock_reads].
  set (o := match bookmarks_api w _ with None => _ | Some _ => _ end). clearbody o.
  destruct o as [bs|e|c]; mred; cbn; do 3 eexists;
    (split; [reflexivity|]); unfold extends; cbn; rewrite Hf, Hc, Ht;
    (split; [repeat split; rewrite <- !app_assoc; reflexivity|]);
    rewrite List.Forall_app; (split; [exact Hq|]); repeat constructor.
Qed.

Lemma main_fetched w fs bookmarks st1 :
  fetched trim w fs bookmarks st1 ->
  main toLowerCase trim w (initial fs)
  = try_catch (store_phase toLowerCase trim w bookmarks)
      (report_error w) st1.
Proof.
  intros [token [[Hshow [Hclear [Htok Hne]]] Hfetch]].
  unfold main. rewrite Hshow, Hclear.
  destruct (getOAuth2Token_eval w (initial fs)) as [v Hv].
  rewrite Hv in Htok. cbn in Htok. injection Htok as ->.
  assert (Hfalsy : falsy (Some token) = false).
  { cbn. destruct (String.eqb_spec token ""); congruence. }
  unfold when. unfold bind at 1. unfold ret at 1.
  unfold bind at 1. unfold ret at 1.
  unfold bind at 1. rewrite Hv.
  unfold bind at 1. rewrite Hfalsy. unfold ret at 1.
  change (default "" (Some token)) with token.
  unfold ingest, try_catch. unfold bind at 1. rewrite Hfetch.
  reflexivity.
Qed.

(** *** The loop over the new bookmarks *)

Lemma ingest_loop_array w projects new :
  forall acc st items,
    loop_alerts acc = JArr items ->
    exists final k added,
      for_of (ingest_step toLowerCase w projects) new acc st
      = (Return final, step_state st new k)
      /\ loop_seen final
         = fold_left (Js.set_add same_value_zero)
             (List.map (fun b => JStr (id b)) new) (loop_seen acc)
      /\ loop_alerts final = JArr (items ++ added).
Proof.
  induction new as [|bm rest IH]; intros acc st items Halerts.
  - exists acc, (clock_reads st), []. cbn. unfold ret, step_state. cbn.
    rewrite !app_nil_r. destruct st; auto.
  - cbn [for_of]. unfold bind at 1. unfold ingest_step at 1.
    unfold bind at 1. unfold emit at 1.
    destruct (2 <=? score (scoreRelevance toLowerCase (text bm) projects))%nat.
    + unfold bind at 1. rewrite Halerts. unfold read_property at 1, ret at 1.
      unfold bind at 1. unfold toISOString_now at 1.
      unfold bind at 1. unfold push at 1, ret at 1. unfold ret at 1.
      lazymatch goal with
      | |- context [for_of _ rest ?a ?s] =>
          edestruct (IH a s) as [final [k [added [Hrun [Hseen Hal]]]]]; [reflexivity|]
      end.
      rewrite Hrun. cbn in Hseen, Hal. 
      exists final, k. eexists. split; [|split].
      * unfold step_state. cbn. rewrite <- app_assoc. reflexivity.
      * exact Hseen.
      * rewrite Hal, <- app_assoc. reflexivity.
    + unfold ret at 1.
      lazymatch goal with
      | |- context [for_of _ rest ?a ?s] =>
          edestruct (IH a s items) as [final [k [added [Hrun [Hseen Hal]]]]];
            [exact Halerts|]
      end.
      rewrite Hrun. cbn in Hseen, Hal.
      exists final, k, added. split; [|split].
      * unfold step_state. cbn. rewrite <- app_assoc. reflexivity.
      * exact Hseen.
      * exact Hal.
Qed.

Lemma store_with_nothing_new w bookmarks seen st :
  unseen seen bookmarks = [] ->
  store_with toLowerCase trim w bookmarks seen st
  = (Exit 0,
     {| files := files st;
        trace := trace st ++ [Log "0 new (unseen) bookmarks."; Log "Nothing new."];
        clock_reads := clock_reads st |}).
Proof.
  unfold unseen. intros H. unfold store_with. rewrite H.
  mred. cbn. rewrite <- app_assoc. reflexivity.
Qed.

Lemma store_with_array w bookmarks seen st :
  unseen seen bookmarks <> [] ->
  is_array (loaded_alerts (files st)) ->
  can_save (files st) SEEN_FILE = true ->
  can_save (files st) ALERTS_FILE = true ->
  exists k added line,
    store_with toLowerCase trim w bookmarks seen st
    = (Return tt,
       {| files :=
            written (files st)
              (fold_left (Js.set_add same_value_zero)
                 (List.map (fun b => JStr (id b)) (unseen seen bookmarks)) seen)
              (JArr (array_or_empty (loaded_alerts (files st)) ++ added));
          trace :=
            trace st
            ++ Log (Js.of_nat (length (unseen seen bookmarks))
                    +:+ " new (unseen) bookmarks.")
               :: List.map Scored (unseen seen bookmarks)
            ++ [MadeDataDir; WroteFile SEEN_FILE; MadeDataDir;
                WroteFile ALERTS_FILE; Log line];
          clock_reads := k |}).
Proof.
  intros Hnew [items Hitems] Hseen_ok Halerts_ok.
  destruct (can_save_flags _ _ Hseen_ok) as [Hdir Hro_seen].
  destruct (can_save_flags _ _ Halerts_ok) as [_ Hro_alerts].
  unfold store_with. fold (unseen seen bookmarks).
  set (new := unseen seen bookmarks) in *.
  assert (Hlen : (length new =? 0)%nat = false).
  { destruct new; [congruence|reflexivity]. }
  unfold bind at 1. unfold console_log at 1, emit at 1.
  unfold bind at 1. rewrite Hlen. unfold when, ret at 1.
  unfold bind at 1.
  lazymatch goal with
  | |- context [extractProjectKeywords _ _ ?s] =>
      destruct (extractProjectKeywords_eval s) as [projects Hp]; rewrite Hp
  end.
  unfold bind at 1. rewrite loadAlerts_eval. cbn [files].
  unfold bind at 1.
  lazymatch goal with
  | |- context [for_of _ new ?a ?s] =>
      destruct (ingest_loop_array w projects new a s items Hitems)
        as [final [k [added [Hrun [Hseen Hal]]]]]; rewrite Hrun
  end.
  cbn [loop_seen] in Hseen.
  exists k, added. eexists.
  unfold saveSeen, saveAlerts, mkdirSync_data, writeFileSync, JSON_stringify.
  mred. unfold step_state, written.
  do 4 (cbn [files data_dir_blocked read_only];
        rewrite ?Hdir, ?Hro_seen, ?Hro_alerts).
  cbn. rewrite Hseen, Hal, Hitems. cbn [array_or_empty].
  unfold written, step_state. cbn.
  rewrite <- !app_assoc. cbn. reflexivity.
Qed.

Lemma fetched_state w fs bookmarks st1 :
  fetched trim w fs bookmarks st1 ->
  files st1 = fs /\ scored (trace st1) = [] /\ wrote (trace st1) = [].
Proof.
  intros [token [_ Hfetch]].
  destruct (fetch_phase_frame w token (initial fs)) as [o [st' [ev [H [[Hf [_ Ht]] Hq]]]]].
  rewrite H in Hfetch. injection Hfetch as -> ->.
  cbn in Hf, Ht. rewrite Ht. split; [exact Hf|]. apply quiet_scored, Hq.
Qed.

Lemma main_store w fs bookmarks st1 :
  fetched trim w fs bookmarks st1 ->
  main toLowerCase trim w (initial fs)
  = try_catch (store_with toLowerCase trim w bookmarks (loaded_seen fs))
      (report_error w) st1.
Proof.
  intros H. rewrite (main_fetched _ _ _ _ H).
  destruct (fetched_state _ _ _ _ H) as [Hf _].
  unfold try_catch, store_phase. unfold bind at 1.
  rewrite loadSeen_eval, Hf. reflexivity.
Qed.

(** The two ends of an ingest run whose alert list is an array and whose
    seen-file and alert file can be stored: nothing new
    and exit 0 with the state after the fetch and two console lines, or the
    loop over the unseen bookmarks and both files written. *)
Lemma main_cases w fs bookmarks st1 :
  fetched trim w fs bookmarks st1 ->
  is_array (loaded_alerts fs) ->
  can_save fs SEEN_FILE = true ->
  can_save fs ALERTS_FILE = true ->
  (unseen (loaded_seen fs) bookmarks = []
   /\ main toLowerCase trim w (initial fs)
      = (Exit 0,
         {| files := fs;
            trace := trace st1
                     ++ [Log "0 new (unseen) bookmarks."; Log "Nothing new."];
            clock_reads := clock_reads st1 |}))
  \/ (unseen (loaded_seen fs) bookmarks <> []
      /\ exists k added line,
           main toLowerCase trim w (initial fs)
           = (Return tt,
              {| files :=
                   written fs
                     (fold_left (Js.set_add same_value_zero)
                        (List.map (fun b => JStr (id b))
                           (unseen (loaded_seen fs) bookmarks))
                        (loaded_seen fs))
                     (JArr (array_or_empty (loaded_alerts fs) ++ added));
                 trace :=
                   trace st1
                   ++ Log (Js.of_nat (length (unseen (loaded_seen fs) bookmarks))
                           +:+ " new (unseen) bookmarks.")
                      :: List.map Scored (unseen (loaded_seen fs) bookmarks)
                   ++ [MadeDataDir; WroteFile SEEN_FILE; MadeDataDir;
                       WroteFile ALERTS_FILE; Log line];
                 clock_reads := k |})).
Proof.
  intros Hfetched Harr Hseen_ok Halerts_ok.
  rewrite (main_store _ _ _ _ Hfetched).
  destruct (fetched_state _ _ _ _ Hfetched) as [Hf _].
  assert (Hcase : unseen (loaded_seen fs) bookmarks = []
                  \/ unseen (loaded_seen fs) bookmarks <> []).
  { destruct (unseen (loaded_seen fs) bookmarks);
      [left; reflexivity | right; discriminate]. }
  destruct Hcase as [Hnew|Hnew]; [left|right]; (split; [exact Hnew|]).
  - unfold try_catch. rewrite store_with_nothing_new by exact Hnew.
    rewrite Hf. reflexivity.
  - destruct (store_with_array w bookmarks (loaded_seen fs) st1 Hnew)
      as [k [added [line Hrun]]]; rewrite ?Hf; try assumption.
    exists k, added, line. unfold try_catch. rewrite Hrun, Hf. reflexivity.
Qed.

(** C10: for every ingest run in which every fetched bookmark has its id in
    the loaded seen-set, the run exits with code 0, the files are exactly
    as they were, no file is written and no bookmark is scored. *)
Theorem C10_nothing_new :
  forall (w : World) (fs : Files) (bookmarks : list Bookmark) (st1 : State),
    fetched trim w fs bookmarks st1 ->
    (forall b, In b bookmarks -> already_seen fs b = true) ->
    fst (main toLowerCase trim w (initial fs)) = Exit 0
    /\ files (snd (main toLowerCase trim w (initial fs))) = fs
    /\ wrote (trace (snd (main toLowerCase trim w (initial fs)))) = []
    /\ scored (trace (snd (main toLowerCase trim w (initial fs)))) = [].
Proof.
  intros w fs bookmarks st1 Hfetched Hall.
  rewrite (main_store _ _ _ _ Hfetched).
  destruct (fetched_state _ _ _ _ Hfetched) as [Hf [Hs Hw]].
  unfold try_catch. rewrite store_with_nothing_new.
  - cbn [fst snd files trace]. rewrite scored_app, wrote_app, Hs, Hw. auto.
  - apply unseen_nil_all_seen. exact Hall.
Qed.

Lemma main_clear w fs :
  Js.array_includes (argv w) "--clear" = true ->
  Js.array_includes (argv w) "--show" = false ->
  can_save fs ALERTS_FILE = true ->
  main toLowerCase trim w (initial fs)
  = (Exit 0,
     {| files := {| seen_file := seen_file fs;
                    alerts_file := Holds (Encodes (JArr []));
                    active_projects_file := active_projects_file fs;
                    global_env_file := global_env_file fs;
                    data_dir_blocked := data_dir_blocked fs;
                    read_only := read_only fs |};
        trace := [MadeDataDir; WroteFile ALERTS_FILE; Log "Bookmark alerts cleared."];
        clock_reads := 0 |}).
Proof.
  intros Hclear Hshow Hok. destruct (can_save_flags _ _ Hok) as [Hdir Hro].
  unfold main. rewrite Hclear, Hshow.
  unfold saveAlerts, mkdirSync_data, writeFileSync, JSON_stringify.
  destruct fs as [sf af pf gf dd ro]. cbn in Hdir, Hro. subst dd.
  mred. cbn. rewrite Hro. reflexivity.
Qed.

(** A run with [--clear] that cannot store the alert file ends with the
    uncaught exception of [saveAlerts]: the files are as they were. *)
Lemma main_clear_refused w fs :
  Js.array_includes (argv w) "--clear" = true ->
  Js.array_includes (argv w) "--show" = false ->
  can_save fs ALERTS_FILE = false ->
  exists e st',
    main toLowerCase trim w (initial fs) = (Throw e, st')
    /\ files st' = fs /\ wrote (trace st') = [] /\ requests (trace st') = [].
Proof.
  intros Hclear Hshow Hno. unfold main. rewrite Hclear, Hshow.
  unfold saveAlerts, mkdirSync_data, writeFileSync, JSON_stringify.
  unfold can_save in Hno. mred. cbn.
  destruct (data_dir_blocked fs); [do 2 eexists; split; [reflexivity|auto]|].
  cbn in Hno. rewrite negb_false_iff in Hno. cbn. rewrite Hno.
  do 2 eexists. split; [reflexivity|auto].
Qed.

(** C8, as amended: for every state of the files in which the alert file
    can be stored, a run with [--clear] and without [--show] (which is
    served first) exits with code 0, leaves the alert list empty and the
    seen-file as it was, and writes the alert file only. *)
Theorem C8_clear :
  forall (w : World) (fs : Files),
    Js.array_includes (argv w) "--clear" = true ->
    Js.array_includes (argv w) "--show" = false ->
    can_save fs ALERTS_FILE = true ->
    fst (main toLowerCase trim w (initial fs)) = Exit 0
    /\ loaded_alerts (files (snd (main toLowerCase trim w (initial fs)))) = JArr []
    /\ seen_file (files (snd (main toLowerCase trim w (initial fs)))) = seen_file fs
    /\ wrote (trace (snd (main toLowerCase trim w (initial fs)))) = [ALERTS_FILE].
Proof.
  intros w fs Hclear Hshow Hok. rewrite (main_clear _ _ Hclear Hshow Hok). auto.
Qed.

Lemma main_ingest w fs token :
  ingest_mode trim w fs token ->
  main toLowerCase trim w (initial fs)
  = try_catch (ingest toLowerCase trim w token) (report_error w) (initial fs).
Proof.
  intros [Hshow [Hclear [Htok Hne]]].
  unfold main. rewrite Hshow, Hclear.
  destruct (getOAuth2Token_eval w (initial fs)) as [v Hv].
  rewrite Hv in Htok. cbn in Htok. injection Htok as ->.
  assert (Hfalsy : falsy (Some token) = false).
  { cbn. destruct (String.eqb_spec token ""); congruence. }
  unfold when. unfold bind at 1. unfold ret at 1.
  unfold bind at 1. unfold ret at 1.
  unfold bind at 1. rewrite Hv.
  unfold bind at 1. rewrite Hfalsy. unfold ret at 1.
  reflexivity.
Qed.

(** C7: for every response to the listing of bookmarks whose status is not
    in 200..299, [fetchBookmarks] throws after this one request, with the
    authentication message for status 401 and the message with status and
    body otherwise; the run prints the message and exits with code 1
    without another request. *)
Theorem C7_listing_failure :
  forall (w : World) (token userId : string)
         (res : Response (option (list Bookmark))),
    bookmarks_api w (bookmarks_request token userId) = Some res ->
    ok res = false ->
    (forall st,
        fetchBookmarks w token userId st
        = (Throw (Error (listing_failure res)),
           {| files := files st;
              trace := trace st ++ [Fetched (bookmarks_request token userId)];
              clock_reads := clock_reads st |}))
    /\ (forall fs st1,
          ingest_mode trim w fs token ->
          resolveUserId trim w token (initial fs) = (Return userId, st1) ->
          main toLowerCase trim w (initial fs)
          = (Exit 1,
             {| files := files st1;
                trace := trace st1
                         ++ [Log "Fetching bookmarks...";
                             Fetched (bookmarks_request token userId);
                             LogError (String Regex.LF "" +:+ "❌ Error: "
                                       +:+ listing_failure res)];
                clock_reads := clock_reads st1 |})).
Proof.
  intros w token userId res Hapi Hok. split.
  - intros st. rewrite fetchBookmarks_eval, Hapi, Hok. reflexivity.
  - intros fs st1 Hmode Hres. rewrite (main_ingest _ _ _ Hmode).
    unfold try_catch, ingest, fetch_phase.
    unfold bind at 1. unfold bind at 1. rewrite Hres.
    unfold bind at 1. unfold console_log at 1, emit at 1.
    unfold bind at 1. rewrite fetchBookmarks_eval, Hapi, Hok.
    unfold report_error. mred. cbn. rewrite <- !app_assoc. reflexivity.
Qed.

(** C6, as amended: for every seen-file that is missing, unreadable or
    malformed, [loadSeen] returns the empty set and leaves the state as it
    is; every fetched bookmark counts as unseen, the run goes on as with
    the empty set, and, when the seen-file can be stored afterwards (and
    the alert list is an array that can be stored too), it ends with code 0
    after scoring all fetched bookmarks. *)
Theorem C6_corrupt_seen_file :
  forall (w : World) (fs : Files),
    corrupt (seen_file fs) ->
    (forall st, files st = fs -> loadSeen st = (Return [], st))
    /\ (forall bookmarks,
          List.filter (fun b => negb (already_seen fs b)) bookmarks = bookmarks)
    /\ (forall bookmarks st1,
          fetched trim w fs bookmarks st1 ->
          main toLowerCase trim w (initial fs)
          = try_catch (store_with toLowerCase trim w bookmarks [])
              (report_error w) st1)
    /\ (forall bookmarks st1,
          fetched trim w fs bookmarks st1 ->
          is_array (loaded_alerts fs) ->
          can_save fs SEEN_FILE = true ->
          can_save fs ALERTS_FILE = true ->
          exit_code (fst (main toLowerCase trim w (initial fs))) = 0
          /\ scored (trace (snd (main toLowerCase trim w (initial fs)))) = bookmarks).
Proof.
  intros w fs Hc.
  assert (Hempty : loaded_seen fs = []).
  { unfold loaded_seen. destruct Hc as [->|[->| ->]]; reflexivity. }
  assert (Hall : forall bookmarks,
             List.filter (fun b => negb (already_seen fs b)) bookmarks = bookmarks).
  { intros bookmarks. unfold already_seen. rewrite Hempty.
    induction bookmarks as [|b l IH]; [reflexivity|]. cbn. f_equal. exact IH. }
  split; [|split; [exact Hall|split]].
  - intros st <-. rewrite loadSeen_eval, Hempty. reflexivity.
  - intros bookmarks st1 H. rewrite (main_store _ _ _ _ H), Hempty. reflexivity.
  - intros bookmarks st1 H Harr Hseen_ok Halerts_ok.
    destruct (fetched_state _ _ _ _ H) as [_ [Hs _]].
    assert (Hun : unseen (loaded_seen fs) bookmarks = bookmarks) by apply Hall.
    destruct (main_cases w fs bookmarks st1 H Harr Hseen_ok Halerts_ok)
      as [[Hnew Hrun]|[Hnew [k [added [line Hrun]]]]];
      rewrite Hrun; cbn [fst snd exit_code files trace].
    + rewrite scored_app, Hs, <- Hun, Hnew. auto.
    + rewrite scored_store_trace, Hs, Hun. auto.
Qed.



Lemma grows_store_phase w bookmarks : grows (store_phase toLowerCase trim w bookmarks).
Proof.
  unfold store_phase, store_with, loadSeen, loadAlerts, extractProjectKeywords,
    saveSeen, saveAlerts, mkdirSync_data, writeFileSync, existsSync,
    readFileSync_json, readFileSync_text, read_file, JSON_parse, when,
    console_log, console_error.
  repeat grows_step.
  all: unfold ingest_step, push, read_property, console_log; repeat grows_step.
Qed.

(** C9: for every token, when the user id is not resolved from the
    environment, the first request of the ingest run is the lookup of the
    user name frankdegods, whatever the token, and the bookmarks are then
    listed for the id that this lookup answered. *)
Theorem C9_hardcoded_lookup :
  forall (w : World) (fs : Files) (token : string) (uid0 : option string),
    ingest_mode trim w fs token ->
    fst (getUserId trim w (initial fs)) = Return uid0 ->
    falsy uid0 = true ->
    (exists rest,
        requests (trace (snd (main toLowerCase trim w (initial fs))))
        = {| url := "https://api.x.com/2/users/by/username/frankdegods?user.fields=id";
             authorization := "Bearer " +:+ token |} :: rest)
    /\ (forall bookmarks st1,
          fetch_phase trim w token (initial fs) = (Return bookmarks, st1) ->
          exists res u,
            user_api w (lookup_request token) = Some res
            /\ json_body res = Some u
            /\ requests (trace st1)
               = [lookup_request token; bookmarks_request token u]).
Proof.
  intros w fs token uid0 Hmode Hget Hfalsy.
  destruct (resolveUserId_unresolved w token (initial fs) uid0 Hget Hfalsy)
    as [o [st' [ev [Hres [[Hf [Hc Ht]] [Hq [Hreq Hu]]]]]]].
  cbn in Ht. split.
  - rewrite (main_ingest _ _ _ Hmode).
    assert (Hgrow : exists ev',
               trace (snd (try_catch (ingest toLowerCase trim w token)
                             (report_error w) (initial fs)))
               = trace st' ++ ev').
    { unfold ingest, fetch_phase.
      rewrite (try_catch_bind_bind _ _ _ _ _ _ _ Hres).
      destruct o as [u|e|c].
      - apply grows_try_catch; [|apply grows_report_error].
        apply grows_bind; [|intros; apply grows_store_phase].
        apply grows_bind; [apply grows_emit|intros _].
        apply grows_bind; [apply grows_fetchBookmarks|intros bookmarks].
        apply grows_bind; [apply grows_emit|intros _]. apply grows_ret.
      - apply grows_report_error.
      - exists []. cbn. rewrite app_nil_r. reflexivity. }
    destruct Hgrow as [ev' Hev']. rewrite Hev', Ht.
    cbn [app]. unfold requests. cbn [flat_map app]. eexists. reflexivity.
  - intros bookmarks st1 Hfetch. unfold fetch_phase in Hfetch.
    unfold bind at 1 in Hfetch. rewrite Hres in Hfetch.
    destruct o as [u|e|c]; [|discriminate..].
    destruct (Hu u eq_refl) as [res [Hapi Hjson]].
    exists res, u. split; [exact Hapi|]. split; [exact Hjson|].
    unfold bind at 1 in Hfetch. unfold console_log at 1, emit at 1 in Hfetch.
    unfold bind at 1 in Hfetch. rewrite fetchBookmarks_eval in Hfetch.
    cbn [files trace clock_reads] in Hfetch.
    destruct (match bookmarks_api w _ with None => _ | Some _ => _ end) as [bs|e|c];
      [|discriminate..].
    mred. cbn in Hfetch. injection Hfetch as _ <-. cbn [trace].
    rewrite Ht, !requests_app.
    change (requests (Log "Looking up user ID for @frankdegods..."
                      :: Fetched (lookup_request token) :: ev))
      with (lookup_request token :: requests ev).
    rewrite Hreq. reflexivity.
Qed.

End MonitorFacts.

(** *** The claims on concrete runs *)

(** C3 on the run that brings out the defect of [loadAlerts]: the alert
    file holds the JSON object without fields, which [loadAlerts] returns
    unchecked (its sibling [loadSeen] checks [Array.isArray]).  Of the two
    fetched bookmarks none is seen, so both are due for scoring and both ids
    are due in the seen-set.  Bookmark 1 scores 3, [alerts.push] throws, the
    run prints the error and exits with code 1: bookmark 2 is never scored,
    no file is written and the persisted seen-set stays without the fetched
    ids. *)
Theorem C3_alert_file_object_run :
  fetched Js.ascii_trim world_ingest files_alerts_object [bm1; bm2]
    (snd (fetch_phase Js.ascii_trim world_ingest "tok" (initial files_alerts_object)))
  /\ loadAlerts (initial files_alerts_object)
     = (Return (JObj []), initial files_alerts_object)
  /\ List.filter (fun b => negb (already_seen files_alerts_object b)) [bm1; bm2]
     = [bm1; bm2]
  /\ main Js.ascii_toLowerCase Js.ascii_trim world_ingest (initial files_alerts_object)
     = (Exit 1,
        {| files := files_alerts_object;
           trace := [ Log "Fetching bookmarks...";
                      Fetched (bookmarks_request "tok" "12");
                      Log "Got 2 bookmarks.";
                      Log "2 new (unseen) bookmarks.";
                      Scored bm1;
                      LogError (String Regex.LF "" +:+ "❌ Error: fault") ];
           clock_reads := 1 |})
  /\ scored (trace (snd (main Js.ascii_toLowerCase Js.ascii_trim world_ingest
                            (initial files_alerts_object)))) = [bm1]
  /\ persisted_ids (files (snd (main Js.ascii_toLowerCase Js.ascii_trim world_ingest
                                  (initial files_alerts_object))))
     <> persisted_ids files_alerts_object ∪ fetched_ids [bm1; bm2].
Proof.
  assert (Hrun : main Js.ascii_toLowerCase Js.ascii_trim world_ingest
                   (initial files_alerts_object)
                 = (Exit 1,
                    {| files := files_alerts_object;
                       trace := [ Log "Fetching bookmarks...";
                                  Fetched (bookmarks_request "tok" "12");
                                  Log "Got 2 bookmarks.";
                                  Log "2 new (unseen) bookmarks.";
                                  Scored bm1;
                                  LogError (String Regex.LF "" +:+ "❌ Error: fault") ];
                       clock_reads := 1 |})).
  { vm_compute. reflexivity. }
  split.
  { exists "tok". split; [repeat split; try reflexivity; discriminate|].
    vm_compute. reflexivity. }
  split; [vm_compute; reflexivity|]. split; [reflexivity|].
  split; [exact Hrun|]. rewrite Hrun. split; [reflexivity|].
  cbn [snd files]. intros Hids.
  assert (Hin : "1" ∈ persisted_ids files_alerts_object ∪ fetched_ids [bm1; bm2]).
  { apply elem_of_union. right. unfold fetched_ids.
    apply elem_of_list_to_set, list_elem_of_In. left. reflexivity. }
  rewrite <- Hids in Hin. apply elem_of_seen_ids in Hin.
  vm_compute in Hin. exact Hin.
Qed.

(** C6, as stated, fails: a directory stands where the seen-file should
    be, [loadSeen] returns the empty set, both bookmarks are scored, and
    [saveSeen] throws on the same path; the run exits with code 1 although
    the alert list is an array and the alert file can be written. *)
Lemma C6_counterexample :
  ~ (forall (w : World) (fs : Files) (bookmarks : list Bookmark) (st1 : State),
       corrupt (seen_file fs) ->
       fetched Js.ascii_trim w fs bookmarks st1 ->
       is_array (loaded_alerts fs) ->
       can_save fs ALERTS_FILE = true ->
       exit_code (fst (main Js.ascii_toLowerCase Js.ascii_trim w (initial fs))) = 0).
Proof.
  intros H.
  assert (Hend : exit_code (fst (main Js.ascii_toLowerCase Js.ascii_trim world_ingest
                                   (initial files_seen_directory))) = 0).
  { apply (H world_ingest files_seen_directory [bm1; bm2]
             (snd (fetch_phase Js.ascii_trim world_ingest "tok"
                     (initial files_seen_directory)))).
    - right. left. reflexivity.
    - exists "tok". split; [repeat split; try reflexivity; discriminate|].
      vm_compute. reflexivity.
    - exists []. reflexivity.
    - reflexivity. }
  vm_compute in Hend. discriminate Hend.
Qed.

(** The run over the directory in place of the seen-file: both bookmarks
    scored, code 1, no file written. *)
Example seen_directory_run :
  main Js.ascii_toLowerCase Js.ascii_trim world_ingest (initial files_seen_directory)
  = (Exit 1,
     {| files := files_seen_directory;
        trace := [ Log "Fetching bookmarks...";
                   Fetched (bookmarks_request "tok" "12");
                   Log "Got 2 bookmarks.";
                   Log "2 new (unseen) bookmarks.";
                   Scored bm1; Scored bm2;
                   MadeDataDir;
                   LogError (String Regex.LF "" +:+ "❌ Error: fault") ];
        clock_reads := 1 |}).
Proof. vm_compute. reflexivity. Qed.

(** C8, as stated, fails twice: with [--show] next to [--clear] the alerts
    are shown and the alert file keeps its alert; with an alert file that
    cannot be written [saveAlerts] throws and no exit with code 0 follows. *)
Lemma C8_counterexample :
  ~ (forall (w : World) (fs : Files),
       Js.array_includes (argv w) "--clear" = true ->
       can_save fs ALERTS_FILE = true ->
       fst (main Js.ascii_toLowerCase Js.ascii_trim w (initial fs)) = Exit 0
       /\ loaded_alerts (files (snd (main Js.ascii_toLowerCase Js.ascii_trim w
                                       (initial fs)))) = JArr []
       /\ seen_file (files (snd (main Js.ascii_toLowerCase Js.ascii_trim w
                                   (initial fs)))) = seen_file fs)
  /\ ~ (forall (w : World) (fs : Files),
          Js.array_includes (argv w) "--clear" = true ->
          Js.array_includes (argv w) "--show" = false ->
          fst (main Js.ascii_toLowerCase Js.ascii_trim w (initial fs)) = Exit 0
          /\ loaded_alerts (files (snd (main Js.ascii_toLowerCase Js.ascii_trim w
                                          (initial fs)))) = JArr []
          /\ seen_file (files (snd (main Js.ascii_toLowerCase Js.ascii_trim w
                                      (initial fs)))) = seen_file fs).
Proof.
  split; intros H.
  - destruct (H world_show_clear files_one_alert eq_refl eq_refl) as [_ [Hal _]].
    vm_compute in Hal. discriminate Hal.
  - destruct (H world_clear files_alerts_locked eq_refl eq_refl) as [He _].
    vm_compute in He. discriminate He.
Qed.

(** C6 on a run over a seen-file that is no JSON document. *)
Lemma C6_corrupt_seen_file_witness :
  corrupt (seen_file files_seen_malformed)
  /\ fetched Js.ascii_trim world_ingest files_seen_malformed [bm1; bm2]
       (snd (fetch_phase Js.ascii_trim world_ingest "tok" (initial files_seen_malformed)))
  /\ is_array (loaded_alerts files_seen_malformed)
  /\ can_save files_seen_malformed SEEN_FILE = true
  /\ can_save files_seen_malformed ALERTS_FILE = true
  /\ loadSeen (initial files_seen_malformed) = (Return [], initial files_seen_malformed)
  /\ List.filter (fun b => negb (already_seen files_seen_malformed b)) [bm1; bm2]
     = [bm1; bm2]
  /\ exit_code (fst (main Js.ascii_toLowerCase Js.ascii_trim world_ingest
                       (initial files_seen_malformed))) = 0
  /\ scored (trace (snd (main Js.ascii_toLowerCase Js.ascii_trim world_ingest
                            (initial files_seen_malformed)))) = [bm1; bm2].
Proof.
  assert (Hc : corrupt (seen_file files_seen_malformed)).
  { right. right. reflexivity. }
  assert (Hf : fetched Js.ascii_trim world_ingest files_seen_malformed [bm1; bm2]
                 (snd (fetch_phase Js.ascii_trim world_ingest "tok"
                         (initial files_seen_malformed)))).
  { exists "tok". split; [repeat split; try reflexivity; discriminate|].
    vm_compute. reflexivity. }
  assert (Ha : is_array (loaded_alerts files_seen_malformed)).
  { exists []. reflexivity. }
  split; [exact Hc|]. split; [exact Hf|]. split; [exact Ha|].
  split; [reflexivity|]. split; [reflexivity|].
  destruct (C6_corrupt_seen_file Js.ascii_toLowerCase Js.ascii_trim
              world_ingest files_seen_malformed Hc) as [Hload [Hall [_ Hend]]].
  split; [apply Hload; reflexivity|]. split; [apply Hall|].
  exact (Hend [bm1; bm2] _ Hf Ha eq_refl eq_refl).
Defined.

(** C7 on a listing answered with status 401. *)
Lemma C7_listing_failure_witness :
  bookmarks_api world_unauthorized (bookmarks_request "tok" "12") = Some unauthorized
  /\ ok unauthorized = false
  /\ fetchBookmarks world_unauthorized "tok" "12" (initial files_seen_2)
     = (Throw (Error AUTH_FAILURE),
        {| files := files_seen_2;
           trace := [Fetched (bookmarks_request "tok" "12")];
           clock_reads := 0 |}).
Proof.
  split; [reflexivity|]. split; [reflexivity|].
  destruct (C7_listing_failure Js.ascii_toLowerCase Js.ascii_trim
              world_unauthorized "tok" "12" unauthorized eq_refl eq_refl) as [Hthrow _].
  apply (Hthrow (initial files_seen_2)).
Defined.

(** C8 on a run with [--clear]. *)
Lemma C8_clear_witness :
  Js.array_includes (argv world_clear) "--clear" = true
  /\ Js.array_includes (argv world_clear) "--show" = false
  /\ can_save files_seen_2 ALERTS_FILE = true
  /\ fst (main Js.ascii_toLowerCase Js.ascii_trim world_clear (initial files_seen_2))
     = Exit 0
  /\ seen_file (files (snd (main Js.ascii_toLowerCase Js.ascii_trim world_clear
                               (initial files_seen_2))))
     = Holds (Encodes (JArr [JStr "2"])).
Proof.
  split; [reflexivity|]. split; [reflexivity|]. split; [reflexivity|].
  destruct (C8_clear Js.ascii_toLowerCase Js.ascii_trim world_clear files_seen_2
              eq_refl eq_refl eq_refl) as [He [_ [Hs _]]].
  split; [exact He | exact Hs].
Defined.

(** C9 on a run without a user id in the environment. *)
Lemma C9_hardcoded_lookup_witness :
  ingest_mode Js.ascii_trim world_lookup files_seen_2 "tok"
  /\ fst (getUserId Js.ascii_trim world_lookup (initial files_seen_2)) = Return None
  /\ falsy None = true
  /\ exists rest,
       requests (trace (snd (main Js.ascii_toLowerCase Js.ascii_trim world_lookup
                               (initial files_seen_2))))
       = {| url := "https://api.x.com/2/users/by/username/frankdegods?user.fields=id";
            authorization := "Bearer tok" |} :: rest.
Proof.
  assert (Hm : ingest_mode Js.ascii_trim world_lookup files_seen_2 "tok").
  { repeat split; try reflexivity; discriminate. }
  split; [exact Hm|]. split; [reflexivity|]. split; [reflexivity|].
  destruct (C9_hardcoded_lookup Js.ascii_toLowerCase Js.ascii_trim
              world_lookup files_seen_2 "tok" None Hm eq_refl eq_refl) as [Hfirst _].
  exact Hfirst.
Defined.

(** C10 on a run whose two fetched bookmarks are both seen. *)
Lemma C10_nothing_new_witness :
  fetched Js.ascii_trim world_ingest files_seen_both [bm1; bm2]
    (snd (fetch_phase Js.ascii_trim world_ingest "tok" (initial files_seen_both)))
  /\ (forall b, In b [bm1; bm2] -> already_seen files_seen_both b = true)
  /\ fst (main Js.ascii_toLowerCase Js.ascii_trim world_ingest (initial files_seen_both))
     = Exit 0
  /\ files (snd (main Js.ascii_toLowerCase Js.ascii_trim world_ingest
                    (initial files_seen_both)))
     = files_seen_both.
Proof.
  assert (Hf : fetched Js.ascii_trim world_ingest files_seen_both [bm1; bm2]
                 (snd (fetch_phase Js.ascii_trim world_ingest "tok"
                         (initial files_seen_both)))).
  { exists "tok". split; [repeat split; try reflexivity; discriminate|].
    vm_compute. reflexivity. }
  assert (Hall : forall b, In b [bm1; bm2] -> already_seen files_seen_both b = true).
  { intros b [<-|[<-|[]]]; reflexivity. }
  split; [exact Hf|]. split; [exact Hall|].
  destruct (C10_nothing_new Js.ascii_toLowerCase Js.ascii_trim
              world_ingest files_seen_both [bm1; bm2] _ Hf Hall) as [He [Hfs _]].
  split; [exact He | exact Hfs].
Defined.

(** * Further properties of the code *)

Import Behaviour.

(** ** Strings and patterns *)

Lemma append_cons c (a b : string) : String c a +:+ b = String c (a +:+ b).
Proof. reflexivity. Qed.

Lemma append_assoc (a b c : string) : (a +:+ b) +:+ c = a +:+ (b +:+ c).
Proof.
  induction a as [|x a IH]; [reflexivity|]. rewrite !append_cons, IH. reflexivity.
Qed.

Lemma append_length (a b : string) :
  String.length (a +:+ b) = String.length a + String.length b.
Proof.
  induction a as [|x a IH]; [reflexivity|]. rewrite append_cons. cbn [String.length].
  rewrite IH. reflexivity.
Qed.

Lemma drop_append (a b : string) : Js.drop (String.length a) (a +:+ b) = b.
Proof.
  induction a as [|x a IH]; [destruct b; reflexivity|].
  rewrite append_cons. cbn [String.length Js.drop]. exact IH.
Qed.

Lemma prefix_append pat s :
  String.prefix pat s = true <-> exists post, s = pat +:+ post.
Proof.
  revert s. induction pat as [|c pat IH]; intros s.
  - split; [intros _; exists s; reflexivity | intros _; destruct s; reflexivity].
  - destruct s as [|d s]; [split; [discriminate|intros [post H]; discriminate]|].
    simpl. destruct (Ascii.ascii_dec c d) as [->|Hne].
    + rewrite IH. split; intros [post H]; exists post;
        [rewrite H; reflexivity | injection H; auto].
    + split; [discriminate|]. intros [post H]. injection H as H1 H2. congruence.
Qed.

(** [includes] is the search for a substring. *)
Lemma includes_substring s pat :
  Js.includes s pat = true <-> exists pre post, s = pre +:+ pat +:+ post.
Proof.
  induction s as [|c s IH].
  - change (Js.includes "" pat) with (String.prefix pat "" || false).
    rewrite orb_false_r, prefix_append. split.
    + intros [post H]. exists "", post. exact H.
    + intros [pre [post H]]. destruct pre; [exists post; exact H|discriminate].
  - change (Js.includes (String c s) pat)
      with (String.prefix pat (String c s) || Js.includes s pat).
    rewrite orb_true_iff, IH, prefix_append. split.
    + intros [[post H]|[pre [post H]]].
      * exists "", post. exact H.
      * exists (String c pre), post. rewrite append_cons, H. reflexivity.
    + intros [pre [post H]]. destruct pre as [|d pre].
      * left. exists post. exact H.
      * right. rewrite append_cons in H. injection H as _ H. exists pre, post. exact H.
Qed.

Lemma search_prefix pat s : String.prefix pat s = true -> Js.search s pat = Some 0.
Proof. intros H. destruct s; cbn [Js.search]; rewrite H; reflexivity. Qed.

Lemma replace_prefix pat post : Js.replace (pat +:+ post) pat "" = post.
Proof.
  unfold Js.replace. rewrite search_prefix by (apply prefix_append; eauto).
  replace (Js.take 0 (pat +:+ post)) with "" by (destruct (pat +:+ post); reflexivity).
  apply drop_append.
Qed.

Lemma value_chars_split s :
  exists rest, s = Regex.value_chars s +:+ rest
    /\ Regex.all_chars plain_char (Regex.value_chars s) = true
    /\ value_stops rest.
Proof.
  induction s as [|c s [rest [H1 [H2 H3]]]].
  - exists "". split; [reflexivity|]. split; [reflexivity|left; reflexivity].
  - cbn [Regex.value_chars].
    destruct (Regex.is_quote c || Ascii.eqb c Regex.LF)%bool eqn:E.
    + exists (String c s). split; [reflexivity|]. split; [reflexivity|].
      right. exists c, s. split; [reflexivity|]. unfold plain_char. rewrite E. reflexivity.
    + exists rest. split; [rewrite append_cons, <- H1; reflexivity|].
      split; [|exact H3].
      cbn [Regex.all_chars]. unfold plain_char at 1. rewrite E. exact H2.
Qed.

(** What the pattern takes after the equals sign: an optional quote [q] and
    a value that is not empty, has neither quote nor line feed and goes on
    up to the next quote or line feed. *)
Lemma quoted_value_sound s v :
  Regex.quoted_value s = Some v ->
  v <> "" /\ Regex.all_chars plain_char v = true
  /\ exists q rest, s = q +:+ v +:+ rest /\ opening q /\ value_stops rest.
Proof.
  unfold Regex.quoted_value. intros H.
  set (body := match s with
               | String c s' => if Regex.is_quote c then s' else s
               | "" => s
               end) in *.
  destruct (value_chars_split body) as [rest [Hsplit [Hplain Hstop]]].
  destruct (Regex.value_chars body) as [|c0 v0] eqn:Ev; [discriminate|].
  injection H as <-. split; [discriminate|]. split; [exact Hplain|].
  subst body. destruct s as [|c s']; [cbn in Ev; discriminate Ev|].
  destruct (Regex.is_quote c) eqn:Eq.
  - exists (String c ""), rest. split; [rewrite <- Hsplit; reflexivity|].
    split; [|exact Hstop]. right. exists c. auto.
  - exists "", rest. split; [exact Hsplit|]. split; [left; reflexivity|exact Hstop].
Qed.

Lemma value_chars_none c s :
  Regex.value_chars (String c s) = "" -> plain_char c = false.
Proof.
  cbn [Regex.value_chars]. unfold plain_char.
  destruct (Regex.is_quote c || Ascii.eqb c Regex.LF)%bool; [reflexivity|discriminate].
Qed.

(** Where the pattern takes nothing after the equals sign, no value is
    there. *)
Lemma quoted_value_none s : Regex.quoted_value s = None -> no_value s.
Proof.
  unfold Regex.quoted_value. intros H q c tail' -> [->|[d [Hd ->]]].
  - change ("" +:+ String c tail') with (String c tail') in H.
    cbv beta iota in H.
    destruct (Regex.is_quote c) eqn:Eq.
    + unfold plain_char. rewrite Eq. reflexivity.
    + apply (value_chars_none c tail').
      destruct (Regex.value_chars (String c tail')); [reflexivity|discriminate].
  - change (String d "" +:+ String c tail') with (String d (String c tail')) in H.
    cbv beta iota in H. rewrite Hd in H. apply (value_chars_none c tail').
    destruct (Regex.value_chars (String c tail')); [reflexivity|discriminate].
Qed.

Lemma assignment_here key s v :
  String.prefix (key +:+ "=") s = true ->
  Regex.quoted_value (Js.drop (String.length key + 1) s) = Some v ->
  v <> "" /\ Regex.all_chars plain_char v = true
  /\ exists q rest,
       s = key +:+ "=" +:+ q +:+ v +:+ rest /\ opening q /\ value_stops rest.
Proof.
  intros Hp Hq. apply prefix_append in Hp. destruct Hp as [post ->].
  replace (String.length key + 1) with (String.length (key +:+ "=")) in Hq
    by (rewrite append_length; reflexivity).
  rewrite drop_append in Hq.
  destruct (quoted_value_sound _ _ Hq) as [Hne [Hpl [q [rest [-> Hcase]]]]].
  split; [exact Hne|]. split; [exact Hpl|].
  exists q, rest. split; [apply append_assoc|exact Hcase].
Qed.

Lemma no_assignment_here key s tail :
  (if String.prefix (key +:+ "=") s
   then Regex.quoted_value (Js.drop (String.length key + 1) s)
   else None) = None ->
  s = key +:+ "=" +:+ tail -> no_value tail.
Proof.
  intros H ->. rewrite <- append_assoc in H.
  replace (String.prefix (key +:+ "=") ((key +:+ "=") +:+ tail)) with true in H
    by (symmetry; apply prefix_append; eauto).
  replace (String.length key + 1) with (String.length (key +:+ "=")) in H
    by (rewrite append_length; reflexivity).
  rewrite drop_append in H. apply quoted_value_none, H.
Qed.

Lemma match_assignment_unfold key s :
  Regex.match_assignment key s
  = match (if String.prefix (key +:+ "=") s
           then Regex.quoted_value (Js.drop (String.length key + 1) s)
           else None) with
    | Some v => Some v
    | None =>
        match s with
        | EmptyString => None
        | String _ s' => Regex.match_assignment key s'
        end
    end.
Proof. destruct s; reflexivity. Qed.

(** The match is the leftmost one: the text splits at the first KEY= that
    has a value, and the value goes on as far as it can. *)
Lemma match_assignment_found key s v :
  Regex.match_assignment key s = Some v ->
  v <> "" /\ Regex.all_chars plain_char v = true
  /\ exists pre q rest,
       s = pre +:+ key +:+ "=" +:+ q +:+ v +:+ rest
       /\ opening q /\ value_stops rest
       /\ forall pre' tail,
            s = pre' +:+ key +:+ "=" +:+ tail ->
            String.length pre' < String.length pre -> no_value tail.
Proof.
  induction s as [|c s IH]; rewrite match_assignment_unfold;
    destruct (if String.prefix (key +:+ "=") _ then _ else _) as [v'|] eqn:Ehere.
  - intros H. injection H as ->.
    destruct (String.prefix (key +:+ "=") "") eqn:Ep; [|discriminate].
    destruct (assignment_here _ _ _ Ep Ehere) as [Hne [Hpl [q [rest [Hs [Hq Hr]]]]]].
    split; [exact Hne|]. split; [exact Hpl|].
    exists "", q, rest. split; [exact Hs|]. split; [exact Hq|]. split; [exact Hr|].
    intros pre' tail _ Hlt. cbn in Hlt. lia.
  - discriminate.
  - intros H. injection H as ->.
    destruct (String.prefix (key +:+ "=") (String c s)) eqn:Ep; [|discriminate].
    destruct (assignment_here _ _ _ Ep Ehere) as [Hne [Hpl [q [rest [Hs [Hq Hr]]]]]].
    split; [exact Hne|]. split; [exact Hpl|].
    exists "", q, rest. split; [exact Hs|]. split; [exact Hq|]. split; [exact Hr|].
    intros pre' tail _ Hlt. cbn in Hlt. lia.
  - intros H.
    destruct (IH H) as [Hne [Hpl [pre [q [rest [Hs [Hq [Hr Hleft]]]]]]]].
    split; [exact Hne|]. split; [exact Hpl|].
    exists (String c pre), q, rest.
    split; [rewrite append_cons, <- Hs; reflexivity|].
    split; [exact Hq|]. split; [exact Hr|].
    intros [|c' pre'] tail Hsplit Hlt.
    + apply (no_assignment_here key (String c s) tail Ehere Hsplit).
    + rewrite append_cons in Hsplit. injection Hsplit as _ Hsplit.
      apply (Hleft pre' tail Hsplit). cbn in Hlt. lia.
Qed.

Lemma match_assignment_unanchored key pre c rest :
  plain_char c = true ->
  Regex.match_assignment key (pre +:+ key +:+ "=" +:+ String c rest) <> None.
Proof.
  intros Hc. induction pre as [|d pre IH].
  - change ("" +:+ ?x) with x.
    assert (Hq : exists v, Regex.quoted_value (String c rest) = Some v).
    { unfold Regex.quoted_value. unfold plain_char in Hc.
      apply negb_true_iff, orb_false_iff in Hc. destruct Hc as [Hq Hl].
      rewrite Hq. cbn [Regex.value_chars]. rewrite Hq, Hl. cbn. eauto. }
    destruct Hq as [v Hq].
    rewrite match_assignment_unfold.
    rewrite <- append_assoc.
    replace (String.prefix (key +:+ "=") ((key +:+ "=") +:+ String c rest)) with true
      by (symmetry; apply prefix_append; eauto).
    replace (String.length key + 1) with (String.length (key +:+ "="))
      by (rewrite append_length; reflexivity).
    rewrite drop_append, Hq. discriminate.
  - rewrite append_cons, match_assignment_unfold.
    destruct (if String.prefix (key +:+ "=") _ then _ else _); [discriminate|exact IH].
Qed.

(** ** The readers of the environment file and of the project document *)

Lemma header_line_shape content m :
  In m (Regex.header_lines content) ->
  exists name, m = "## " +:+ name /\ name <> "".
Proof.
  unfold Regex.header_lines. rewrite filter_In, andb_true_iff.
  intros [_ [Hp Hl]]. apply prefix_append in Hp. destruct Hp as [name ->].
  exists name. split; [reflexivity|]. intros ->. discriminate.
Qed.

Section ReaderFacts.

Variable toLowerCase : string -> string.
Variable trim : string -> string.

Lemma env_file_value_holds key st content :
  global_env_file (files st) = Holds content ->
  env_file_value trim key st
  = (Return (option_map trim (Regex.match_assignment key content)), st).
Proof.
  unfold env_file_value, readFileSync_text, read_file.
  destruct st as [[sf af pf gf] tr k]. cbn [files global_env_file]. intros ->.
  mred. cbn. destruct (Regex.match_assignment key content); reflexivity.
Qed.

(** X6: a value that [getOAuth2Token] or [getUserId] takes from the
    environment file is the trimmed text [v] of the leftmost match of the
    pattern.  The file is [pre], KEY=, an optional quote character [q], [v]
    and [rest], where [v] is not empty and holds neither a quote character
    nor a line feed, [v] goes on as far as it can ([rest] is empty or
    begins with a quote character or a line feed), and no KEY= that begins
    further left has a value. *)
Theorem env_file_value_found :
  forall (key : string) (st : State) (t : string),
    fst (env_file_value trim key st) = Return (Some t) ->
    exists content v,
      global_env_file (files st) = Holds content
      /\ t = trim v
      /\ v <> ""
      /\ Regex.all_chars plain_char v = true
      /\ exists pre q rest,
           content = pre +:+ key +:+ "=" +:+ q +:+ v +:+ rest
           /\ (q = "" \/ exists c, Regex.is_quote c = true /\ q = String c "")
           /\ (rest = ""
               \/ exists c rest', rest = String c rest' /\ plain_char c = false)
           /\ forall pre' tail,
                content = pre' +:+ key +:+ "=" +:+ tail ->
                String.length pre' < String.length pre ->
                forall q' c tail',
                  tail = q' +:+ String c tail' ->
                  (q' = "" \/ exists d, Regex.is_quote d = true /\ q' = String d "") ->
                  plain_char c = false.
Proof.
  intros key st t H.
  destruct (global_env_file (files st)) as [| |content] eqn:Eg.
  - exfalso. revert H. unfold env_file_value, readFileSync_text, read_file.
    destruct st as [[sf af pf gf] tr k]. cbn in Eg. subst gf. mred. cbn. discriminate.
  - exfalso. revert H. unfold env_file_value, readFileSync_text, read_file.
    destruct st as [[sf af pf gf] tr k]. cbn in Eg. subst gf. mred. cbn. discriminate.
  - rewrite (env_file_value_holds key st content Eg) in H. cbn [fst] in H.
    destruct (Regex.match_assignment key content) as [v|] eqn:Em; [|discriminate].
    cbn in H. injection H as <-.
    destruct (match_assignment_found _ _ _ Em)
      as [Hne [Hpl [pre [q [rest [Hs [Hq [Hr Hleft]]]]]]]].
    exists content, v. split; [reflexivity|]. split; [reflexivity|].
    split; [exact Hne|]. split; [exact Hpl|].
    exists pre, q, rest. split; [exact Hs|]. split; [exact Hq|]. split; [exact Hr|].
    intros pre' tail Hsplit Hlt q' c tail' Htail Hq'.
    exact (Hleft pre' tail Hsplit Hlt q' c tail' Htail Hq').
Qed.

(** X7: the pattern is not anchored.  Wherever KEY= stands in the
    environment file, also inside a longer name or in a comment, followed
    by a character that is neither a quote nor a line feed, the reader
    returns a value, without an exception and without a change of state. *)
Theorem env_file_value_unanchored :
  forall (key : string) (st : State) (pre : string) (c : ascii) (rest : string),
    global_env_file (files st) = Holds (pre +:+ key +:+ "=" +:+ String c rest) ->
    plain_char c = true ->
    exists v, env_file_value trim key st = (Return (Some (trim v)), st).
Proof.
  intros key st pre c rest Hfile Hc.
  rewrite (env_file_value_holds key st _ Hfile).
  pose proof (match_assignment_unanchored key pre c rest Hc) as Hsome.
  destruct (Regex.match_assignment key _) as [v|]; [|congruence].
  exists v. reflexivity.
Qed.

Lemma extractProjectKeywords_table st :
  extractProjectKeywords toLowerCase trim st
  = (Return (project_table toLowerCase trim (active_projects_file (files st))), st).
Proof.
  unfold extractProjectKeywords, existsSync, readFileSync_text, read_file, project_table.
  destruct st as [[sf af pf gf] tr k].
  mred. destruct pf as [| |content]; reflexivity.
Qed.

Lemma extract_project_name content m :
  In m (Regex.header_lines content) ->
  project (extract_project toLowerCase trim content m) = trim (Js.drop 3 m).
Proof.
  intros Hm. destruct (header_line_shape content m Hm) as [name [-> _]].
  cbn [extract_project project]. unfold HEADER_MARK. rewrite replace_prefix. reflexivity.
Qed.

(** X5: [extractProjectKeywords] never throws, changes nothing and never
    returns an empty table.  Without a readable project document, or
    without a header line in it, the table is the built-in one; otherwise
    it has one project for each header line, in order, named by the
    trimmed text after the header mark, with the keywords of the section
    found for this line.  A header line is the mark followed by at least
    one character. *)
Theorem project_table_from_headers :
  forall st : State,
    exists ps,
      extractProjectKeywords toLowerCase trim st = (Return ps, st)
      /\ ps <> []
      /\ match active_projects_file (files st) with
         | Holds content =>
             Forall (fun m => exists name, m = "## " +:+ name /\ name <> "")
               (Regex.header_lines content)
             /\ match Regex.header_lines content with
                | [] => ps = defaults
                | headers =>
                    List.map project ps
                    = List.map (fun m => trim (Js.drop 3 m)) headers
                    /\ List.map keywords ps
                       = List.map
                           (fun m => section_keywords toLowerCase (section_of content m))
                           headers
                end
         | _ => ps = defaults
         end.
Proof.
  intros st. rewrite extractProjectKeywords_table. eexists. split; [reflexivity|].
  unfold project_table.
  destruct (active_projects_file (files st)) as [| |content];
    [split; [discriminate|reflexivity]..|].
  unfold extracted_projects.
  assert (Hnames : List.map project
                     (List.map (extract_project toLowerCase trim content)
                        (Regex.header_lines content))
                   = List.map (fun m => trim (Js.drop 3 m)) (Regex.header_lines content)).
  { rewrite List.map_map. apply List.map_ext_in. intros m Hm.
    apply extract_project_name, Hm. }
  assert (Hshape : Forall (fun m => exists name, m = "## " +:+ name /\ name <> "")
                     (Regex.header_lines content)).
  { apply List.Forall_forall. intros m Hm. apply (header_line_shape content m Hm). }
  destruct (Regex.header_lines content) as [|h hs] eqn:E.
  - cbn. split; [discriminate|]. split; [exact Hshape|reflexivity].
  - cbn [List.map length Nat.ltb Nat.leb]. split; [discriminate|]. split; [exact Hshape|].
    split; [exact Hnames|]. rewrite List.map_map. reflexivity.
Qed.

End ReaderFacts.

(** X6 on an environment file whose second line is a comment that holds
    the key inside a longer name. *)
Lemma env_file_value_found_witness :
  fst (env_file_value Js.ascii_trim "X_USER_ID" (initial files_env)) = Return (Some "42")
  /\ exists content v,
       global_env_file files_env = Holds content
       /\ "42" = Js.ascii_trim v /\ v <> "".
Proof.
  assert (H : fst (env_file_value Js.ascii_trim "X_USER_ID" (initial files_env))
              = Return (Some "42")) by reflexivity.
  split; [exact H|].
  destruct (env_file_value_found Js.ascii_trim "X_USER_ID" (initial files_env) "42" H)
    as [content [v [Hc [Ht [Hne _]]]]].
  exists content, v. auto.
Defined.

(** X7 on the same file: the key stands in the comment, after OLD_, and
    is found. *)
Lemma env_file_value_unanchored_witness :
  global_env_file (files (initial files_env))
  = Holds (String.concat (String Regex.LF "") ["A=1"; "# OLD_"]
           +:+ "X_USER_ID" +:+ "="
           +:+ String "4"%char (String.concat (String Regex.LF "") ["2 "; "B=2"]))
  /\ plain_char "4"%char = true
  /\ exists v, env_file_value Js.ascii_trim "X_USER_ID" (initial files_env)
               = (Return (Some (Js.ascii_trim v)), initial files_env).
Proof.
  split; [reflexivity|]. split; [reflexivity|].
  apply (env_file_value_unanchored Js.ascii_trim "X_USER_ID" (initial files_env)
           (String.concat (String Regex.LF "") ["A=1"; "# OLD_"])
           "4"%char
           (String.concat (String Regex.LF "") ["2 "; "B=2"]));
    reflexivity.
Defined.

(** ** The sections of the project document *)






















(** ** The relevance score *)

Lemma list_max_Permutation (l l' : list nat) :
  Permutation l l' -> list_max l = list_max l'.
Proof.
  induction 1 as [|x l l' _ IH|x y l|l l' l'' _ IH1 _ IH2]; simpl in *; lia.
Qed.

Lemma project_score_values n :
  project_score n = 0 \/ project_score n = 2 \/ project_score n = 3.
Proof.
  unfold project_score. destruct (3 <=? n)%nat; [auto|]. destruct (1 <=? n)%nat; auto.
Qed.

Lemma best_score_values count projects :
  best_score count projects = 0 \/ best_score count projects = 2
  \/ best_score count projects = 3.
Proof.
  unfold best_score. induction projects as [|p l IH]; [left; reflexivity|].
  simpl. destruct (project_score_values (count p)) as [H|[H|H]], IH as [I|[I|I]];
    rewrite H, I; simpl; auto.
Qed.

Lemma best_score_zero count projects :
  best_score count projects = 0 <-> forall p, In p projects -> count p = 0.
Proof.
  unfold best_score. induction projects as [|p l IH]; simpl.
  - split; [intros _ p []|reflexivity].
  - assert (Hp : project_score (count p) = 0 <-> count p = 0).
    { unfold project_score. destruct (Nat.leb_spec 3 (count p)); [lia|].
      destruct (Nat.leb_spec 1 (count p)); lia. }
    split.
    + intros H q [<-|Hq]; [apply Hp; lia|]. apply IH; [lia|exact Hq].
    + intros H. assert (project_score (count p) = 0) by (apply Hp, H; auto).
      assert (list_max (List.map (fun p => project_score (count p)) l) = 0)
        by (apply IH; intros q Hq; apply H; auto).
      lia.
Qed.

Lemma some_member_or_none {A B} (f : A -> list B) (l : list A) :
  (forall a, In a l -> f a = []) \/ (exists a b, In a l /\ In b (f a)).
Proof.
  induction l as [|a l [IH|[a' [b [Ha Hb]]]]].
  - left. intros a [].
  - destruct (f a) as [|b bs] eqn:E.
    + left. intros a' [<-|Ha']; [exact E|apply IH, Ha'].
    + right. exists a, b. split; [left; reflexivity|rewrite E; left; reflexivity].
  - right. exists a', b. split; [right; exact Ha|exact Hb].
Qed.

Section ScoreFacts.

Variable toLowerCase : string -> string.

Lemma scoreRelevance_best text projects :
  score (scoreRelevance toLowerCase text projects)
  = best_score (lowered_count toLowerCase text) projects.
Proof.
  unfold scoreRelevance.
  induction projects as [|p l IH] using rev_ind; [reflexivity|].
  rewrite fold_left_app. simpl.
  rewrite score_step_score, best_score_snoc, IH. reflexivity.
Qed.

(** X1: a keyword is matched exactly when its lowercased form occurs
    somewhere in the lowercased text, as a substring: inside a longer word
    too, and always when the lowercased keyword is empty. *)
Theorem keyword_match_is_substring :
  forall (text : string) (kws : list string) (kw : string),
    In kw (matched_keywords toLowerCase (toLowerCase text) kws)
    <-> In kw kws
        /\ exists pre post, toLowerCase text = pre +:+ toLowerCase kw +:+ post.
Proof.
  intros text kws kw.
  unfold matched_keywords. rewrite filter_In, includes_substring. reflexivity.
Qed.

(** X2: the score is 0, 2 or 3 and never 1; it is 0 exactly when no
    project has a matched keyword, and it reaches 2, the threshold of an
    alert, exactly when some keyword of some project is matched. *)
Theorem score_is_0_2_or_3 :
  forall (text : string) (projects : list ProjectKeywords),
    let r := scoreRelevance toLowerCase text projects in
    (score r = 0 \/ score r = 2 \/ score r = 3)
    /\ (score r = 0
        <-> forall p, In p projects ->
              matched_keywords toLowerCase (toLowerCase text) (keywords p) = [])
    /\ ((2 <=? score r)%nat = true
        <-> exists p kw,
              In p projects
              /\ In kw (matched_keywords toLowerCase (toLowerCase text) (keywords p))).
Proof.
  intros text projects. cbn zeta. rewrite scoreRelevance_best.
  assert (Hzero : best_score (lowered_count toLowerCase text) projects = 0
                  <-> forall p, In p projects ->
                        matched_keywords toLowerCase (toLowerCase text) (keywords p) = []).
  { rewrite best_score_zero. split; intros H p Hp; specialize (H p Hp).
    - apply length_zero_iff_nil. exact H.
    - apply length_zero_iff_nil in H. exact H. }
  split; [apply best_score_values|]. split; [exact Hzero|].
  destruct Hzero as [Hz1 Hz2].
  destruct (some_member_or_none
              (fun p => matched_keywords toLowerCase (toLowerCase text) (keywords p))
              projects) as [Hall|Hex].
  - rewrite (Hz2 Hall). split; [discriminate|].
    intros [p [kw [Hp Hkw]]]. rewrite (Hall p Hp) in Hkw. destruct Hkw.
  - split; [intros _; exact Hex|]. intros _.
    destruct (best_score_values (lowered_count toLowerCase text) projects)
      as [H|[H|H]]; rewrite H; [|reflexivity..].
    destruct Hex as [p [kw [Hp Hkw]]]. rewrite (Hz1 H p Hp) in Hkw. destruct Hkw.
Qed.

(** X3: the reason and the label of a result belong to one project of the
    table.  Either the score is 0 and both are empty, or some project of the
    table has a matched keyword, the label is its name, the score is the
    score of its matches, at least 2, and the reason names this project and
    lists its first three matched keywords at most. *)
Theorem reason_names_the_winner :
  forall (text : string) (projects : list ProjectKeywords),
    let r := scoreRelevance toLowerCase text projects in
    (score r = 0 /\ reason r = "" /\ rproject r = "")
    \/ exists p,
         In p projects
         /\ rproject r = project p
         /\ score r
            = match_score
                (length (matched_keywords toLowerCase (toLowerCase text) (keywords p)))
         /\ 2 <= score r
         /\ reason r
            = "Matches " +:+ project p +:+ ": "
              +:+ Js.join ", "
                    (firstn 3
                       (matched_keywords toLowerCase (toLowerCase text) (keywords p))).
Proof.
  intros text projects. cbn zeta. unfold scoreRelevance.
  induction projects as [|p l IH] using rev_ind; [left; auto|].
  rewrite fold_left_app. cbn [fold_left].
  set (b := fold_left _ l _) in *.
  set (matched := matched_keywords toLowerCase (toLowerCase text)) in *.
  assert (Hkeep :
    (score b = 0 /\ reason b = "" /\ rproject b = "")
    \/ exists q,
         In q (l ++ [p]) /\ rproject b = project q
         /\ score b = match_score (length (matched (keywords q)))
         /\ 2 <= score b
         /\ reason b = "Matches " +:+ project q +:+ ": "
                       +:+ Js.join ", " (firstn 3 (matched (keywords q)))).
  { destruct IH as [H|[q [Hq Hw]]]; [left; exact H|right].
    exists q. split; [apply in_or_app; left; exact Hq|exact Hw]. }
  unfold score_step. fold matched.
  destruct (length (matched (keywords p)) =? 0)%nat eqn:E0; [exact Hkeep|].
  cbv zeta. destruct (score b <? _)%nat; [|exact Hkeep].
  right. exists p. split; [apply in_or_app; right; left; reflexivity|].
  cbn [score reason rproject].
  split; [reflexivity|]. split; [reflexivity|]. split; [|reflexivity].
  apply Nat.eqb_neq in E0. unfold match_score.
  destruct (Nat.leb_spec 3 (length (matched (keywords p)))); [lia|].
  destruct (Nat.leb_spec 1 (length (matched (keywords p)))); lia.
Qed.

(** X4: the score does not depend on the order of the table, and more
    projects in the table never lower it. *)
Theorem score_ignores_table_order :
  forall (text : string) (projects projects' more : list ProjectKeywords),
    Permutation projects projects' ->
    score (scoreRelevance toLowerCase text projects)
    = score (scoreRelevance toLowerCase text projects')
    /\ score (scoreRelevance toLowerCase text projects)
       <= score (scoreRelevance toLowerCase text (projects' ++ more)).
Proof.
  intros text projects projects' more Hperm.
  rewrite !scoreRelevance_best. unfold best_score.
  assert (Heq : list_max (List.map (fun p => project_score (lowered_count toLowerCase text p))
                            projects)
                = list_max (List.map (fun p => project_score (lowered_count toLowerCase text p))
                              projects')).
  { apply list_max_Permutation, Permutation_map, Hperm. }
  split; [exact Heq|]. rewrite Heq, List.map_app, list_max_app. lia.
Qed.

End ScoreFacts.

(** X4 on the built-in table and the same table in reverse order. *)
Lemma score_ignores_table_order_witness :
  Permutation defaults (rev defaults)
  /\ score (scoreRelevance Js.ascii_toLowerCase (text bm1) (rev defaults)) = 3
  /\ 3 <= score (scoreRelevance Js.ascii_toLowerCase (text bm1)
                   (rev defaults ++ capital_table)).
Proof.
  assert (Hp : Permutation defaults (rev defaults)) by apply Permutation_rev.
  split; [exact Hp|].
  destruct (score_ignores_table_order Js.ascii_toLowerCase (text bm1)
              defaults (rev defaults) capital_table Hp) as [Heq Hle].
  split; [rewrite <- Heq; reflexivity|exact Hle].
Defined.

(** ** What a computation leaves as it found it *)

Section Preserves.

Context {B : Type} (obs : State -> B).

Lemma preserves_ret {A} (a : A) : preserves obs (ret a).
Proof. intros st. reflexivity. Qed.

Lemma preserves_throw {A} e : preserves obs (@throw A e).
Proof. intros st. reflexivity. Qed.

Lemma preserves_exit {A} c : preserves obs (@process_exit A c).
Proof. intros st. reflexivity. Qed.

Lemma preserves_get_files : preserves obs get_files.
Proof. intros st. reflexivity. Qed.

Lemma preserves_bind {A C} (m : M A) (k : A -> M C) :
  preserves obs m -> (forall a, preserves obs (k a)) -> preserves obs (bind m k).
Proof.
  intros Hm Hk st. unfold bind. specialize (Hm st).
  destruct (m st) as [[a|e|c] st']; cbn in *; [|exact Hm..].
  rewrite (Hk a st'). exact Hm.
Qed.

Lemma preserves_try_catch {A} (m : M A) (h : Exn -> M A) :
  preserves obs m -> (forall e, preserves obs (h e)) -> preserves obs (try_catch m h).
Proof.
  intros Hm Hh st. unfold try_catch. specialize (Hm st).
  destruct (m st) as [[a|e|c] st']; cbn in *; [exact Hm| |exact Hm].
  rewrite (Hh e st'). exact Hm.
Qed.

Lemma preserves_for_of {A S} (f : S -> A -> M S) xs :
  (forall acc x, preserves obs (f acc x)) -> forall acc, preserves obs (for_of f xs acc).
Proof.
  intros Hf. induction xs as [|x xs IH]; intros acc; cbn [for_of].
  - apply preserves_ret.
  - apply preserves_bind; [apply Hf | intros a; apply IH].
Qed.
End Preserves.

Lemma files_kept_emit e :
  (forall p, e <> WroteFile p) -> preserves persisted (emit e).
Proof.
  intros H st. unfold persisted, emit. cbn. rewrite wrote_app.
  destruct e; cbn; try rewrite app_nil_r; try reflexivity. exfalso. eapply H. reflexivity.
Qed.

Lemma files_kept_clock w : preserves persisted (toISOString_now w).
Proof. intros st. reflexivity. Qed.

Lemma requests_kept_emit e :
  (forall r, e <> Fetched r) -> preserves sent_requests (emit e).
Proof.
  intros H st. unfold sent_requests, emit. cbn. rewrite requests_app.
  destruct e; cbn; try rewrite app_nil_r; try reflexivity. exfalso. eapply H. reflexivity.
Qed.

Lemma requests_kept_clock w : preserves sent_requests (toISOString_now w).
Proof. intros st. reflexivity. Qed.

Lemma requests_kept_put_files fs : preserves sent_requests (put_files fs).
Proof. intros st. reflexivity. Qed.

(** One step of a proof that a computation preserves an observation. *)
Ltac preserves_step :=
  first
    [ apply preserves_ret | apply preserves_throw | apply preserves_exit
    | apply preserves_get_files
    | apply files_kept_clock | apply requests_kept_clock
    | apply requests_kept_put_files
    | apply files_kept_emit; intros ?; discriminate
    | apply requests_kept_emit; intros ?; discriminate
    | apply preserves_bind; [|intros ?]
    | apply preserves_try_catch; [|intros ?]
    | apply preserves_for_of; intros ? ?
    | match goal with
      | |- preserves _ (match ?x with _ => _ end) => destruct x
      | |- preserves _ (if ?c then _ else _) => destruct c
      end ].

Lemma files_kept_loadSeen : preserves persisted loadSeen.
Proof. intros st. rewrite loadSeen_eval. reflexivity. Qed.

Lemma files_kept_loadAlerts : preserves persisted loadAlerts.
Proof. intros st. rewrite loadAlerts_eval. reflexivity. Qed.

Lemma requests_kept_loadSeen : preserves sent_requests loadSeen.
Proof. intros st. rewrite loadSeen_eval. reflexivity. Qed.

Lemma requests_kept_loadAlerts : preserves sent_requests loadAlerts.
Proof. intros st. rewrite loadAlerts_eval. reflexivity. Qed.

Lemma files_kept_report_error w e : preserves persisted (report_error w e).
Proof. unfold report_error, console_error. repeat preserves_step. Qed.

Lemma requests_kept_report_error w e : preserves sent_requests (report_error w e).
Proof. unfold report_error, console_error. repeat preserves_step. Qed.

Section LoopFacts.

Variable toLowerCase : string -> string.
Variable trim : string -> string.

Lemma files_kept_ingest_step w projects acc bm :
  preserves persisted (ingest_step toLowerCase w projects acc bm).
Proof. unfold ingest_step, read_property, push. repeat preserves_step. Qed.

Lemma requests_kept_ingest_step w projects acc bm :
  preserves sent_requests (ingest_step toLowerCase w projects acc bm).
Proof. unfold ingest_step, read_property, push. repeat preserves_step. Qed.

Lemma requests_kept_store_phase w bookmarks :
  preserves sent_requests (store_phase toLowerCase trim w bookmarks).
Proof.
  unfold store_phase. apply preserves_bind; [apply requests_kept_loadSeen|intros seen].
  unfold store_with, when, console_log.
  apply preserves_bind; [repeat preserves_step|intros _].
  apply preserves_bind; [repeat preserves_step|intros _].
  apply preserves_bind.
  { intros st. pose proof (extractProjectKeywords_table toLowerCase trim st) as H.
    rewrite H. reflexivity. }
  intros projects.
  apply preserves_bind; [apply requests_kept_loadAlerts|intros alerts].
  apply preserves_bind;
    [apply preserves_for_of; intros; apply requests_kept_ingest_step|intros final].
  unfold saveSeen, saveAlerts, mkdirSync_data, writeFileSync.
  repeat preserves_step.
Qed.

(** *** The loop over the new bookmarks, whatever the alert list is *)

Lemma alerts_for_cons w projects k bm rest :
  alerts_for toLowerCase w projects k (bm :: rest)
  = if relevant toLowerCase projects bm
    then alert_of bm (scoreRelevance toLowerCase (text bm) projects) (clock w k)
         :: alerts_for toLowerCase w projects (S k) rest
    else alerts_for toLowerCase w projects k rest.
Proof.
  unfold alerts_for. cbn [List.filter].
  destruct (relevant toLowerCase projects bm); [|reflexivity].
  cbn [imap]. rewrite Nat.add_0_r. f_equal.
  apply imap_ext. intros i x _. cbn. rewrite Nat.add_succ_r. reflexivity.
Qed.

Lemma alerts_for_length w projects k new :
  length (alerts_for toLowerCase w projects k new)
  = length (List.filter (relevant toLowerCase projects) new).
Proof. unfold alerts_for. apply length_imap. Qed.

Lemma ingest_loop_outcome w projects new : forall acc st,
  match fst (for_of (ingest_step toLowerCase w projects) new acc st) with
  | Return final =>
      loop_seen final = mark_seen (loop_seen acc) new
      /\ alertCount final
         = alertCount acc + length (alerts_for toLowerCase w projects (clock_reads st) new)
      /\ ((alerts_for toLowerCase w projects (clock_reads st) new = []
           /\ loop_alerts final = loop_alerts acc)
          \/ exists items,
               loop_alerts acc = JArr items
               /\ loop_alerts final
                  = JArr (items ++ alerts_for toLowerCase w projects (clock_reads st) new))
  | Throw e =>
      alerts_for toLowerCase w projects (clock_reads st) new <> []
      /\ ~ is_array (loop_alerts acc)
      /\ e = push_failure (loop_alerts acc)
  | Exit _ => False
  end.
Proof.
  induction new as [|bm rest IH]; intros acc st.
  - cbn. split; [reflexivity|]. split; [lia|]. left. split; reflexivity.
  - cbn [for_of]. rewrite alerts_for_cons.
    unfold bind at 1. unfold ingest_step at 1.
    unfold bind at 1. unfold emit at 1.
    change (2 <=? score (scoreRelevance toLowerCase (text bm) projects))%nat
      with (relevant toLowerCase projects bm).
    destruct (relevant toLowerCase projects bm).
    + unfold bind at 1.
      destruct (loop_alerts acc) as [|b|n|s|items|fields] eqn:Hal;
        try (cbn; split; [discriminate|]; split; [intros [? ?]; discriminate|reflexivity]).
      unfold read_property at 1, ret at 1.
      unfold bind at 1. unfold toISOString_now at 1.
      unfold bind at 1. unfold push at 1, ret at 1. unfold ret at 1.
      cbn [files trace clock_reads].
      lazymatch goal with
      | |- context [for_of _ rest ?a ?s] => specialize (IH a s)
      end.
      cbn [clock_reads loop_seen loop_alerts alertCount] in IH.
      destruct (for_of _ rest _ _) as [[final|e|c] st']; cbn [fst] in *.
      * destruct IH as [Hs [Hc Ha]]. split; [exact Hs|]. split; [cbn; lia|].
        right. exists items. split; [reflexivity|].
        destruct Ha as [[E Ha]|[items' [E Ha]]].
        -- rewrite Ha, E. reflexivity.
        -- injection E as <-. rewrite Ha, <- app_assoc. reflexivity.
      * destruct IH as [_ [Hn _]]. exfalso. apply Hn. eexists. reflexivity.
      * exact IH.
    + unfold ret at 1.
      lazymatch goal with
      | |- context [for_of _ rest ?a ?s] => specialize (IH a s)
      end.
      cbn [clock_reads loop_seen loop_alerts alertCount] in IH.
      destruct (for_of _ rest _ _) as [[final|e|c] st']; cbn [fst] in *; exact IH.
Qed.

End LoopFacts.

(** ** The modes of a run *)

Lemma bind_never_returns {A B} (m : M A) (k : A -> M B) st :
  (forall a, fst (m st) <> Return a) ->
  snd (bind m k st) = snd (m st)
  /\ exit_code (fst (bind m k st)) = exit_code (fst (m st)).
Proof.
  intros H. unfold bind. destruct (m st) as [[a|e|c] st']; cbn in *; auto.
  exfalso. eapply H. reflexivity.
Qed.

Lemma never_returns_bind_l {A B} (m : M A) (k : A -> M B) :
  never_returns m -> never_returns (bind m k).
Proof.
  intros H st b. unfold bind. specialize (H st).
  destruct (m st) as [[a|e|c] st']; cbn in *; try discriminate.
  exfalso. eapply H. reflexivity.
Qed.

Lemma never_returns_bind_r {A B} (m : M A) (k : A -> M B) :
  (forall a, never_returns (k a)) -> never_returns (bind m k).
Proof.
  intros H st b. unfold bind.
  destruct (m st) as [[a|e|c] st']; cbn in *; try discriminate.
  apply H.
Qed.

Lemma never_returns_exit {A} c : never_returns (@process_exit A c).
Proof. intros st a. discriminate. Qed.

Lemma report_error_eval w e st :
  report_error w e st
  = (Exit 1, {| files := files st; trace := trace st ++ [LogError (error_line w e)];
                clock_reads := clock_reads st |}).
Proof. unfold report_error, error_line. mred. destruct e; reflexivity. Qed.

Section RunModes.

Variable toLowerCase : string -> string.
Variable trim : string -> string.

Lemma show_alerts_never_returns w : never_returns (show_alerts w).
Proof.
  unfold show_alerts.
  do 3 (apply never_returns_bind_r; intros ?). apply never_returns_exit.
Qed.

Lemma files_kept_show_alerts w : preserves persisted (show_alerts w).
Proof.
  unfold show_alerts, length_is_zero, console_log.
  apply preserves_bind; [apply files_kept_loadAlerts|intros alerts].
  repeat preserves_step.
Qed.

Lemma requests_kept_show_alerts w : preserves sent_requests (show_alerts w).
Proof.
  unfold show_alerts, length_is_zero, console_log.
  apply preserves_bind; [apply requests_kept_loadAlerts|intros alerts].
  repeat preserves_step.
Qed.

Lemma main_show w st :
  Js.array_includes (argv w) "--show" = true ->
  snd (main toLowerCase trim w st) = snd (show_alerts w st)
  /\ exit_code (fst (main toLowerCase trim w st)) = exit_code (fst (show_alerts w st)).
Proof.
  intros Hshow. unfold main. rewrite Hshow. unfold when at 1.
  apply bind_never_returns. intros a. apply show_alerts_never_returns.
Qed.

Lemma main_no_token w fs v :
  Js.array_includes (argv w) "--show" = false ->
  Js.array_includes (argv w) "--clear" = false ->
  fst (getOAuth2Token trim w (initial fs)) = Return v ->
  falsy v = true ->
  main toLowerCase trim w (initial fs)
  = (Exit 1, {| files := fs; trace := [LogError SETUP_STEPS]; clock_reads := 0 |}).
Proof.
  intros Hshow Hclear Htok Hfalsy. unfold main. rewrite Hshow, Hclear.
  destruct (getOAuth2Token_eval trim w (initial fs)) as [v' Hv].
  rewrite Hv in Htok. cbn in Htok. injection Htok as ->.
  unfold when. unfold bind at 1. unfold ret at 1.
  unfold bind at 1. unfold ret at 1.
  unfold bind at 1. rewrite Hv.
  unfold bind at 1. rewrite Hfalsy. mred. reflexivity.
Qed.

Lemma token_cases w fs :
  (exists v, fst (getOAuth2Token trim w (initial fs)) = Return v /\ falsy v = true)
  \/ (exists token, fst (getOAuth2Token trim w (initial fs)) = Return (Some token)
                    /\ token <> "").
Proof.
  destruct (getOAuth2Token_eval trim w (initial fs)) as [v Hv]. rewrite Hv. cbn.
  destruct v as [t|]; [|left; eauto].
  destruct (String.eqb_spec t "") as [->|Hne]; [left; eauto|right; eauto].
Qed.

Lemma can_save_false fs p :
  can_save fs p = false -> data_dir_blocked fs = true \/ read_only fs p = true.
Proof.
  unfold can_save. destruct (data_dir_blocked fs), (read_only fs p); cbn; auto.
Qed.

(** The five ends of the part of an ingest run that follows [loadSeen]:
    nothing new; [alerts.push] on a value that is no array; the seen-file
    refused; the seen-file stored and the alert file refused; both files
    stored. *)
Lemma store_with_run w bookmarks seen st :
  let new := unseen seen bookmarks in
  let added := alerts_for toLowerCase w
                 (project_table toLowerCase trim (active_projects_file (files st)))
                 (clock_reads st) new in
  let alerts := loaded_alerts (files st) in
  exists o st',
    store_with toLowerCase trim w bookmarks seen st = (o, st')
    /\ ((new = [] /\ o = Exit 0 /\ persisted st' = persisted st)
        \/ (new <> [] /\ added <> [] /\ ~ is_array alerts
            /\ o = Throw (push_failure alerts) /\ persisted st' = persisted st)
        \/ (new <> [] /\ (added = [] \/ is_array alerts)
            /\ can_save (files st) SEEN_FILE = false
            /\ (exists e, o = Throw e) /\ persisted st' = persisted st)
        \/ (new <> [] /\ (added = [] \/ is_array alerts)
            /\ can_save (files st) SEEN_FILE = true
            /\ can_save (files st) ALERTS_FILE = false
            /\ (exists e, o = Throw e)
            /\ files st' = seen_written (files st) (mark_seen seen new)
            /\ wrote (trace st') = wrote (trace st) ++ [SEEN_FILE])
        \/ (new <> [] /\ (added = [] \/ is_array alerts)
            /\ can_save (files st) SEEN_FILE = true
            /\ can_save (files st) ALERTS_FILE = true
            /\ o = Return tt
            /\ files st' = written (files st) (mark_seen seen new) (alerts_after alerts added)
            /\ wrote (trace st') = wrote (trace st) ++ [SEEN_FILE; ALERTS_FILE]
            /\ exists tr,
                 trace st' = tr ++ [Log (summary_line (length added) (length new))])).
Proof.
  intros new added alerts.
  assert (Hcase : new = [] \/ new <> []).
  { generalize new. intros [|]; [left; reflexivity|right; discriminate]. }
  destruct Hcase as [Hnew|Hne].
  { do 2 eexists. split; [apply store_with_nothing_new; exact Hnew|].
    left. split; [exact Hnew|]. split; [reflexivity|].
    unfold persisted. cbn. rewrite wrote_app, app_nil_r. reflexivity. }
  assert (Hlen : (length new =? 0)%nat = false).
  { revert Hne. generalize new. intros [|]; [congruence|reflexivity]. }
  unfold store_with. fold (unseen seen bookmarks). fold new.
  unfold bind at 1. unfold console_log at 1, emit at 1.
  unfold bind at 1. rewrite Hlen. unfold when, ret at 1.
  unfold bind at 1. rewrite extractProjectKeywords_table. cbn [files].
  unfold bind at 1. rewrite loadAlerts_eval. cbn [files]. fold alerts.
  unfold bind at 1.
  lazymatch goal with
  | |- context [for_of ?f new ?a ?s] =>
      pose proof (ingest_loop_outcome toLowerCase w
                    (project_table toLowerCase trim (active_projects_file (files st)))
                    new a s) as Hout;
      pose proof (preserves_for_of persisted f new
                    (fun acc x => files_kept_ingest_step toLowerCase w _ acc x) a s) as Hpers;
      destruct (for_of f new a s) as [[final|e|c] st2]
  end; cbn [fst snd clock_reads loop_seen loop_alerts alertCount] in Hout, Hpers;
    fold added in Hout; unfold persisted in Hpers; cbn [files trace] in Hpers;
    rewrite wrote_app in Hpers; cbn [wrote flat_map app] in Hpers;
    rewrite app_nil_r in Hpers; injection Hpers as Hf Hw.
  - destruct Hout as [Hs [Hc Ha]].
    assert (Harr : added = [] \/ is_array alerts).
    { destruct Ha as [[E _]|[items [E _]]]; [left; exact E|right; exists items; exact E]. }
    assert (Hal : loop_alerts final = alerts_after alerts added).
    { destruct Ha as [[E Ha]|[items [E Ha]]]; rewrite Ha.
      - rewrite E. reflexivity.
      - rewrite E. cbn. destruct added; [rewrite app_nil_r|]; reflexivity. }
    unfold bind at 1. rewrite saveSeen_eval, Hf, Hs.
    unfold can_save.
    destruct (data_dir_blocked (files st)) eqn:Hdir.
    { do 2 eexists. split; [reflexivity|]. right. right. left.
      split; [exact Hne|]. split; [exact Harr|]. split; [reflexivity|].
      split; [eexists; reflexivity|]. unfold persisted. rewrite Hf, Hw. reflexivity. }
    destruct (read_only (files st) SEEN_FILE) eqn:Hro.
    { do 2 eexists. split; [reflexivity|]. right. right. left.
      split; [exact Hne|]. split; [exact Harr|]. split; [reflexivity|].
      split; [eexists; reflexivity|]. unfold persisted. cbn [files trace].
      rewrite wrote_app, Hw. cbn. rewrite app_nil_r. reflexivity. }
    unfold bind at 1. rewrite saveAlerts_eval.
    cbn [files seen_written data_dir_blocked read_only]. rewrite Hdir.
    destruct (read_only (files st) ALERTS_FILE) eqn:Hroa.
    { do 2 eexists. split; [reflexivity|]. right. right. right. left.
      split; [exact Hne|]. split; [exact Harr|]. split; [reflexivity|].
      split; [reflexivity|]. split; [eexists; reflexivity|].
      cbn [files trace]. split; [reflexivity|].
      rewrite !wrote_app, Hw. cbn. rewrite app_nil_r. reflexivity. }
    do 2 eexists. split; [reflexivity|]. right. right. right. right.
    split; [exact Hne|]. split; [exact Harr|]. split; [reflexivity|].
    split; [reflexivity|]. split; [reflexivity|].
    mred. cbn [fst snd files trace]. split; [|split].
    + unfold written. rewrite Hal, Hdir. reflexivity.
    + rewrite !wrote_app, Hw. cbn. rewrite !app_nil_r, <- app_assoc. reflexivity.
    + eexists. f_equal. unfold summary_line. rewrite Hc. reflexivity.
  - destruct Hout as [Hadd [Hnarr He]].
    do 2 eexists. split; [reflexivity|]. right. left.
    split; [exact Hne|]. split; [exact Hadd|]. split; [exact Hnarr|].
    split; [rewrite He; reflexivity|]. unfold persisted. rewrite Hf, Hw. reflexivity.
  - destruct Hout.
Qed.

(** What a run leaves in the files, and which files it writes. *)
Lemma main_persisted w fs :
  let after := main toLowerCase trim w (initial fs) in
  persisted (snd after) = (fs, [])
  \/ (Js.array_includes (argv w) "--show" = false
      /\ Js.array_includes (argv w) "--clear" = true
      /\ can_save fs ALERTS_FILE = true
      /\ fst after = Exit 0
      /\ persisted (snd after) = (cleared fs, [ALERTS_FILE]))
  \/ (exists bookmarks st1,
        fetched trim w fs bookmarks st1
        /\ unseen (loaded_seen fs) bookmarks <> []
        /\ (new_alerts toLowerCase trim w fs bookmarks = [] \/ is_array (loaded_alerts fs))
        /\ can_save fs SEEN_FILE = true
        /\ can_save fs ALERTS_FILE = false
        /\ fst after = Exit 1
        /\ persisted (snd after) = (seen_stored fs bookmarks, [SEEN_FILE]))
  \/ (exists bookmarks st1,
        fetched trim w fs bookmarks st1
        /\ unseen (loaded_seen fs) bookmarks <> []
        /\ (new_alerts toLowerCase trim w fs bookmarks = [] \/ is_array (loaded_alerts fs))
        /\ can_save fs SEEN_FILE = true
        /\ can_save fs ALERTS_FILE = true
        /\ fst after = Return tt
        /\ persisted (snd after)
           = (stored toLowerCase trim w fs bookmarks, [SEEN_FILE; ALERTS_FILE])).
Proof.
  intros after. subst after.
  destruct (Js.array_includes (argv w) "--show") eqn:Hshow.
  { left. destruct (main_show w (initial fs) Hshow) as [-> _].
    rewrite files_kept_show_alerts. reflexivity. }
  destruct (Js.array_includes (argv w) "--clear") eqn:Hclear.
  { destruct (can_save fs ALERTS_FILE) eqn:Hok.
    - right. left. rewrite (main_clear toLowerCase trim _ _ Hclear Hshow Hok). auto 6.
    - left. destruct (main_clear_refused toLowerCase trim _ _ Hclear Hshow Hok)
        as [e [st' [-> [Hfs [Hwr _]]]]]. unfold persisted. cbn. congruence. }
  destruct (token_cases w fs) as [[v [Hv Hf]]|[token [Htok Hne]]].
  { left. rewrite (main_no_token w fs v Hshow Hclear Hv Hf). reflexivity. }
  assert (Hmode : ingest_mode trim w fs token) by (repeat split; assumption).
  destruct (fetch_phase_frame trim w token (initial fs))
    as [o [st1 [ev [Hfetch [[Hfs [Hck Htr]] Hq]]]]].
  destruct (quiet_scored ev Hq) as [_ Hwr].
  cbn in Hfs, Hck, Htr.
  assert (Hp1 : persisted st1 = (fs, [])).
  { unfold persisted. rewrite Hfs, Htr, Hwr. reflexivity. }
  destruct o as [bookmarks|e|c].
  - assert (Hfetched : fetched trim w fs bookmarks st1) by (exists token; split; assumption).
    rewrite (main_store toLowerCase trim _ _ _ _ Hfetched).
    destruct (store_with_run w bookmarks (loaded_seen fs) st1)
      as [o [st' [Hrun [[Hnew [-> Hp]]
                       |[[Hnew [Hadd [Hnarr [-> Hp]]]]
                        |[[Hnew [Hcase [Hs [[e ->] Hp]]]]
                         |[[Hnew [Hcase [Hs [Ha [[e ->] [Hfiles Hwrote]]]]]]
                          |[Hnew [Hcase [Hs [Ha [-> [Hfiles [Hwrote Hsum]]]]]]]]]]]]]].
    + left. unfold try_catch. rewrite Hrun. cbn. congruence.
    + left. unfold try_catch. rewrite Hrun.
      rewrite files_kept_report_error. congruence.
    + left. unfold try_catch. rewrite Hrun.
      rewrite files_kept_report_error. congruence.
    + right. right. left. exists bookmarks, st1. split; [exact Hfetched|].
      split; [exact Hnew|]. rewrite Hfs, Hck in *.
      split; [exact Hcase|]. split; [exact Hs|]. split; [exact Ha|].
      unfold try_catch. rewrite Hrun, report_error_eval. cbn [fst snd].
      split; [reflexivity|]. unfold persisted. cbn [files trace].
      rewrite wrote_app, Hfiles, Hwrote. cbn. rewrite app_nil_r.
      injection Hp1 as _ ->. reflexivity.
    + right. right. right. exists bookmarks, st1. split; [exact Hfetched|].
      split; [exact Hnew|]. rewrite Hfs, Hck in *.
      split; [exact Hcase|]. split; [exact Hs|]. split; [exact Ha|].
      unfold try_catch. rewrite Hrun. cbn.
      split; [reflexivity|]. unfold persisted. rewrite Hfiles, Hwrote.
      injection Hp1 as _ ->. reflexivity.
  - left. rewrite (main_ingest toLowerCase trim _ _ _ Hmode).
    unfold try_catch, ingest. unfold bind at 1. rewrite Hfetch.
    rewrite files_kept_report_error. exact Hp1.
  - left. rewrite (main_ingest toLowerCase trim _ _ _ Hmode).
    unfold try_catch, ingest. unfold bind at 1. rewrite Hfetch. exact Hp1.
Qed.

End RunModes.

(** ** What an ingest run stores *)

Section StoreFacts.

Variable toLowerCase : string -> string.
Variable trim : string -> string.

(** The five ends of a run that fetched a list of bookmarks. *)
Lemma fetched_run w fs bookmarks st1 :
  fetched trim w fs bookmarks st1 ->
  let after := main toLowerCase trim w (initial fs) in
  let new := unseen (loaded_seen fs) bookmarks in
  (new = [] /\ fst after = Exit 0 /\ persisted (snd after) = (fs, []))
  \/ (new <> [] /\ new_alerts toLowerCase trim w fs bookmarks <> []
      /\ ~ is_array (loaded_alerts fs)
      /\ fst after = Exit 1 /\ persisted (snd after) = (fs, [])
      /\ exists tr,
           trace (snd after)
           = tr ++ [LogError (error_line w (push_failure (loaded_alerts fs)))])
  \/ (new <> []
      /\ (new_alerts toLowerCase trim w fs bookmarks = [] \/ is_array (loaded_alerts fs))
      /\ can_save fs SEEN_FILE = false
      /\ fst after = Exit 1 /\ persisted (snd after) = (fs, []))
  \/ (new <> []
      /\ (new_alerts toLowerCase trim w fs bookmarks = [] \/ is_array (loaded_alerts fs))
      /\ can_save fs SEEN_FILE = true
      /\ can_save fs ALERTS_FILE = false
      /\ fst after = Exit 1
      /\ persisted (snd after) = (seen_stored fs bookmarks, [SEEN_FILE]))
  \/ (new <> []
      /\ (new_alerts toLowerCase trim w fs bookmarks = [] \/ is_array (loaded_alerts fs))
      /\ can_save fs SEEN_FILE = true
      /\ can_save fs ALERTS_FILE = true
      /\ fst after = Return tt
      /\ persisted (snd after)
         = (stored toLowerCase trim w fs bookmarks, [SEEN_FILE; ALERTS_FILE])
      /\ exists tr,
           trace (snd after)
           = tr ++ [Log (summary_line
                           (length (new_alerts toLowerCase trim w fs bookmarks))
                           (length new))]).
Proof.
  intros Hfetched after new. subst after new.
  rewrite (main_store toLowerCase trim _ _ _ _ Hfetched).
  destruct (fetched_state trim _ _ _ _ Hfetched) as [Hfs [_ Hwr]].
  assert (Hck : clock_reads st1 = 0).
  { destruct Hfetched as [token [_ Hfetch]].
    destruct (fetch_phase_frame trim w token (initial fs))
      as [o [st' [ev [H [[_ [Hc _]] _]]]]].
    rewrite H in Hfetch. injection Hfetch as _ <-. exact Hc. }
  assert (Hp1 : persisted st1 = (fs, [])).
  { unfold persisted. rewrite Hfs, Hwr. reflexivity. }
  destruct (store_with_run toLowerCase trim w bookmarks (loaded_seen fs) st1)
    as [o [st' [Hrun [[Hnew [-> Hp]]
                     |[[Hnew [Hadd [Hnarr [-> Hp]]]]
                      |[[Hnew [Hcase [Hs [[e ->] Hp]]]]
                       |[[Hnew [Hcase [Hs [Ha [[e ->] [Hfiles Hwrote]]]]]]
                        |[Hnew [Hcase [Hs [Ha [-> [Hfiles [Hwrote Hsum]]]]]]]]]]]]]];
    rewrite ?Hfs, ?Hck in *; unfold try_catch; rewrite Hrun.
  - left. cbn. split; [exact Hnew|]. split; [reflexivity|]. congruence.
  - right. left. split; [exact Hnew|]. split; [exact Hadd|]. split; [exact Hnarr|].
    rewrite report_error_eval. cbn. split; [reflexivity|].
    split; [|eexists; reflexivity].
    unfold persisted in *. cbn. rewrite wrote_app, app_nil_r. congruence.
  - right. right. left. split; [exact Hnew|]. split; [exact Hcase|].
    split; [exact Hs|]. rewrite report_error_eval. cbn. split; [reflexivity|].
    unfold persisted in *. cbn. rewrite wrote_app, app_nil_r. congruence.
  - right. right. right. left. split; [exact Hnew|]. split; [exact Hcase|].
    split; [exact Hs|]. split; [exact Ha|]. rewrite report_error_eval. cbn [fst snd].
    split; [reflexivity|]. unfold persisted. cbn [files trace].
    rewrite wrote_app, Hfiles, Hwrote, Hwr. cbn. reflexivity.
  - right. right. right. right. split; [exact Hnew|]. split; [exact Hcase|].
    split; [exact Hs|]. split; [exact Ha|]. cbn.
    split; [reflexivity|]. split; [|exact Hsum].
    unfold persisted. rewrite Hfiles, Hwrote, Hwr. reflexivity.
Qed.

(** X8: a run that ends with an exit code other than 0 never changes the
    alert file.  It leaves all files as they were and writes none, unless
    the seen-file can be stored and the alert file cannot: then the run may
    have stored the seen-set, as its only write, before [saveAlerts] threw.
    Where the alert file can be stored, a run with such an exit code changes
    nothing.  The two files are stored together: a run that ends with code
    0 and wrote the seen-file wrote the alert file after it, and a run
    without [--clear] that wrote the alert file wrote the seen-file before
    it. *)
Theorem failed_run_keeps_alerts w fs :
  let after := main toLowerCase trim w (initial fs) in
  (exit_code (fst after) <> 0 ->
   alerts_file (files (snd after)) = alerts_file fs
   /\ ((files (snd after) = fs /\ wrote (trace (snd after)) = [])
       \/ (can_save fs SEEN_FILE = true /\ can_save fs ALERTS_FILE = false
           /\ wrote (trace (snd after)) = [SEEN_FILE]
           /\ exists bookmarks st1,
                fetched trim w fs bookmarks st1
                /\ files (snd after) = seen_stored fs bookmarks)))
  /\ (exit_code (fst after) <> 0 -> can_save fs ALERTS_FILE = true ->
      files (snd after) = fs /\ wrote (trace (snd after)) = [])
  /\ (exit_code (fst after) = 0 -> In SEEN_FILE (wrote (trace (snd after))) ->
      wrote (trace (snd after)) = [SEEN_FILE; ALERTS_FILE])
  /\ (Js.array_includes (argv w) "--clear" = false ->
      In ALERTS_FILE (wrote (trace (snd after))) ->
      wrote (trace (snd after)) = [SEEN_FILE; ALERTS_FILE]).
Proof.
  intros after. subst after.
  destruct (main_persisted toLowerCase trim w fs)
    as [H|[[_ [Hcl [Hok [Ho H]]]]
          |[[bs [st1 [Hf [_ [_ [Hs [Ha [Ho H]]]]]]]]
           |[bs [st1 [_ [_ [_ [_ [_ [Ho H]]]]]]]]]]];
    unfold persisted in H; injection H as H1 H2; rewrite H1, H2, ?Ho;
    cbn [exit_code In].
  - split; [intros _; split; [reflexivity|left; auto]|].
    split; [auto|]. split; intros _ [].
  - split; [intros E; congruence|]. split; [intros E; congruence|].
    split; [intros _ [E|[]]; discriminate|]. intros E. congruence.
  - split.
    { intros _. split; [reflexivity|]. right.
      split; [exact Hs|]. split; [exact Ha|]. split; [reflexivity|].
      exists bs, st1. auto. }
    split; [intros _ E; congruence|].
    split; [intros E; discriminate|]. intros _ [E|[]]. discriminate.
  - split; [intros E; congruence|]. split; [intros E; congruence|]. auto.
Qed.

(** X9: a run never changes the project document or the environment
    file.  It writes nothing and leaves the files as they were, or writes
    the alert file only and leaves the seen-file as it was, or writes the
    seen-file only, leaves the alert file as it was and exits with code 1
    (the alert file cannot be stored), or writes the seen-file and then the
    alert file. *)
Theorem run_write_footprint w fs :
  let after := snd (main toLowerCase trim w (initial fs)) in
  active_projects_file (files after) = active_projects_file fs
  /\ global_env_file (files after) = global_env_file fs
  /\ ((wrote (trace after) = [] /\ files after = fs)
      \/ (wrote (trace after) = [ALERTS_FILE] /\ seen_file (files after) = seen_file fs)
      \/ (wrote (trace after) = [SEEN_FILE]
          /\ alerts_file (files after) = alerts_file fs
          /\ can_save fs ALERTS_FILE = false
          /\ exit_code (fst (main toLowerCase trim w (initial fs))) = 1)
      \/ wrote (trace after) = [SEEN_FILE; ALERTS_FILE]).
Proof.
  intros after. subst after.
  destruct (main_persisted toLowerCase trim w fs)
    as [H|[[_ [_ [_ [_ H]]]]
          |[[bs [st1 [_ [_ [_ [_ [Ha [Ho H]]]]]]]]
           |[bs [st1 [_ [_ [_ [_ [_ [_ H]]]]]]]]]]];
    unfold persisted in H; injection H as H1 H2; rewrite H1, H2;
    unfold stored, seen_stored, seen_written, written, cleared; cbn; auto 6.
  rewrite Ho. cbn. split; [reflexivity|]. split; [reflexivity|].
  right. right. left. auto.
Qed.

(** X10: no run removes an id (a string) from the persisted seen-set, in
    any mode and whatever its outcome. *)
Theorem seen_ids_kept w fs x :
  In (JStr x) (loaded_seen fs) ->
  In (JStr x) (loaded_seen (files (snd (main toLowerCase trim w (initial fs))))).
Proof.
  intros Hv.
  destruct (main_persisted toLowerCase trim w fs)
    as [H|[[_ [_ [_ [_ H]]]]
          |[[bs [st1 [_ [_ [_ [_ [_ [_ H]]]]]]]]
           |[bs [st1 [_ [_ [_ [_ [_ [_ H]]]]]]]]]]];
    unfold persisted in H; injection H as H1 H2; rewrite H1.
  - exact Hv.
  - exact Hv.
  - unfold seen_stored, seen_written, loaded_seen. cbn.
    apply json_set_from_In. unfold mark_seen. apply json_fold_set_add_In. left. exact Hv.
  - unfold stored, written, loaded_seen. cbn.
    apply json_set_from_In. unfold mark_seen. apply json_fold_set_add_In. left. exact Hv.
Qed.

Lemma appended_after alerts added : appended alerts (alerts_after alerts added)
  \/ (~ is_array alerts /\ added <> []).
Proof.
  destruct added as [|a l]; [left; left; reflexivity|].
  destruct alerts; try (right; split; [intros [? ?]|]; discriminate).
  left. right. exists items, (a :: l). split; reflexivity.
Qed.

(** X11: a run with [--show], or without [--clear], keeps every alert of
    the alert list in its place; it can only add alerts at the end, and an
    alert list that is no array stays as it is. *)
Theorem alerts_only_appended w fs :
  Js.array_includes (argv w) "--show" = true
  \/ Js.array_includes (argv w) "--clear" = false ->
  appended (loaded_alerts fs) (loaded_alerts (files (snd (main toLowerCase trim w (initial fs))))).
Proof.
  intros Hmode.
  destruct (main_persisted toLowerCase trim w fs)
    as [H|[[Hs [Hc [_ [_ H]]]]
          |[[bs [st1 [_ [_ [_ [_ [_ [_ H]]]]]]]]
           |[bs [st1 [_ [_ [Hcase [_ [_ [_ H]]]]]]]]]]];
    unfold persisted in H; injection H as H1 H2; rewrite H1.
  - left. reflexivity.
  - destruct Hmode; congruence.
  - left. reflexivity.
  - unfold stored, written, loaded_alerts. cbn. fold (loaded_alerts fs).
    destruct (appended_after (loaded_alerts fs) (new_alerts toLowerCase trim w fs bs))
      as [H|[Hn Ha]];
      [exact H|]. destruct Hcase; contradiction.
Qed.

(** X12: an ingest run that fetched bookmarks of which some are unseen,
    over an alert list that is an array, with files that can be stored,
    runs to its end, and the alert list is then the prior one followed by
    one alert for each unseen bookmark that scores at least 2, in the order
    of the listing.  The alert number [i] of these has the fields id, url
    (the status link of the id), text, relevance_score, reason, project and
    timestamp, in this order: the id and the text of the bookmark, the
    score, reason and project that [scoreRelevance] gives its text, and the
    reading number [i] of the clock. *)
Theorem ingest_appends_new_alerts w fs bookmarks st1 items :
  fetched trim w fs bookmarks st1 ->
  unseen (loaded_seen fs) bookmarks <> [] ->
  loaded_alerts fs = JArr items ->
  can_save fs SEEN_FILE = true ->
  can_save fs ALERTS_FILE = true ->
  let after := main toLowerCase trim w (initial fs) in
  let projects := project_table toLowerCase trim (active_projects_file fs) in
  let result := fun bm => scoreRelevance toLowerCase (text bm) projects in
  let due := List.filter (fun bm => (2 <=? score (result bm))%nat)
               (List.filter (fun bm => negb (seen_has (loaded_seen fs) bm)) bookmarks) in
  fst after = Return tt
  /\ exists added,
       loaded_alerts (files (snd after)) = JArr (items ++ added)
       /\ length added = length due
       /\ forall i bm,
            due !! i = Some bm ->
            added !! i
            = Some (JObj [ ("id", JStr (id bm));
                           ("url", JStr ("https://x.com/i/web/status/" +:+ id bm));
                           ("text", JStr (text bm));
                           ("relevance_score", JNum (Z.of_nat (score (result bm))));
                           ("reason", JStr (reason (result bm)));
                           ("project", JStr (rproject (result bm)));
                           ("timestamp", JStr (clock w i)) ]).
Proof.
  intros Hfetched Hnew Hitems Hseen_ok Halerts_ok after projects result due.
  subst after.
  destruct (fetched_run w fs bookmarks st1 Hfetched)
    as [[H _]|[[_ [_ [Hn _]]]
              |[[_ [_ [Hs _]]]
               |[[_ [_ [_ [Ha _]]]]
                |[_ [_ [_ [_ [Ho [H _]]]]]]]]]]; try congruence.
  { exfalso. apply Hn. exists items. exact Hitems. }
  split; [exact Ho|].
  exists (new_alerts toLowerCase trim w fs bookmarks).
  split; [|split].
  - unfold persisted in H. injection H as H1 H2. rewrite H1.
    unfold stored, written, loaded_alerts. cbn. fold (loaded_alerts fs).
    rewrite Hitems. unfold alerts_after.
    destruct (new_alerts toLowerCase trim w fs bookmarks); [rewrite app_nil_r|]; reflexivity.
  - apply alerts_for_length.
  - intros i bm Hi. unfold new_alerts, alerts_for.
    rewrite list_lookup_imap. fold projects.
    change (List.filter (relevant toLowerCase projects) (unseen (loaded_seen fs) bookmarks))
      with due.
    rewrite Hi. reflexivity.
Qed.

(** X23: an ingest run that reaches its end over unseen bookmarks prints
    as its last line the number of alerts that it added to the alert list,
    or, when it added none, the number of bookmarks that it marked seen. *)
Theorem summary_counts_alerts w fs bookmarks st1 :
  fetched trim w fs bookmarks st1 ->
  unseen (loaded_seen fs) bookmarks <> [] ->
  fst (main toLowerCase trim w (initial fs)) = Return tt ->
  let after := snd (main toLowerCase trim w (initial fs)) in
  loaded_alerts (files after)
  = alerts_after (loaded_alerts fs) (new_alerts toLowerCase trim w fs bookmarks)
  /\ exists tr,
       trace after
       = tr ++ [Log (summary_line
                       (length (new_alerts toLowerCase trim w fs bookmarks))
                       (length (unseen (loaded_seen fs) bookmarks)))].
Proof.
  intros Hfetched Hnew Hend after. subst after.
  destruct (fetched_run w fs bookmarks st1 Hfetched)
    as [[H _]|[[_ [_ [_ [Ho _]]]]
              |[[_ [_ [_ [Ho _]]]]
               |[[_ [_ [_ [_ [Ho _]]]]]
                |[_ [_ [_ [_ [_ [Hp Hsum]]]]]]]]]];
    try contradiction; try (rewrite Ho in Hend; discriminate).
  split; [|exact Hsum].
  unfold persisted in Hp. injection Hp as H1 H2. rewrite H1. reflexivity.
Qed.

(** X13: when the alert file holds a JSON value that is no array and
    some unseen bookmark scores at least 2, the ingest run prints the
    message of the exception of [alerts.push], exits with code 1 and
    stores nothing: the fetched bookmarks stay unseen. *)
Theorem alert_file_not_array_fails w fs bookmarks st1 :
  fetched trim w fs bookmarks st1 ->
  ~ is_array (loaded_alerts fs) ->
  new_alerts toLowerCase trim w fs bookmarks <> [] ->
  let after := main toLowerCase trim w (initial fs) in
  fst after = Exit 1
  /\ files (snd after) = fs
  /\ wrote (trace (snd after)) = []
  /\ exists tr,
       trace (snd after)
       = tr ++ [LogError (error_line w (push_failure (loaded_alerts fs)))].
Proof.
  intros Hfetched Hnarr Hadd after. subst after.
  destruct (fetched_run w fs bookmarks st1 Hfetched)
    as [[Hnew _]|[[_ [_ [_ [Ho [Hp Htr]]]]]
                 |[[_ [[Hc|Hc] _]]
                  |[[_ [[Hc|Hc] _]]
                   |[_ [[Hc|Hc] _]]]]]]; try contradiction.
  - exfalso. apply Hadd. unfold new_alerts. rewrite Hnew. reflexivity.
  - unfold persisted in Hp. injection Hp as H1 H2. auto.
Qed.


(** X27: an ingest run that fetched N bookmarks of which M have their id
    in the persisted seen-set, over an alert list that is an array and
    files that can be stored, ends with code 0; the seen-set persisted
    after the run is the prior one united with all N fetched ids, and
    exactly the N - M unseen bookmarks are scored, in the order of the
    listing. *)
Theorem stored_run_marks_all_seen w fs bookmarks st1 :
  fetched trim w fs bookmarks st1 ->
  is_array (loaded_alerts fs) ->
  can_save fs SEEN_FILE = true ->
  can_save fs ALERTS_FILE = true ->
  let after := main toLowerCase trim w (initial fs) in
  exit_code (fst after) = 0
  /\ persisted_ids (files (snd after)) = persisted_ids fs ∪ fetched_ids bookmarks
  /\ scored (trace (snd after))
     = List.filter (fun b => negb (already_seen fs b)) bookmarks
  /\ length (scored (trace (snd after)))
     = length bookmarks - length (List.filter (already_seen fs) bookmarks).
Proof.
  intros Hfetched Harr Hseen_ok Halerts_ok after. subst after.
  destruct (fetched_state trim _ _ _ _ Hfetched) as [_ [Hs _]].
  change (List.filter (fun b => negb (already_seen fs b)) bookmarks)
    with (unseen (loaded_seen fs) bookmarks).
  assert (Hlen : length (unseen (loaded_seen fs) bookmarks)
                 = length bookmarks - length (List.filter (already_seen fs) bookmarks)).
  { apply filter_complement_length. }
  destruct (main_cases toLowerCase trim w fs bookmarks st1 Hfetched Harr
              Hseen_ok Halerts_ok)
    as [[Hnew Hrun]|[Hnew [k [added [line Hrun]]]]];
    rewrite Hrun; cbn [fst snd exit_code files trace].
  - rewrite scored_app, Hs, Hnew.
    split; [reflexivity|].
    split; [|split; [reflexivity | rewrite <- Hlen, Hnew; reflexivity]].
    apply seen_ids_all_seen, unseen_nil_all_seen, Hnew.
  - rewrite scored_store_trace, Hs. cbn [app].
    split; [reflexivity|]. split; [|split; [reflexivity | exact Hlen]].
    unfold persisted_ids, loaded_seen, written. cbn [seen_file seen_of array_or_empty].
    apply seen_ids_after.
Qed.

End StoreFacts.

(** ** The seen-set from one run to the next *)









(** ** The commands and the requests of a run *)

Section CommandFacts.

Variable toLowerCase : string -> string.
Variable trim : string -> string.

Lemma main_show_empty w fs :
  Js.array_includes (argv w) "--show" = true ->
  loaded_alerts fs = JArr [] ->
  main toLowerCase trim w (initial fs)
  = (Exit 0, {| files := fs; trace := [Log "No bookmark alerts."]; clock_reads := 0 |}).
Proof.
  intros Hshow Hempty. unfold main. rewrite Hshow. unfold when at 1.
  unfold bind at 1. unfold bind at 1. rewrite loadAlerts_eval. cbn [files initial].
  rewrite Hempty. reflexivity.
Qed.

(** X15: a run with [--show] only reads: it leaves the files as they
    were, writes none and sends no request, also when [--clear] is given too
    and when there is no token; over an empty alert list (a missing,
    unreadable or malformed alert file included) it prints the line that
    says so and exits with code 0. *)
Theorem show_is_read_only w fs :
  Js.array_includes (argv w) "--show" = true ->
  let after := main toLowerCase trim w (initial fs) in
  files (snd after) = fs
  /\ wrote (trace (snd after)) = []
  /\ requests (trace (snd after)) = []
  /\ (loaded_alerts fs = JArr [] ->
      after = (Exit 0, {| files := fs; trace := [Log "No bookmark alerts."];
                          clock_reads := 0 |})).
Proof.
  intros Hshow after. subst after.
  destruct (main_show toLowerCase trim w (initial fs) Hshow) as [Hst _].
  pose proof (files_kept_show_alerts w (initial fs)) as Hp.
  pose proof (requests_kept_show_alerts w (initial fs)) as Hs.
  rewrite <- Hst in Hp, Hs. unfold persisted in Hp. unfold sent_requests in Hs.
  injection Hp as H1 H2. cbn in H1, H2, Hs.
  repeat split; try assumption. apply main_show_empty. exact Hshow.
Qed.

(** X16: a run with [--clear] over an alert file that can be stored
    exits with code 0, and a run with [--show] after it prints that there
    are no alerts, and nothing else, and exits with code 0, whatever the
    alert file held before. *)
Theorem clear_then_show w w' fs :
  Js.array_includes (argv w) "--clear" = true ->
  Js.array_includes (argv w) "--show" = false ->
  can_save fs ALERTS_FILE = true ->
  Js.array_includes (argv w') "--show" = true ->
  fst (main toLowerCase trim w (initial fs)) = Exit 0
  /\ main toLowerCase trim w' (initial (files (snd (main toLowerCase trim w (initial fs)))))
     = (Exit 0, {| files := cleared fs; trace := [Log "No bookmark alerts."];
                   clock_reads := 0 |}).
Proof.
  intros Hclear Hshow Hok Hshow'.
  rewrite (main_clear toLowerCase trim _ _ Hclear Hshow Hok). cbn [fst snd files].
  split; [reflexivity|].
  apply main_show_empty; [exact Hshow'|reflexivity].
Qed.

(** X17: without [--show] and [--clear], a run that finds no token, or
    an empty one, prints the setup steps on the error stream and exits with
    code 1; it sends no request and touches no file. *)
Theorem no_token_exits w fs v :
  Js.array_includes (argv w) "--show" = false ->
  Js.array_includes (argv w) "--clear" = false ->
  fst (getOAuth2Token trim w (initial fs)) = Return v ->
  falsy v = true ->
  main toLowerCase trim w (initial fs)
  = (Exit 1, {| files := fs; trace := [LogError SETUP_STEPS]; clock_reads := 0 |}).
Proof. apply main_no_token. Qed.

Lemma listing_requests w token u st :
  requests
    (trace (snd ((run console_log "Fetching bookmarks...";
                  do bookmarks <- fetchBookmarks w token u;
                  run console_log ("Got " +:+ Js.of_nat (length bookmarks)
                                   +:+ " bookmarks.");
                  ret bookmarks) st)))
  = requests (trace st) ++ [bookmarks_request token u].
Proof.
  unfold bind at 1. unfold console_log at 1, emit at 1.
  unfold bind at 1. rewrite fetchBookmarks_eval. cbn [files trace clock_reads].
  set (o := match bookmarks_api w _ with None => _ | Some _ => _ end). clearbody o.
  destruct o as [bs|e|c]; mred; cbn; rewrite !requests_app; cbn;
    rewrite ?app_nil_r; reflexivity.
Qed.

Lemma fetch_phase_requests w token st :
  exists more,
    requests (trace (snd (fetch_phase trim w token st))) = requests (trace st) ++ more
    /\ (more = [lookup_request token]
        \/ (exists u, more = [bookmarks_request token u])
        \/ (exists u, more = [lookup_request token; bookmarks_request token u])).
Proof.
  unfold fetch_phase.
  destruct (getUserId_eval trim w st) as [v Hv].
  destruct (falsy v) eqn:Hf.
  - destruct (resolveUserId_unresolved trim w token st v)
      as [o [st' [ev [H [[_ [_ Htr]] [_ [Hreq _]]]]]]];
      [rewrite Hv; reflexivity|exact Hf|].
    assert (Hst' : requests (trace st') = requests (trace st) ++ [lookup_request token]).
    { rewrite Htr, requests_app. unfold requests in *. cbn. rewrite Hreq. reflexivity. }
    unfold bind at 1. rewrite H. destruct o as [u|e|c].
    + rewrite listing_requests, Hst', <- app_assoc. eexists. split; [reflexivity|].
      right. right. exists u. reflexivity.
    + eexists. split; [exact Hst'|]. left. reflexivity.
    + eexists. split; [exact Hst'|]. left. reflexivity.
  - unfold resolveUserId. unfold bind at 1. unfold bind at 1. rewrite Hv, Hf.
    unfold ret at 1. rewrite listing_requests. eexists. split; [reflexivity|].
    right. left. eexists. reflexivity.
Qed.

(** X18: a run sends at most two requests: none, or in the default mode
    with its token the lookup of the user id, the listing of the bookmarks
    of one user, or the lookup followed by the listing.  No request is
    repeated and the listing is never continued on a further page. *)
Theorem at_most_two_requests w fs :
  let rs := requests (trace (snd (main toLowerCase trim w (initial fs)))) in
  rs = []
  \/ exists token,
       ingest_mode trim w fs token
       /\ (rs = [lookup_request token]
           \/ (exists u, rs = [bookmarks_request token u])
           \/ (exists u, rs = [lookup_request token; bookmarks_request token u])).
Proof.
  cbn zeta.
  destruct (Js.array_includes (argv w) "--show") eqn:Hshow.
  { left. destruct (main_show toLowerCase trim w (initial fs) Hshow) as [-> _].
    apply (requests_kept_show_alerts w (initial fs)). }
  destruct (Js.array_includes (argv w) "--clear") eqn:Hclear.
  { left. destruct (can_save fs ALERTS_FILE) eqn:Hok.
    - rewrite (main_clear toLowerCase trim _ _ Hclear Hshow Hok). reflexivity.
    - destruct (main_clear_refused toLowerCase trim _ _ Hclear Hshow Hok)
        as [e [st' [-> [_ [_ Hreq]]]]]. exact Hreq. }
  destruct (token_cases trim w fs) as [[v [Hv Hf]]|[token [Htok Hne]]].
  { left. rewrite (main_no_token toLowerCase trim w fs v Hshow Hclear Hv Hf).
    reflexivity. }
  assert (Hmode : ingest_mode trim w fs token) by (repeat split; assumption).
  right. exists token. split; [exact Hmode|].
  rewrite (main_ingest toLowerCase trim _ _ _ Hmode).
  destruct (fetch_phase_requests w token (initial fs)) as [more [Hreq Hmore]].
  cbn in Hreq.
  assert (Hsame : requests (trace (snd (try_catch (ingest toLowerCase trim w token)
                                          (report_error w) (initial fs)))) = more).
  { rewrite <- Hreq. unfold try_catch, ingest. unfold bind at 1.
    destruct (fetch_phase trim w token (initial fs)) as [[bs|e|c] st1]; cbn [snd].
    - pose proof (requests_kept_store_phase toLowerCase trim w bs st1) as Hs.
      unfold sent_requests in Hs.
      destruct (store_phase toLowerCase trim w bs st1) as [[[]|e|c] st2]; cbn [snd] in *.
      + exact Hs.
      + rewrite <- Hs. apply (requests_kept_report_error w e st2).
      + exact Hs.
    - apply (requests_kept_report_error w e st1).
    - reflexivity. }
  rewrite Hsame. exact Hmore.
Qed.

(** X19: in the default mode without a user id, a lookup that is answered
    with a status outside 200..299 ends the run: the message with status
    and body is printed, the exit code is 1, the lookup is the only
    request, and the files are as they were. *)
Theorem lookup_failure_stops_run w fs token v res :
  ingest_mode trim w fs token ->
  fst (getUserId trim w (initial fs)) = Return v ->
  falsy v = true ->
  user_api w (lookup_request token) = Some res ->
  ok res = false ->
  main toLowerCase trim w (initial fs)
  = (Exit 1,
     {| files := fs;
        trace := [ Log "Looking up user ID for @frankdegods...";
                   Fetched (lookup_request token);
                   LogError (error_line w
                               (Error ("User lookup failed: " +:+ Js.of_nat (status res)
                                       +:+ " " +:+ body res))) ];
        clock_reads := 0 |}).
Proof.
  intros Hmode Hget Hf Hapi Hok.
  rewrite (main_ingest toLowerCase trim _ _ _ Hmode).
  destruct (getUserId_eval trim w (initial fs)) as [v' Hv].
  rewrite Hv in Hget. cbn in Hget. injection Hget as ->.
  unfold try_catch, ingest, fetch_phase, resolveUserId.
  unfold bind at 1. unfold bind at 1. unfold bind at 1. rewrite Hv, Hf.
  unfold bind at 1. unfold console_log at 1, emit at 1.
  unfold bind at 1. unfold lookupUserId, fetch. unfold bind at 1. unfold bind at 1.
  unfold emit at 1. rewrite Hapi. unfold ret at 1. rewrite Hok. cbn [negb].
  unfold throw at 1. rewrite report_error_eval. reflexivity.
Qed.

End CommandFacts.

(** ** The exit code *)

Lemma code_ret {A} (a : A) : ends_0_or_1 (ret a).
Proof. intros st. cbn. lia. Qed.

Lemma code_throw {A} e : ends_0_or_1 (@throw A e).
Proof. intros st. cbn. lia. Qed.

Lemma code_exit {A} c : c <= 1 -> ends_0_or_1 (@process_exit A c).
Proof. intros H st. exact H. Qed.

Lemma code_returns {A} (m : M A) :
  (forall st, exists a, fst (m st) = Return a) -> ends_0_or_1 m.
Proof. intros H st. destruct (H st) as [a ->]. cbn. lia. Qed.

Lemma code_bind {A B} (m : M A) (k : A -> M B) :
  ends_0_or_1 m -> (forall a, ends_0_or_1 (k a)) -> ends_0_or_1 (bind m k).
Proof.
  intros Hm Hk st. unfold bind. specialize (Hm st).
  destruct (m st) as [[a|e|c] st']; cbn in *; [apply Hk|lia|exact Hm].
Qed.

Lemma code_try_catch {A} (m : M A) (h : Exn -> M A) :
  ends_0_or_1 m -> (forall e, ends_0_or_1 (h e)) -> ends_0_or_1 (try_catch m h).
Proof.
  intros Hm Hh st. unfold try_catch. specialize (Hm st).
  destruct (m st) as [[a|e|c] st']; cbn in *; [lia|apply Hh|exact Hm].
Qed.

Lemma code_for_of {A S} (f : S -> A -> M S) xs :
  (forall acc x, ends_0_or_1 (f acc x)) -> forall acc, ends_0_or_1 (for_of f xs acc).
Proof.
  intros Hf. induction xs as [|x xs IH]; intros acc; cbn [for_of].
  - apply code_ret.
  - apply code_bind; [apply Hf | intros a; apply IH].
Qed.

(** One step of a proof that a computation ends with code 0 or 1. *)
Ltac code_step :=
  first
    [ apply code_ret | apply code_throw | apply code_exit; lia
    | apply code_returns; intros ?; eexists; reflexivity
    | apply code_bind; [|intros ?]
    | apply code_try_catch; [|intros ?]
    | apply code_for_of; intros ? ?
    | match goal with
      | |- ends_0_or_1 (match ?x with _ => _ end) => destruct x
      | |- ends_0_or_1 (if ?c then _ else _) => destruct c
      end ].

Section ExitFacts.

Variable toLowerCase : string -> string.
Variable trim : string -> string.

(** X25: in every mode, over every state of the files and with every answer
    of the remote API, the monitor ends with exit code 0 or 1. *)
Theorem exit_code_0_or_1 w fs :
  exit_code (fst (main toLowerCase trim w (initial fs))) = 0
  \/ exit_code (fst (main toLowerCase trim w (initial fs))) = 1.
Proof.
  assert (H : ends_0_or_1 (main toLowerCase trim w)).
  { unfold main, when, ingest, fetch_phase, resolveUserId, store_phase, store_with, when,
      report_error, lookupUserId, fetchBookmarks, fetch, res_json, ingest_step,
      read_property, push, length_is_zero, saveSeen, saveAlerts, mkdirSync_data,
      writeFileSync, console_log, console_error.
    repeat first
      [ apply code_returns; intros ?;
        first [ rewrite loadSeen_eval | rewrite loadAlerts_eval
              | rewrite extractProjectKeywords_table ]; eexists; reflexivity
      | apply code_returns; intros st0;
        first [ destruct (getOAuth2Token_eval trim w st0) as [v0 ->]
              | destruct (getUserId_eval trim w st0) as [v0 ->] ]; eexists; reflexivity
      | code_step ]. }
  specialize (H (initial fs)). lia.
Qed.

End ExitFacts.

(** ** The authorizer *)

Section AuthFacts.

Import Crypto Auth.

Lemma all_chars_of_list p l :
  Regex.all_chars p (string_of_list_ascii l) = forallb p l.
Proof. induction l as [|c l IH]; [reflexivity|]. cbn. rewrite IH. reflexivity. Qed.

Lemma digit_unreserved (i : Z) : unreserved (digit URL_SAFE i) = true.
Proof.
  unfold digit. pose proof (digit_index_bound i) as Hn.
  set (n := Z.to_nat (Z.land i 63)) in *. clearbody n.
  do 64 (destruct n as [|n]; [reflexivity|]).
  lia.
Qed.

Lemma encode_unreserved bs : forallb unreserved (encode URL_SAFE false bs) = true.
Proof.
  induction bs as [|a|a b|a b c l IH] using list_ind3;
    cbn [encode app forallb]; rewrite ?digit_unreserved, ?IH; reflexivity.
Qed.

Lemma hex_digit_lower (i : Z) : lower_hex (hex_digit i) = true.
Proof.
  unfold hex_digit.
  assert (Hn : (Z.to_nat (Z.land i 15) < 16)%nat).
  { change 15%Z with (Z.ones 4). rewrite Z.land_ones by lia.
    pose proof (Z.mod_pos_bound i (2 ^ 4) ltac:(lia)). lia. }
  set (n := Z.to_nat (Z.land i 15)) in *. clearbody n.
  do 16 (destruct n as [|n]; [reflexivity|]).
  lia.
Qed.

Lemma hex_shape bs :
  String.length (hex bs) = (2 * length bs)%nat
  /\ Regex.all_chars lower_hex (hex bs) = true.
Proof.
  unfold hex. rewrite string_of_list_ascii_length, all_chars_of_list.
  induction bs as [|b bs [IH1 IH2]]; [split; reflexivity|].
  cbn [flat_map app length forallb]. rewrite IH1, IH2, !hex_digit_lower.
  split; [lia|reflexivity].
Qed.

(** X20: with 32 random bytes the code verifier has 43 characters, all in
    the set that RFC 7636 allows for a verifier (whose length must be 43 to
    128); the challenge has only such characters too; and with 16 random
    bytes the state nonce is 32 lowercase hexadecimal digits. *)
Theorem verifier_and_state_format env random32 random16 :
  length random32 = 32%nat ->
  length random16 = 16%nat ->
  let s := new_session env random32 random16 in
  String.length (codeVerifier s) = 43%nat
  /\ Regex.all_chars unreserved (codeVerifier s) = true
  /\ Regex.all_chars unreserved (codeChallenge s) = true
  /\ String.length (state s) = 32%nat
  /\ Regex.all_chars lower_hex (state s) = true.
Proof.
  intros H32 H16. cbn zeta. unfold new_session. cbn [codeVerifier codeChallenge state].
  unfold generateCodeChallenge, generateCodeVerifier, digest, to_string, base64url.
  rewrite string_of_list_ascii_length, !all_chars_of_list, encode_nopad_length, H32,
    !encode_unreserved.
  destruct (hex_shape random16) as [Hl Hc]. rewrite Hl, Hc, H16.
  repeat split; reflexivity.
Qed.

(** X21: the two halves of the PKCE flow fit.  A callback that carries a
    code and the state of the authorization URL is answered with 200 and
    exchanged, and the token request carries this code, a verifier whose
    challenge is the one of the authorization URL (announced there with
    the method S256), and the redirect address and the client id of the
    authorization URL. *)
Theorem callback_completes_pkce env random32 random16 w params code :
  let s := new_session env random32 random16 in
  searchParams_get params "code" = Some code ->
  code <> "" ->
  searchParams_get params "state" = searchParams_get (authUrl_params s) "state" ->
  exists r rest,
    handler s w params
    = Respond 200 "<h1>✅ Auth successful! You can close this tab.</h1>"
      :: PostToken r :: rest
    /\ searchParams_get (form r) "code" = Some code
    /\ option_map generateCodeChallenge (searchParams_get (form r) "code_verifier")
       = searchParams_get (authUrl_params s) "code_challenge"
    /\ searchParams_get (authUrl_params s) "code_challenge_method" = Some "S256"
    /\ searchParams_get (form r) "redirect_uri"
       = searchParams_get (authUrl_params s) "redirect_uri"
    /\ searchParams_get (form r) "client_id"
       = searchParams_get (authUrl_params s) "client_id".
Proof.
  intros s Hcode Hne Hstate.
  destruct (handler_accepted s w params code) as [rest Hrest].
  { split; [exact Hcode|]. split; [exact Hne|]. rewrite Hstate. reflexivity. }
  exists (token_request s code), rest. split; [exact Hrest|].
  repeat split; reflexivity.
Qed.

Lemma after_exchange_shape w tokens :
  exists before code,
    after_exchange w tokens = before ++ [ServerClose; ProcessExit code]
    /\ existsb ends_process before = false
    /\ (error tokens = true -> code = 1%nat /\ before = [PrintFailure tokens])
    /\ (error tokens = false ->
        code = 0%nat
        /\ In (Print (export_line "X_OAUTH2_ACCESS_TOKEN" (access_token tokens))) before).
Proof.
  unfold after_exchange. destruct (error tokens).
  - exists [PrintFailure tokens], 1%nat. repeat split; try reflexivity; discriminate.
  - eexists (_ :: _ :: _ ++ [_; _]), 0%nat.
    split; [cbn [app]; rewrite <- app_assoc; reflexivity|].
    split; [|split; [discriminate|]].
    + cbn [existsb ends_process orb]. rewrite existsb_app.
      destruct (refresh_token tokens) as [r|]; [destruct (String.eqb r "")|]; reflexivity.
    + intros _. split; [reflexivity|]. right. left. reflexivity.
Qed.

(** X22: an accepted callback ends the script, and ends it last: by an
    exit with code 1 and without any printed line of credentials when the
    token endpoint reports an error, by an exit with code 0 after the line
    with the access token was printed when it does not, and by the
    rejection of the handler when the endpoint cannot be reached or answers
    no JSON document. *)
Theorem accepted_callback_ends_process s w params code :
  accepted s params code ->
  exists before last,
    handler s w params = before ++ [last]
    /\ existsb ends_process before = false
    /\ match token_api w (token_request s code) with
       | Some (Some tokens) =>
           if error tokens
           then last = ProcessExit 1
                /\ forall line, ~ In (Print line) before
           else last = ProcessExit 0
                /\ In (Print (export_line "X_OAUTH2_ACCESS_TOKEN" (access_token tokens)))
                     before
       | _ => last = UnhandledRejection
       end.
Proof.
  intros Hacc. pose proof Hacc as [Hcode [Hne Hst]].
  unfold handler. rewrite Hcode.
  destruct (String.eqb_spec code "") as [->|_]; [congruence|].
  rewrite bool_decide_eq_true_2 by exact Hst. cbn [negb].
  destruct (token_api w (token_request s code)) as [[tokens|]|].
  - destruct (after_exchange_shape w tokens) as [before [c [Hshape [Hends [Herr Hok]]]]].
    rewrite Hshape.
    exists (Respond 200 "<h1>✅ Auth successful! You can close this tab.</h1>"
            :: PostToken (token_request s code) :: before ++ [ServerClose]),
           (ProcessExit c).
    split; [cbn [app]; rewrite <- app_assoc; reflexivity|].
    split.
    { cbn [existsb ends_process orb]. rewrite existsb_app, Hends. reflexivity. }
    destruct (error tokens).
    + destruct (Herr eq_refl) as [-> ->]. split; [reflexivity|].
      intros line [H|[H|[H|[H|[]]]]]; discriminate.
    + destruct (Hok eq_refl) as [-> Hin]. split; [reflexivity|].
      right. right. apply in_or_app. left. exact Hin.
  - eexists [_; _], _. split; [reflexivity|]. split; reflexivity.
  - eexists [_; _], _. split; [reflexivity|]. split; reflexivity.
Qed.

End AuthFacts.

(** ** The further properties on concrete runs *)

(** X8 on three runs: the listing answered with 401 (nothing changes);
    the alert file locked, with two unseen bookmarks (the seen-set is
    stored, the alert file keeps its alert, exit code 1); and bookmark 2
    seen with files that can be stored (both files written, in order). *)
Lemma failed_run_keeps_alerts_witness :
  (exit_code (fst (main Js.ascii_toLowerCase Js.ascii_trim world_unauthorized
                     (initial files_seen_2))) <> 0
   /\ can_save files_seen_2 ALERTS_FILE = true
   /\ files (snd (main Js.ascii_toLowerCase Js.ascii_trim world_unauthorized
                    (initial files_seen_2))) = files_seen_2)
  /\ (exit_code (fst (main Js.ascii_toLowerCase Js.ascii_trim world_ingest
                        (initial files_alerts_locked))) <> 0
      /\ alerts_file (files (snd (main Js.ascii_toLowerCase Js.ascii_trim world_ingest
                                    (initial files_alerts_locked))))
         = Holds (Encodes one_alert)
      /\ seen_file (files (snd (main Js.ascii_toLowerCase Js.ascii_trim world_ingest
                                  (initial files_alerts_locked))))
         = Holds (Encodes (JArr [JStr "1"; JStr "2"])))
  /\ (exit_code (fst (main Js.ascii_toLowerCase Js.ascii_trim world_ingest
                        (initial files_seen_2))) = 0
      /\ Js.array_includes (argv world_ingest) "--clear" = false
      /\ In SEEN_FILE (wrote (trace (snd (main Js.ascii_toLowerCase Js.ascii_trim
                                            world_ingest (initial files_seen_2)))))
      /\ In ALERTS_FILE (wrote (trace (snd (main Js.ascii_toLowerCase Js.ascii_trim
                                              world_ingest (initial files_seen_2)))))
      /\ wrote (trace (snd (main Js.ascii_toLowerCase Js.ascii_trim world_ingest
                              (initial files_seen_2)))) = [SEEN_FILE; ALERTS_FILE]).
Proof.
  split; [|split].
  - assert (H : exit_code (fst (main Js.ascii_toLowerCase Js.ascii_trim
                                  world_unauthorized (initial files_seen_2))) <> 0).
    { vm_compute. discriminate. }
    split; [exact H|]. split; [reflexivity|].
    destruct (failed_run_keeps_alerts Js.ascii_toLowerCase Js.ascii_trim
                world_unauthorized files_seen_2) as [_ [Hkeep _]].
    apply (Hkeep H eq_refl).
  - assert (H : exit_code (fst (main Js.ascii_toLowerCase Js.ascii_trim
                                  world_ingest (initial files_alerts_locked))) <> 0).
    { vm_compute. discriminate. }
    split; [exact H|].
    destruct (failed_run_keeps_alerts Js.ascii_toLowerCase Js.ascii_trim
                world_ingest files_alerts_locked) as [Hfail _].
    destruct (Hfail H) as [Hal _]. split; [exact Hal|].
    vm_compute. reflexivity.
  - assert (H : exit_code (fst (main Js.ascii_toLowerCase Js.ascii_trim
                                  world_ingest (initial files_seen_2))) = 0).
    { vm_compute. reflexivity. }
    assert (Hs : In SEEN_FILE
                   (wrote (trace (snd (main Js.ascii_toLowerCase Js.ascii_trim
                                         world_ingest (initial files_seen_2)))))).
    { vm_compute. left. reflexivity. }
    assert (Ha : In ALERTS_FILE
                   (wrote (trace (snd (main Js.ascii_toLowerCase Js.ascii_trim
                                         world_ingest (initial files_seen_2)))))).
    { vm_compute. right. left. reflexivity. }
    split; [exact H|]. split; [reflexivity|]. split; [exact Hs|]. split; [exact Ha|].
    destruct (failed_run_keeps_alerts Js.ascii_toLowerCase Js.ascii_trim
                world_ingest files_seen_2) as [_ [_ [Hboth Halso]]].
    assert (Hw := Halso eq_refl Ha). exact (Hboth H Hs).
Defined.

(** X27 on a run that fetches bookmarks 1 and 2 with bookmark 2 seen:
    bookmark 1 alone is scored and the seen-set becomes the ids 1 and 2. *)
Lemma stored_run_marks_all_seen_witness :
  fetched Js.ascii_trim world_ingest files_seen_2 [bm1; bm2]
    (snd (fetch_phase Js.ascii_trim world_ingest "tok" (initial files_seen_2)))
  /\ is_array (loaded_alerts files_seen_2)
  /\ can_save files_seen_2 SEEN_FILE = true
  /\ can_save files_seen_2 ALERTS_FILE = true
  /\ exit_code (fst (main Js.ascii_toLowerCase Js.ascii_trim world_ingest
                       (initial files_seen_2))) = 0
  /\ persisted_ids (files (snd (main Js.ascii_toLowerCase Js.ascii_trim world_ingest
                                  (initial files_seen_2))))
     = persisted_ids files_seen_2 ∪ fetched_ids [bm1; bm2]
  /\ scored (trace (snd (main Js.ascii_toLowerCase Js.ascii_trim world_ingest
                            (initial files_seen_2)))) = [bm1].
Proof.
  assert (Hf : fetched Js.ascii_trim world_ingest files_seen_2 [bm1; bm2]
                 (snd (fetch_phase Js.ascii_trim world_ingest "tok"
                         (initial files_seen_2)))).
  { exists "tok". split; [repeat split; try reflexivity; discriminate|].
    vm_compute. reflexivity. }
  assert (Ha : is_array (loaded_alerts files_seen_2)).
  { exists []. reflexivity. }
  split; [exact Hf|]. split; [exact Ha|]. split; [reflexivity|]. split; [reflexivity|].
  destruct (stored_run_marks_all_seen Js.ascii_toLowerCase Js.ascii_trim
              world_ingest files_seen_2 [bm1; bm2] _ Hf Ha eq_refl eq_refl)
    as [He [Hi [Hs _]]].
  split; [exact He|]. split; [exact Hi|]. rewrite Hs. reflexivity.
Defined.

(** X10 on the run that fetches bookmarks 1 and 2 with bookmark 2 seen. *)
Lemma seen_ids_kept_witness :
  In (JStr "2") (loaded_seen files_seen_2)
  /\ In (JStr "2")
       (loaded_seen (files (snd (main Js.ascii_toLowerCase Js.ascii_trim world_ingest
                                   (initial files_seen_2))))).
Proof.
  assert (H : In (JStr "2") (loaded_seen files_seen_2)) by (left; reflexivity).
  split; [exact H|].
  apply (seen_ids_kept Js.ascii_toLowerCase Js.ascii_trim world_ingest _ _ H).
Defined.

(** X11 on the same run. *)
Lemma alerts_only_appended_witness :
  (Js.array_includes (argv world_ingest) "--show" = true
   \/ Js.array_includes (argv world_ingest) "--clear" = false)
  /\ appended (loaded_alerts files_seen_2)
       (loaded_alerts (files (snd (main Js.ascii_toLowerCase Js.ascii_trim world_ingest
                                     (initial files_seen_2))))).
Proof.
  assert (H : Js.array_includes (argv world_ingest) "--show" = true
              \/ Js.array_includes (argv world_ingest) "--clear" = false).
  { right. reflexivity. }
  split; [exact H|].
  apply (alerts_only_appended Js.ascii_toLowerCase Js.ascii_trim _ _ H).
Defined.

(** X12 on the same run: bookmark 1 is unseen and scores 3 on the built-in
    table, and its alert is the only one. *)
Lemma ingest_appends_new_alerts_witness :
  fetched Js.ascii_trim world_ingest files_seen_2 [bm1; bm2]
    (snd (fetch_phase Js.ascii_trim world_ingest "tok" (initial files_seen_2)))
  /\ unseen (loaded_seen files_seen_2) [bm1; bm2] <> []
  /\ loaded_alerts files_seen_2 = JArr []
  /\ can_save files_seen_2 SEEN_FILE = true
  /\ can_save files_seen_2 ALERTS_FILE = true
  /\ fst (main Js.ascii_toLowerCase Js.ascii_trim world_ingest (initial files_seen_2))
     = Return tt
  /\ loaded_alerts (files (snd (main Js.ascii_toLowerCase Js.ascii_trim world_ingest
                                  (initial files_seen_2))))
     = JArr [ JObj [ ("id", JStr "1");
                     ("url", JStr "https://x.com/i/web/status/1");
                     ("text", JStr "Solana memecoin on base");
                     ("relevance_score", JNum 3);
                     ("reason", JStr "Matches trading: solana, base, memecoin");
                     ("project", JStr "trading");
                     ("timestamp", JStr "2026-01-03T00:00:00.000Z") ] ].
Proof.
  assert (Hf : fetched Js.ascii_trim world_ingest files_seen_2 [bm1; bm2]
                 (snd (fetch_phase Js.ascii_trim world_ingest "tok"
                         (initial files_seen_2)))).
  { exists "tok". split; [repeat split; try reflexivity; discriminate|].
    vm_compute. reflexivity. }
  assert (Hn : unseen (loaded_seen files_seen_2) [bm1; bm2] <> []).
  { vm_compute. discriminate. }
  split; [exact Hf|]. split; [exact Hn|]. split; [reflexivity|].
  split; [reflexivity|]. split; [reflexivity|].
  destruct (ingest_appends_new_alerts Js.ascii_toLowerCase Js.ascii_trim
              world_ingest files_seen_2 [bm1; bm2] _ [] Hf Hn eq_refl eq_refl eq_refl)
    as [He [added [Ha [Hlen Hnth]]]].
  split; [exact He|]. rewrite Ha. cbn [app]. f_equal.
  destruct added as [|a [|b rest]]; try discriminate Hlen.
  f_equal. specialize (Hnth 0%nat bm1 eq_refl). cbn in Hnth.
  injection Hnth as ->. vm_compute. reflexivity.
Defined.

(** X13 on the run over an alert file that holds an object. *)
Lemma alert_file_not_array_fails_witness :
  fetched Js.ascii_trim world_ingest files_alerts_object [bm1; bm2]
    (snd (fetch_phase Js.ascii_trim world_ingest "tok" (initial files_alerts_object)))
  /\ ~ is_array (loaded_alerts files_alerts_object)
  /\ new_alerts Js.ascii_toLowerCase Js.ascii_trim world_ingest files_alerts_object
       [bm1; bm2] <> []
  /\ fst (main Js.ascii_toLowerCase Js.ascii_trim world_ingest
            (initial files_alerts_object)) = Exit 1
  /\ files (snd (main Js.ascii_toLowerCase Js.ascii_trim world_ingest
                   (initial files_alerts_object))) = files_alerts_object.
Proof.
  assert (Hf : fetched Js.ascii_trim world_ingest files_alerts_object [bm1; bm2]
                 (snd (fetch_phase Js.ascii_trim world_ingest "tok"
                         (initial files_alerts_object)))).
  { exists "tok". split; [repeat split; try reflexivity; discriminate|].
    vm_compute. reflexivity. }
  assert (Ha : ~ is_array (loaded_alerts files_alerts_object)).
  { intros [items H]. discriminate. }
  assert (Hn : new_alerts Js.ascii_toLowerCase Js.ascii_trim world_ingest
                 files_alerts_object [bm1; bm2] <> []).
  { vm_compute. discriminate. }
  split; [exact Hf|]. split; [exact Ha|]. split; [exact Hn|].
  destruct (alert_file_not_array_fails Js.ascii_toLowerCase Js.ascii_trim
              world_ingest files_alerts_object [bm1; bm2] _ Hf Ha Hn) as [He [Hfs _]].
  split; [exact He|exact Hfs].
Defined.


(** X15 on a run with [--show] and [--clear] over an alert list that is
    empty. *)
Lemma show_is_read_only_witness :
  Js.array_includes (argv world_show) "--show" = true
  /\ main Js.ascii_toLowerCase Js.ascii_trim world_show (initial files_seen_2)
     = (Exit 0, {| files := files_seen_2; trace := [Log "No bookmark alerts."];
                   clock_reads := 0 |}).
Proof.
  split; [reflexivity|].
  destruct (show_is_read_only Js.ascii_toLowerCase Js.ascii_trim world_show
              files_seen_2 eq_refl) as [_ [_ [_ H]]].
  apply H. reflexivity.
Defined.

(** X16: [--clear] over an alert file that holds an object, then [--show]. *)
Lemma clear_then_show_witness :
  Js.array_includes (argv world_clear) "--clear" = true
  /\ Js.array_includes (argv world_clear) "--show" = false
  /\ can_save files_alerts_object ALERTS_FILE = true
  /\ Js.array_includes (argv world_show) "--show" = true
  /\ fst (main Js.ascii_toLowerCase Js.ascii_trim world_show
            (initial (files (snd (main Js.ascii_toLowerCase Js.ascii_trim world_clear
                                    (initial files_alerts_object))))))
     = Exit 0.
Proof.
  split; [reflexivity|]. split; [reflexivity|]. split; [reflexivity|].
  split; [reflexivity|].
  destruct (clear_then_show Js.ascii_toLowerCase Js.ascii_trim world_clear world_show
              files_alerts_object eq_refl eq_refl eq_refl eq_refl) as [_ ->].
  reflexivity.
Defined.


(** X17 on a run with an empty environment and no environment file. *)
Lemma no_token_exits_witness :
  Js.array_includes (argv world_no_token) "--show" = false
  /\ Js.array_includes (argv world_no_token) "--clear" = false
  /\ fst (getOAuth2Token Js.ascii_trim world_no_token (initial files_seen_2))
     = Return None
  /\ falsy None = true
  /\ main Js.ascii_toLowerCase Js.ascii_trim world_no_token (initial files_seen_2)
     = (Exit 1, {| files := files_seen_2; trace := [LogError SETUP_STEPS];
                   clock_reads := 0 |}).
Proof.
  split; [reflexivity|]. split; [reflexivity|]. split; [reflexivity|].
  split; [reflexivity|].
  apply (no_token_exits Js.ascii_toLowerCase Js.ascii_trim world_no_token files_seen_2
           None eq_refl eq_refl eq_refl eq_refl).
Defined.

(** X19 on a run whose lookup is answered with 404. *)
Lemma lookup_failure_stops_run_witness :
  ingest_mode Js.ascii_trim world_lookup_fails files_seen_2 "tok"
  /\ fst (getUserId Js.ascii_trim world_lookup_fails (initial files_seen_2)) = Return None
  /\ user_api world_lookup_fails (lookup_request "tok") = Some not_found
  /\ ok not_found = false
  /\ fst (main Js.ascii_toLowerCase Js.ascii_trim world_lookup_fails
            (initial files_seen_2)) = Exit 1
  /\ requests (trace (snd (main Js.ascii_toLowerCase Js.ascii_trim world_lookup_fails
                             (initial files_seen_2))))
     = [lookup_request "tok"].
Proof.
  assert (Hm : ingest_mode Js.ascii_trim world_lookup_fails files_seen_2 "tok").
  { repeat split; try reflexivity; discriminate. }
  split; [exact Hm|]. split; [reflexivity|]. split; [reflexivity|]. split; [reflexivity|].
  rewrite (lookup_failure_stops_run Js.ascii_toLowerCase Js.ascii_trim
             world_lookup_fails files_seen_2 "tok" None not_found
             Hm eq_refl eq_refl eq_refl eq_refl).
  split; reflexivity.
Defined.

(** X20 on the bytes 0 to 31 and 0 to 15. *)
Lemma verifier_and_state_format_witness :
  length (sample_bytes 32) = 32
  /\ length (sample_bytes 16) = 16
  /\ String.length
       (Auth.codeVerifier (Auth.new_session (fun _ => None) (sample_bytes 32)
                             (sample_bytes 16))) = 43
  /\ Auth.state (Auth.new_session (fun _ => None) (sample_bytes 32) (sample_bytes 16))
     = "000102030405060708090a0b0c0d0e0f".
Proof.
  split; [reflexivity|]. split; [reflexivity|].
  destruct (verifier_and_state_format (fun _ => None) (sample_bytes 32) (sample_bytes 16)
              eq_refl eq_refl) as [Hl _].
  split; [exact Hl|reflexivity].
Defined.

(** X21 on the session made from the bytes 0 to 31 and 0 to 15, and a
    callback with the code c1 and the state of this session. *)
Lemma callback_completes_pkce_witness :
  Auth.searchParams_get
    [("state", "000102030405060708090a0b0c0d0e0f"); ("code", "c1")] "code" = Some "c1"
  /\ "c1" <> ""
  /\ Auth.searchParams_get
       [("state", "000102030405060708090a0b0c0d0e0f"); ("code", "c1")] "state"
     = Auth.searchParams_get
         (Auth.authUrl_params
            (Auth.new_session (fun _ => None) (sample_bytes 32) (sample_bytes 16)))
         "state"
  /\ exists r rest,
       Auth.handler
         (Auth.new_session (fun _ => None) (sample_bytes 32) (sample_bytes 16))
         demo_auth_world
         [("state", "000102030405060708090a0b0c0d0e0f"); ("code", "c1")]
       = Auth.Respond 200 "<h1>✅ Auth successful! You can close this tab.</h1>"
         :: Auth.PostToken r :: rest
       /\ Auth.searchParams_get (Auth.form r) "code" = Some "c1"
       /\ option_map Auth.generateCodeChallenge
            (Auth.searchParams_get (Auth.form r) "code_verifier")
          = Auth.searchParams_get
              (Auth.authUrl_params
                 (Auth.new_session (fun _ => None) (sample_bytes 32) (sample_bytes 16)))
              "code_challenge".
Proof.
  split; [reflexivity|]. split; [discriminate|]. split; [reflexivity|].
  destruct (callback_completes_pkce (fun _ => None) (sample_bytes 32) (sample_bytes 16)
              demo_auth_world
              [("state", "000102030405060708090a0b0c0d0e0f"); ("code", "c1")] "c1"
              eq_refl ltac:(discriminate) eq_refl) as [r [rest [Hh [Hcode [Hch _]]]]].
  exists r, rest. split; [exact Hh|]. split; [exact Hcode|exact Hch].
Defined.

(** X22 on the accepted callback of the session with the nonce abc. *)
Lemma accepted_callback_ends_process_witness :
  accepted demo_session [("code", "c1"); ("state", "abc")] "c1"
  /\ exists before,
       Auth.handler demo_session demo_auth_world [("code", "c1"); ("state", "abc")]
       = before ++ [Auth.ProcessExit 0].
Proof.
  assert (Ha : accepted demo_session [("code", "c1"); ("state", "abc")] "c1").
  { split; [reflexivity|]. split; [discriminate|reflexivity]. }
  split; [exact Ha|].
  destruct (accepted_callback_ends_process demo_session demo_auth_world _ _ Ha)
    as [before [last [Hh [_ Hlast]]]].
  exists before. rewrite Hh. cbn in Hlast. destruct Hlast as [-> _]. reflexivity.
Defined.

(** X23 on the run that fetches bookmarks 1 and 2 with bookmark 2 seen:
    one alert is added and the last line says so. *)
Lemma summary_counts_alerts_witness :
  fetched Js.ascii_trim world_ingest files_seen_2 [bm1; bm2]
    (snd (fetch_phase Js.ascii_trim world_ingest "tok" (initial files_seen_2)))
  /\ unseen (loaded_seen files_seen_2) [bm1; bm2] <> []
  /\ fst (main Js.ascii_toLowerCase Js.ascii_trim world_ingest (initial files_seen_2))
     = Return tt
  /\ exists tr,
       trace (snd (main Js.ascii_toLowerCase Js.ascii_trim world_ingest
                     (initial files_seen_2)))
       = tr ++ [Log "✅ 1 relevant bookmark(s) added to alerts. Run --show to view."].
Proof.
  assert (Hf : fetched Js.ascii_trim world_ingest files_seen_2 [bm1; bm2]
                 (snd (fetch_phase Js.ascii_trim world_ingest "tok"
                         (initial files_seen_2)))).
  { exists "tok". split; [repeat split; try reflexivity; discriminate|].
    vm_compute. reflexivity. }
  assert (Hn : unseen (loaded_seen files_seen_2) [bm1; bm2] <> []).
  { vm_compute. discriminate. }
  assert (He : fst (main Js.ascii_toLowerCase Js.ascii_trim world_ingest
                      (initial files_seen_2)) = Return tt).
  { vm_compute. reflexivity. }
  split; [exact Hf|]. split; [exact Hn|]. split; [exact He|].
  destruct (summary_counts_alerts Js.ascii_toLowerCase Js.ascii_trim
              world_ingest files_seen_2 [bm1; bm2] _ Hf Hn He) as [_ [tr Htr]].
  exists tr. rewrite Htr. reflexivity.
Defined.

